(** * InteractiveHtmlBom: the KiCad board parser ([ecad/kicad.py])

    A shallow embedding of [PcbnewParser] and the properties of the
    board record it assembles.

    Conventions of the embedding:
    - Python [int] is [Z]; a Python [float] is the rational [Q] it denotes.
      Where the parser only scales a value and stores it ([x * 1e-6],
      [orientation * 0.1]) the product is kept exact; where it rounds the
      result ([round(x * 0.1, 2)] for arc angles) the operations are those
      of IEEE 754 binary64, round to nearest, ties to even ([float_mul],
      [float_add], [round]). Overflow, infinities and NaN are not modelled;
    - Python [str] is [string], compared byte-wise, which is the order of
      [sorted] and [list.sort] on designators and net names;
    - an optional dictionary key is an [option] field of a record;
    - an accessor that exists only on some pcbnew versions ([hasattr]) is an
      [option] field of the host object, [None] when the accessor is absent
      (a flag for [PointCount]); names that differ between versions but
      denote the same accessor ([GetModules]/[GetFootprints],
      [GetParentModule]/[GetParentFootprint], [MODULE]/[FOOTPRINT]) are one
      field;
    - pcbnew objects that the parser may mutate (footprints) live in a store
      indexed by references; logging, the font parser and the store are
      threaded through a state-and-exception monad. *)

From Stdlib Require Import ZArith QArith Qround Qpower String Ascii Lia Lqa.
From stdpp Require Import base gmap strings list sorting.

(** ** Numbers *)

(** [wxPoint] / [wxSize]: integer internal units (nanometres). *)
Definition IPoint : Type := Z * Z.

(** A normalised [[x, y]] pair, in millimetres. *)
Definition Point : Type := Q * Q.

(** [PcbnewParser.normalize] *)
Definition normalize (point : IPoint) : Point :=
  (inject_Z point.1 * 1e-6, inject_Z point.2 * 1e-6)%Q.

(** Nearest integer, ties to even: the rounding of Python 3's [round]. *)
Definition round_half_even (q : Q) : Z :=
  let f := Qfloor q in
  match (q - inject_Z f ?= 1 # 2)%Q with
  | Lt => f
  | Gt => (f + 1)%Z
  | Eq => if Z.even f then f else (f + 1)%Z
  end.

(** [⌊log2 q⌋] of a positive rational. *)
Definition Qlog2 (q : Q) : Z :=
  let k := (Z.log2 (Qnum q) - Z.log2 (Zpos (Qden q)))%Z in
  if Qle_bool (2 ^ k) q then k else (k - 1)%Z.

(** The exponent of the unit in the last place of the binary64 numbers near
    a non-negative [q]: 52 below the exponent of [q], and -1074 at least
    (the spacing of the subnormal numbers). *)
Definition ulp_exponent (q : Q) : Z :=
  if Qle_bool q 0 then (-1074)%Z else Z.max (-1074) (Qlog2 q - 52).

(** The binary64 number nearest to a non-negative [q], ties to even. *)
Definition nearest (q : Q) : Q :=
  (inject_Z (round_half_even (q / 2 ^ ulp_exponent q))
   * 2 ^ ulp_exponent q)%Q.

(** The binary64 number nearest to [q], ties to even: the float that an
    operation with the exact result [q] returns. *)
Definition binary64 (q : Q) : Q :=
  if Qle_bool 0 q then nearest q else (- nearest (- q))%Q.

(** The product and the sum of two floats. *)
Definition float_mul (x y : Q) : Q := binary64 (x * y).
Definition float_add (x y : Q) : Q := binary64 (x + y).

(** [q] is a float: the angles that the host reports are. *)
Definition is_float (q : Q) : Prop := (binary64 q == q)%Q.

(** The float that the literal [0.1] denotes. *)
Definition tenth : Q := binary64 (1 # 10).

(** Python's [round(x, ndigits)] on a float: the exact value of [x] is
    rounded to [ndigits] decimal digits, ties to even, and the result is
    the float nearest to that decimal number. *)
Definition round (x : Q) (ndigits : nat) : Q :=
  binary64
    (inject_Z (round_half_even (x * inject_Z (10 ^ Z.of_nat ndigits)))
     / inject_Z (10 ^ Z.of_nat ndigits))%Q.

#[global] Arguments binary64 : simpl never.
#[global] Arguments round : simpl never.
#[global] Arguments float_mul : simpl never.
#[global] Arguments float_add : simpl never.
#[global] Arguments tenth : simpl never.

(** ** The pcbnew host objects read by the parser *)

Inductive layer : Type :=
  | F_Cu | B_Cu | Edge_Cuts | F_SilkS | B_SilkS | F_Fab | B_Fab
  | Other_layer (id : nat).

#[global] Instance layer_eq_dec : EqDecision layer.
Proof. solve_decision. Defined.

(** Graphic shape kinds ([d.GetShape()]). *)
Inductive shape_t : Type :=
  | S_SEGMENT | S_RECT | S_ARC | S_CIRCLE | S_POLYGON | S_CURVE
  | S_OTHER (id : nat).

#[global] Instance shape_t_eq_dec : EqDecision shape_t.
Proof. solve_decision. Defined.

(** One outline of a polygon set. [has_PointCount] is [false] on hosts
    whose outline objects lack the [PointCount] method; [CPoints] are the
    points that [CPoint(0)], [CPoint(1)], ... return. *)
Record OUTLINE : Type := {
  has_PointCount : bool;
  CPoints : list IPoint
}.

Definition PointCount (o : OUTLINE) : nat := length (CPoints o).

Record SHAPE_POLY_SET : Type := {
  Outlines : list OUTLINE;
  HasHoles : bool;
  IsSelfIntersecting : bool
}.

Definition OutlineCount (ps : SHAPE_POLY_SET) : nat := length (Outlines ps).

Record EDA_RECT : Type := {
  rect_pos : IPoint;
  rect_size : IPoint
}.

(** References to footprint objects of the host. *)
Definition ref : Type := positive.

(** A drawing of the board or of a footprint: a graphic shape or a text.
    The record lists every accessor the parser calls on such an object.
    [TransformToSegmentList] is the flat list of segment end points of the
    host, two per segment, kept here as one pair per segment. *)
Record BOARD_ITEM : Type := {
  GetClass : string;
  GetLayer : layer;
  GetBoundingBox : EDA_RECT;
  (* graphic shapes *)
  GetShape : shape_t;
  GetStart : IPoint;
  GetEnd : IPoint;
  GetWidth : Z;
  GetRadius : Z;
  GetArcAngleStart : Q;
  GetAngle : Q;
  GetPolyShape : option SHAPE_POLY_SET;
  GetParentFootprint : option ref;
  GetBezControl1 : IPoint;
  GetBezControl2 : IPoint;
  (* texts *)
  GetPosition : IPoint;
  IsVisible : bool;
  GetTextThickness : option Z;
  GetThickness : Z;
  TransformToSegmentList : option (list (IPoint * IPoint));
  GetDrawRotation : Q;
  GetTextAngle : option Q;
  GetOrientation : Q;
  GetTextHeight : option Z;
  GetTextWidth : Z;
  GetHeight : Z;
  GetShownText : option string;
  GetText : string;
  IsMirrored : bool;
  IsItalic : bool;
  IsBold : bool;
  GetHorizJustify : Z;
  GetVertJustify : Z
}.

Inductive pad_shape_t : Type :=
  | PAD_SHAPE_RECT | PAD_SHAPE_OVAL | PAD_SHAPE_CIRCLE | PAD_SHAPE_ROUNDRECT
  | PAD_SHAPE_CUSTOM | PAD_SHAPE_CHAMFERED_RECT | PAD_SHAPE_OTHER (id : nat).

#[global] Instance pad_shape_t_eq_dec : EqDecision pad_shape_t.
Proof. solve_decision. Defined.

(** Pad attributes. [PAD_ATTRIB_PTH]/[PAD_ATTRIB_NPTH] are the names of
    recent hosts for what older ones call [PAD_ATTRIB_STANDARD] and
    [PAD_ATTRIB_HOLE_NOT_PLATED]. *)
Inductive pad_attrib_t : Type :=
  | PAD_ATTRIB_PTH | PAD_ATTRIB_SMD | PAD_ATTRIB_CONN | PAD_ATTRIB_NPTH.

#[global] Instance pad_attrib_t_eq_dec : EqDecision pad_attrib_t.
Proof. solve_decision. Defined.

Definition PAD_ATTRIB_STANDARD : pad_attrib_t := PAD_ATTRIB_PTH.
Definition PAD_ATTRIB_HOLE_NOT_PLATED : pad_attrib_t := PAD_ATTRIB_NPTH.

Inductive drill_shape_t : Type :=
  | PAD_DRILL_SHAPE_CIRCLE | PAD_DRILL_SHAPE_OBLONG | PAD_DRILL_SHAPE_OTHER.

Record PAD : Type := {
  pad_GetPadName : string;
  pad_GetLayerSet : list layer;
  pad_GetPosition : IPoint;
  pad_GetSize : IPoint;
  pad_GetOrientation : Q;
  pad_GetShape : pad_shape_t;
  pad_GetCustomShapeAsPolygon : SHAPE_POLY_SET;
  pad_GetRoundRectCornerRadius : Z;
  pad_GetChamferPositions : Z;
  pad_GetChamferRectRatio : Q;
  pad_GetAttribute : pad_attrib_t;
  pad_GetDrillShape : drill_shape_t;
  pad_GetDrillSize : IPoint;
  pad_GetOffset : option IPoint;
  pad_GetNetname : string
}.

Record FOOTPRINT : Type := {
  fp_GetReference : string;
  fp_GetValue : string;
  fp_Reference : BOARD_ITEM;
  fp_Value : BOARD_ITEM;
  fp_GetPosition : IPoint;
  fp_GetOrientation : Q;
  fp_GetLayer : layer;
  fp_GraphicalItems : list BOARD_ITEM;
  fp_Pads : list PAD;
  fp_GetFootprintName : string;
  fp_GetAttributes : Z
}.

Record TRACK : Type := {
  trk_GetClass : string;
  trk_GetLayer : layer;
  trk_IsOnLayer : layer → bool;
  trk_GetStart : IPoint;
  trk_GetEnd : IPoint;
  trk_GetWidth : Z;
  trk_GetNetname : string;
  trk_GetArcAngleStart : Q;
  trk_GetAngle : Q;
  trk_GetCenter : IPoint;
  trk_GetRadius : Q
}.

(** [zone_GetFilledPolysList0] is the call without a layer argument, which
    raises [TypeError] ([None]) on hosts that require the layer. *)
Record ZONE : Type := {
  zone_IsFilled : bool;
  zone_GetIsKeepout : option bool;
  zone_GetIsRuleArea : option bool;
  zone_GetLayerSet : list layer;
  zone_GetFilledPolysList0 : option SHAPE_POLY_SET;
  zone_GetFilledPolysList : layer → SHAPE_POLY_SET;
  zone_GetMinThickness : Z;
  zone_GetFilledPolysUseThickness : option bool;
  zone_GetNetname : string
}.

Record TITLE_BLOCK : Type := {
  GetTitle : string;
  GetRevision : string;
  GetCompany : string;
  GetDate : string
}.

(** The board. [Zones] and [GetNetInfo] are absent on old hosts;
    [ExpandTextVars] is present when both [board.GetProject] and
    [pcbnew.ExpandTextVars] are, and is then already applied to the
    board's project. [GetNetInfo] is the map [NetsByName()]. *)
Record BOARD : Type := {
  GetDrawings : list BOARD_ITEM;
  GetFootprints : list ref;
  GetTracks : list TRACK;
  Zones : option (list ZONE);
  GetNetInfo : option (gmap string Z);
  GetTitleBlock : TITLE_BLOCK;
  ExpandTextVars : option (string → string)
}.

(** The fields of [core.config.Config] that the parser reads. *)
Record Config : Type := {
  extra_fields : list string;
  board_variant_whitelist : list string;
  board_variant_blacklist : list string;
  dnp_field : string;
  netlist_file : string;
  normalize_field_case : bool;
  include_tracks : bool;
  include_nets : bool
}.

(** What [parse_schematic_data] returns on success: the field names and,
    per reference designator, the field values. *)
Definition ExtraData : Type := list string * gmap string (gmap string string).

(** The environment of the parser: which optional names the [pcbnew] module
    of the host defines, the pcbnew footprint operations, and the
    collaborators that live outside this module ([svgpath.create_path],
    [FontParser.get_parsed_font], [parse_schematic_data], [os.path]). *)
Record Host : Type := {
  has_PAD_SHAPE_ROUNDRECT : bool;
  has_PAD_SHAPE_CUSTOM : bool;
  has_PAD_SHAPE_CHAMFERED_RECT : bool;
  has_PAD_ATTRIB_PTH : bool;
  FP_EXCLUDE_FROM_BOM : option Z;
  MOD_VIRTUAL : option Z;
  SetOrientation : Q → FOOTPRINT → FOOTPRINT;
  SetPosition : IPoint → FOOTPRINT → FOOTPRINT;
  GetFootprintRect : option (FOOTPRINT → EDA_RECT);
  fp_GetBoundingBox : FOOTPRINT → EDA_RECT;
  create_path : list (list Point) → string;
  get_parsed_font : list string → string;
  extra_data_func : string → bool → option ExtraData;
  os_path_isfile : string → bool;
  os_path_basename : string → string;
  os_path_splitext0 : string → string;
  file_mtime : string → string
}.

(** [EDA_RECT.Normalize], [EDA_RECT.Merge], [GetRight], [GetBottom]. *)
Definition rect_Normalize (r : EDA_RECT) : EDA_RECT :=
  let '(x, y) := rect_pos r in
  let '(w, h) := rect_size r in
  {| rect_pos := (if (w <? 0)%Z then (x + w)%Z else x,
                  if (h <? 0)%Z then (y + h)%Z else y);
     rect_size := (Z.abs w, Z.abs h) |}.

Definition GetRight (r : EDA_RECT) : Z := ((rect_pos r).1 + (rect_size r).1)%Z.
Definition GetBottom (r : EDA_RECT) : Z := ((rect_pos r).2 + (rect_size r).2)%Z.

Definition rect_Merge (r other : EDA_RECT) : EDA_RECT :=
  let a := rect_Normalize r in
  let b := rect_Normalize other in
  let x := Z.min (rect_pos a).1 (rect_pos b).1 in
  let y := Z.min (rect_pos a).2 (rect_pos b).2 in
  {| rect_pos := (x, y);
     rect_size := ((Z.max (GetRight a) (GetRight b) - x)%Z,
                   (Z.max (GetBottom a) (GetBottom b) - y)%Z) |}.

(** ** Effects: the logger, the font parser, the store, exceptions *)

Inductive log_level : Type := INFO | WARN | ERROR.

(** The arguments of a format string, kept unformatted. *)
Inductive log_arg : Type :=
  | arg_str (s : string)
  | arg_shape (s : shape_t)
  | arg_pad_shape (s : pad_shape_t).

Record log_record : Type := {
  lvl : log_level;
  fmt : string;
  args : list log_arg
}.

Inductive exn : Type :=
  | ParsingException (message : string).

Inductive result (A : Type) : Type :=
  | Return (a : A)
  | Raise (e : exn).
Arguments Return {A} a.
Arguments Raise {A} e.

(** The mutable world of one run: the footprint objects of the host, the
    records received by the logger, and the strings received by the font
    parser ([parse_font_for_string]), oldest first. *)
Record state : Type := {
  store : gmap ref FOOTPRINT;
  logged : list log_record;
  font_strings : list string
}.

Definition M (A : Type) : Type := state → result A * state.

#[global] Instance M_ret : MRet M := λ A a σ, (Return a, σ).

#[global] Instance M_bind : MBind M := λ A B f m σ,
  match m σ with
  | (Return a, σ') => f a σ'
  | (Raise e, σ') => (Raise e, σ')
  end.

Definition raise {A} (e : exn) : M A := λ σ, (Raise e, σ).

Definition logger (l : log_level) (f : string) (a : list log_arg) : M unit :=
  λ σ, (Return (),
        {| store := store σ;
           logged := logged σ ++ [{| lvl := l; fmt := f; args := a |}];
           font_strings := font_strings σ |}).

Definition logger_info := logger INFO.
Definition logger_warn := logger WARN.
Definition logger_error := logger ERROR.

Definition parse_font_for_string (text : string) : M unit :=
  λ σ, (Return (),
        {| store := store σ;
           logged := logged σ;
           font_strings := font_strings σ ++ [text] |}).

(** Blank host objects, the starting point of concrete boards. *)
Definition blank_rect : EDA_RECT := {| rect_pos := (0, 0)%Z; rect_size := (0, 0)%Z |}.

Definition blank_poly_set : SHAPE_POLY_SET :=
  {| Outlines := []; HasHoles := false; IsSelfIntersecting := false |}.

Definition blank_item : BOARD_ITEM :=
  {| GetClass := "PCB_SHAPE"; GetLayer := F_SilkS; GetBoundingBox := blank_rect;
     GetShape := S_SEGMENT; GetStart := (0, 0)%Z; GetEnd := (0, 0)%Z;
     GetWidth := 0; GetRadius := 0; GetArcAngleStart := 0; GetAngle := 0;
     GetPolyShape := None; GetParentFootprint := None;
     GetBezControl1 := (0, 0)%Z; GetBezControl2 := (0, 0)%Z;
     GetPosition := (0, 0)%Z; IsVisible := true; GetTextThickness := None;
     GetThickness := 0; TransformToSegmentList := None; GetDrawRotation := 0;
     GetTextAngle := None; GetOrientation := 0; GetTextHeight := None;
     GetTextWidth := 0; GetHeight := 0; GetShownText := None; GetText := "";
     IsMirrored := false; IsItalic := false; IsBold := false;
     GetHorizJustify := 0; GetVertJustify := 0 |}.

Definition blank_footprint : FOOTPRINT :=
  {| fp_GetReference := ""; fp_GetValue := "";
     fp_Reference := blank_item; fp_Value := blank_item;
     fp_GetPosition := (0, 0)%Z; fp_GetOrientation := 0; fp_GetLayer := F_Cu;
     fp_GraphicalItems := []; fp_Pads := []; fp_GetFootprintName := "";
     fp_GetAttributes := 0 |}.

#[global] Instance FOOTPRINT_inhabited : Inhabited FOOTPRINT :=
  populate blank_footprint.

(** A reading method call [r.Get...()]. A reference held by the parser
    always denotes a live object. *)
Definition call {A : Type} (r : ref) (method : FOOTPRINT → A) : M A :=
  λ σ, (Return (method (store σ !!! r)), σ).

(** [pcbnew.FOOTPRINT(f)] (or [pcbnew.MODULE(f)]): the copy constructor
    makes a new object with the fields of [f]. *)
Definition new_FOOTPRINT (f : ref) : M ref :=
  λ σ, let r := fresh (dom (store σ)) in
       (Return r,
        {| store := <[r := store σ !!! f]> (store σ);
           logged := logged σ;
           font_strings := font_strings σ |}).

(** A mutating method call [r.Set...(...)]. *)
Definition mutate (r : ref) (method : FOOTPRINT → FOOTPRINT) : M unit :=
  λ σ, (Return (),
        {| store := <[r := method (store σ !!! r)]> (store σ);
           logged := logged σ;
           font_strings := font_strings σ |}).

(** ** The records the parser builds *)

(** The ["angle"] of a polygon: the integer [0], or the one-element tuple
    that the trailing comma of [angle = ... * 0.1,] builds. *)
Inductive poly_angle : Type :=
  | angle_int (n : Z)
  | angle_tuple (a : Q).

(** The dictionaries returned by [parse_shape] and [parse_text], one
    constructor per set of keys. *)
Inductive drawing_dict : Type :=
  | dict_line (type : string) (start end_ : Point) (width : Q)
  | dict_circle (type : string) (start : Point) (radius width : Q)
  | dict_arc (type : string) (start : Point) (radius startangle endangle width : Q)
  | dict_polygon (type : string) (pos : Point) (angle : poly_angle)
      (polygons : list (list Point))
  | dict_curve (type : string) (start cpa cpb end_ : Point) (width : Q)
  | dict_svgpath (thickness : Q) (svgpath : string)
  | dict_text (pos : Point) (text : string) (height width : Q) (justify : Z * Z)
      (thickness : Q) (attr : list string) (angle : Q).

Definition Qltb (x y : Q) : bool := negb (Qle_bool y x).

(** [for x in l: body], with the variables the body assigns as [acc]. *)
Fixpoint for_each {A S : Type} (l : list A) (acc : S) (body : S → A → M S)
    : M S :=
  match l with
  | [] => mret acc
  | x :: l' => acc' ← body acc x; for_each l' acc' body
  end.

(** The loop of [parse_poly_set] over the outlines, with its early
    [return result]. *)
Fixpoint parse_poly_set_loop (outlines : list OUTLINE)
    (result : list (list Point)) : M (list (list Point)) :=
  match outlines with
  | [] => mret result
  | outline :: rest =>
      if negb (has_PointCount outline) then
        _ ← logger_warn
              "No PointCount method on outline object. Unpatched kicad version?"
              [];
        mret result
      else
        let parsed_outline :=
          foldl (λ parsed_outline point,
                   parsed_outline ++ [normalize (point.1, point.2)])
                [] (CPoints outline) in
        parse_poly_set_loop rest (result ++ [parsed_outline])
  end.

(** [PcbnewParser.parse_poly_set] *)
Definition parse_poly_set (polygon_set : SHAPE_POLY_SET)
    : M (list (list Point)) :=
  parse_poly_set_loop (Outlines polygon_set) [].

Definition point_eqb (p q : Point) : bool :=
  Qeq_bool p.1 q.1 && Qeq_bool p.2 q.2.

(** [lines[-1].append(p)] *)
Definition append_to_last (lines : list (list Point)) (p : Point)
    : list (list Point) :=
  match reverse lines with
  | [] => []
  | last :: front => reverse front ++ [last ++ [p]]
  end.

(** The loop of [parse_text] that joins consecutive segments into
    polylines. [prev] is [segments[i-1]], [None] when [i == 0]. *)
Fixpoint text_lines (prev : option Point) (segments : list (Point * Point))
    (lines : list (list Point)) : list (list Point) :=
  match segments with
  | [] => lines
  | (seg_i, seg_i1) :: rest =>
      let lines :=
        if match prev with
           | None => true
           | Some seg_im1 => negb (point_eqb seg_im1 seg_i)
           end
        then lines ++ [[seg_i]] else lines in
      text_lines (Some seg_i1) rest (append_to_last lines seg_i1)
  end.

Definition shape_name (s : shape_t) : string :=
  match s with
  | S_SEGMENT => "segment"
  | S_CIRCLE => "circle"
  | S_ARC => "arc"
  | S_POLYGON => "polygon"
  | S_CURVE => "curve"
  | S_RECT => "rect"
  | S_OTHER _ => ""
  end.

Record PcbnewParser : Type := {
  file_name : string;
  config : Config;
  board : BOARD;
  footprints : list ref
}.

(** [PcbnewParser.__init__] with a board supplied by the caller. *)
Definition PcbnewParser_init (file_name : string) (config : Config)
    (board : BOARD) : PcbnewParser :=
  {| file_name := file_name; config := config; board := board;
     footprints := GetFootprints board |}.

(** A drawing as stored by [parse_drawings_on_layers]: the parsed
    dictionary and the ["ref"] / ["val"] key added to reference and value
    texts. *)
Record layer_drawing : Type := {
  ld_drawing : drawing_dict;
  ld_ref : option Z;
  ld_val : option Z
}.

Record pad_dict : Type := {
  pd_layers : list string;
  pd_pos : Point;
  pd_size : Point;
  pd_angle : Q;
  pd_shape : string;
  pd_polygons : option (list (list Point));
  pd_radius : option Q;
  pd_chamfpos : option Z;
  pd_chamfratio : option Q;
  pd_type : string;
  pd_drillshape : option (option string);
  pd_drillsize : option Point;
  pd_offset : option Point;
  pd_net : option string;
  pd_pin1 : option Z
}.

(** [pad_dict['pin1'] = 1] *)
Definition set_pin1 (d : pad_dict) : pad_dict :=
  {| pd_layers := pd_layers d; pd_pos := pd_pos d; pd_size := pd_size d;
     pd_angle := pd_angle d; pd_shape := pd_shape d;
     pd_polygons := pd_polygons d; pd_radius := pd_radius d;
     pd_chamfpos := pd_chamfpos d; pd_chamfratio := pd_chamfratio d;
     pd_type := pd_type d; pd_drillshape := pd_drillshape d;
     pd_drillsize := pd_drillsize d; pd_offset := pd_offset d;
     pd_net := pd_net d; pd_pin1 := Some 1%Z |}.

Record bbox_dict : Type := {
  bb_pos : Point;
  bb_relpos : Point;
  bb_size : Point;
  bb_angle : Q
}.

Record footprint_drawing : Type := {
  fd_layer : string;
  fd_drawing : drawing_dict
}.

Record footprint_dict : Type := {
  fpd_ref : string;
  fpd_bbox : bbox_dict;
  fpd_pads : list pad_dict;
  fpd_drawings : list footprint_drawing;
  fpd_layer : option string
}.

(** The dictionaries of [parse_tracks]: a via or straight segment, or an
    arc; ["net"] is an optional key of both. *)
Inductive track_dict : Type :=
  | track_line (start end_ : Point) (width : Q) (net : option string)
  | track_arc (center : Point) (startangle endangle radius width : Q)
      (net : option string).

Definition track_net (t : track_dict) : option string :=
  match t with
  | track_line _ _ _ net => net
  | track_arc _ _ _ _ _ net => net
  end.

Record zone_dict : Type := {
  zd_polygons : list (list Point);
  zd_width : Q;
  zd_net : option string
}.

(** [common.Component] *)
Record Component : Type := {
  c_ref : string;
  c_val : string;
  c_footprint : string;
  c_layer : option string;
  c_attr : string;
  c_extra_fields : gmap string string
}.

(** Python's [sorted(l, key=key)] on string keys: a stable sort. *)
Fixpoint insert_by {A : Type} (key : A → string) (x : A) (l : list A)
    : list A :=
  match l with
  | [] => [x]
  | y :: l' =>
      if String.leb (key x) (key y) then x :: y :: l'
      else y :: insert_by key x l'
  end.

Definition sorted {A : Type} (l : list A) (key : A → string) : list A :=
  foldr (insert_by key) [] l.

(** [d.get(k, default)] on a dictionary given by its items. *)
Fixpoint dict_get {K V : Type} `{EqDecision K} (d : list (K * V)) (k : K)
    (default : V) : V :=
  match d with
  | [] => default
  | (k', v) :: d' => if decide (k = k') then v else dict_get d' k default
  end.

(** Truth value of a string and of a list. *)
Definition str_true (s : string) : bool := negb (bool_decide (s = "")).
Definition list_true {A : Type} (l : list A) : bool :=
  match l with [] => false | _ => true end.

Record FB (A : Type) : Type := { F : list A; B : list A }.
Arguments F {A} _.
Arguments B {A} _.

Section Parser.

Variable host : Host.
Variable self : PcbnewParser.

(** [PcbnewParser.parse_shape] *)
Definition parse_shape (d : BOARD_ITEM) : M (option drawing_dict) :=
  let shape := shape_name (GetShape d) in
  if decide (shape = "") then
    _ ← logger_info "Unsupported shape %s, skipping" [arg_shape (GetShape d)];
    mret None
  else
  let start := normalize (GetStart d) in
  let end_ := normalize (GetEnd d) in
  if bool_decide (shape ∈ ["segment"; "rect"]) then
    mret (Some (dict_line shape start end_ (inject_Z (GetWidth d) * 1e-6)%Q))
  else if decide (shape = "circle") then
    mret (Some (dict_circle shape start (inject_Z (GetRadius d) * 1e-6)%Q
                  (inject_Z (GetWidth d) * 1e-6)%Q))
  else if decide (shape = "arc") then
    let a1 := round (float_mul (GetArcAngleStart d) tenth) 2 in
    let a2 :=
      round (float_mul (float_add (GetArcAngleStart d) (GetAngle d)) tenth)
            2 in
    let '(a1, a2) := if Qltb (GetAngle d) 0%Q then (a2, a1) else (a1, a2) in
    mret (Some (dict_arc shape start (inject_Z (GetRadius d) * 1e-6)%Q a1 a2
                  (inject_Z (GetWidth d) * 1e-6)%Q))
  else if decide (shape = "polygon") then
    match GetPolyShape d with
    | None =>
        _ ← logger_info "Polygons not supported for KiCad 4, skipping" [];
        mret None
    | Some poly_shape =>
        polygons ← parse_poly_set poly_shape;
        angle ← match GetParentFootprint d with
                | None => mret (angle_int 0)
                | Some parent_footprint =>
                    orientation ← call parent_footprint fp_GetOrientation;
                    mret (angle_tuple (orientation * 0.1)%Q)
                end;
        mret (Some (dict_polygon shape start angle polygons))
    end
  else if decide (shape = "curve") then
    mret (Some (dict_curve shape start (normalize (GetBezControl1 d))
                  (normalize (GetBezControl2 d)) end_
                  (inject_Z (GetWidth d) * 1e-6)%Q))
  else mret None.

(** [PcbnewParser.parse_text] *)
Definition parse_text (d : BOARD_ITEM) : M (option drawing_dict) :=
  let pos := normalize (GetPosition d) in
  if negb (IsVisible d) then mret None else
  let thickness :=
    match GetTextThickness d with
    | Some t => (inject_Z t * 1e-6)%Q
    | None => (inject_Z (GetThickness d) * 1e-6)%Q
    end in
  match TransformToSegmentList d with
  | Some segment_list =>
      let segments :=
        (λ s : IPoint * IPoint, (normalize s.1, normalize s.2)) <$> segment_list in
      let lines := text_lines None segments [] in
      mret (Some (dict_svgpath thickness (create_path host lines)))
  | None =>
      let angle :=
        if decide (GetClass d = "MTEXT") then (GetDrawRotation d * 0.1)%Q
        else match GetTextAngle d with
             | Some a => (a * 0.1)%Q
             | None => (GetOrientation d * 0.1)%Q
             end in
      let '(height, width) :=
        match GetTextHeight d with
        | Some h => (inject_Z h * 1e-6, inject_Z (GetTextWidth d) * 1e-6)%Q
        | None => (inject_Z (GetHeight d) * 1e-6, inject_Z (GetWidth d) * 1e-6)%Q
        end in
      let text := default (GetText d) (GetShownText d) in
      _ ← parse_font_for_string text;
      let attributes := [] in
      let attributes :=
        if IsMirrored d then attributes ++ ["mirrored"] else attributes in
      let attributes :=
        if IsItalic d then attributes ++ ["italic"] else attributes in
      let attributes :=
        if IsBold d then attributes ++ ["bold"] else attributes in
      mret (Some (dict_text pos text height width
                    (GetHorizJustify d, GetVertJustify d)
                    thickness attributes angle))
  end.

(** [PcbnewParser.parse_drawing] *)
Definition parse_drawing (d : BOARD_ITEM) : M (option drawing_dict) :=
  if bool_decide (GetClass d ∈ ["DRAWSEGMENT"; "MGRAPHIC"; "PCB_SHAPE"]) then
    parse_shape d
  else if bool_decide (GetClass d ∈ ["PTEXT"; "MTEXT"]) then
    parse_text d
  else
    _ ← logger_info "Unsupported drawing class %s, skipping"
          [arg_str (GetClass d)];
    mret None.

(** [PcbnewParser.parse_edges] *)
Definition parse_edges (pcb : BOARD)
    : M (list drawing_dict * option EDA_RECT) :=
  let edges := [] in
  let drawings := GetDrawings pcb in
  let bbox := None in
  drawings ← for_each (footprints self) drawings (λ drawings f,
    graphical_items ← call f fp_GraphicalItems;
    mret (foldl (λ drawings g, drawings ++ [g]) drawings graphical_items));
  '(edges, bbox) ← for_each drawings (edges, bbox) (λ '(edges, bbox) d,
    if decide (GetLayer d = Edge_Cuts) then
      parsed_drawing ← parse_drawing d;
      match parsed_drawing with
      | Some parsed =>
          mret (edges ++ [parsed],
                match bbox with
                | None => Some (GetBoundingBox d)
                | Some bbox => Some (rect_Merge bbox (GetBoundingBox d))
                end)
      | None => mret (edges, bbox)
      end
    else mret (edges, bbox));
  mret (edges, rect_Normalize <$> bbox).


(** [PcbnewParser.parse_drawings_on_layers] *)
Definition parse_drawings_on_layers (drawings : list (string * BOARD_ITEM))
    (f_layer b_layer : layer) : M (FB layer_drawing) :=
  let front := [] in
  let back := [] in
  '(front, back) ← for_each drawings (front, back) (λ '(front, back) d,
    if negb (bool_decide (GetLayer d.2 ∈ [f_layer; b_layer])) then
      mret (front, back)
    else
      drawing ← parse_drawing d.2;
      match drawing with
      | None => mret (front, back)
      | Some drawing =>
          let drawing :=
            {| ld_drawing := drawing;
               ld_ref := if decide (d.1 = "ref") then Some 1%Z else None;
               ld_val := if decide (d.1 = "val") then Some 1%Z else None |} in
          if decide (GetLayer d.2 = f_layer) then
            mret (front ++ [drawing], back)
          else
            mret (front, back ++ [drawing])
      end);
  mret {| F := front; B := back |}.

(** [PcbnewParser.get_all_drawings] *)
Definition get_all_drawings : M (list (string * BOARD_ITEM)) :=
  let drawings := (λ d, (GetClass d, d)) <$> GetDrawings (board self) in
  for_each (footprints self) drawings (λ drawings f,
    reference ← call f fp_Reference;
    let drawings := drawings ++ [("ref", reference)] in
    value ← call f fp_Value;
    let drawings := drawings ++ [("val", value)] in
    graphical_items ← call f fp_GraphicalItems;
    mret (foldl (λ drawings d, drawings ++ [(GetClass d, d)])
            drawings graphical_items)).

(** [PcbnewParser.parse_pad] *)
Definition parse_pad (pad : PAD) : M (option pad_dict) :=
  let layers_set := pad_GetLayerSet pad in
  let layers := [] in
  let layers :=
    if bool_decide (F_Cu ∈ layers_set) then layers ++ ["F"] else layers in
  let layers :=
    if bool_decide (B_Cu ∈ layers_set) then layers ++ ["B"] else layers in
  let pos := normalize (pad_GetPosition pad) in
  let size := normalize (pad_GetSize pad) in
  let angle := (pad_GetOrientation pad * -0.1)%Q in
  let shape_lookup :=
    [(PAD_SHAPE_RECT, "rect"); (PAD_SHAPE_OVAL, "oval");
     (PAD_SHAPE_CIRCLE, "circle")] in
  let shape_lookup :=
    if has_PAD_SHAPE_ROUNDRECT host
    then shape_lookup ++ [(PAD_SHAPE_ROUNDRECT, "roundrect")]
    else shape_lookup in
  let shape_lookup :=
    if has_PAD_SHAPE_CUSTOM host
    then shape_lookup ++ [(PAD_SHAPE_CUSTOM, "custom")]
    else shape_lookup in
  let shape_lookup :=
    if has_PAD_SHAPE_CHAMFERED_RECT host
    then shape_lookup ++ [(PAD_SHAPE_CHAMFERED_RECT, "chamfrect")]
    else shape_lookup in
  let shape := dict_get shape_lookup (pad_GetShape pad) "" in
  if decide (shape = "") then
    _ ← logger_info "Unsupported pad shape %s, skipping."
          [arg_pad_shape (pad_GetShape pad)];
    mret None
  else
  polygons ←
    (if decide (shape = "custom") then
       let polygon_set := pad_GetCustomShapeAsPolygon pad in
       _ ← (if HasHoles polygon_set
            then logger_warn "Detected holes in custom pad polygons" []
            else mret ());
       _ ← (if IsSelfIntersecting polygon_set
            then logger_warn
                   "Detected self intersecting polygons in custom pad" []
            else mret ());
       polygons ← parse_poly_set polygon_set;
       mret (Some polygons)
     else mret None);
  let radius :=
    if bool_decide (shape ∈ ["roundrect"; "chamfrect"])
    then Some (inject_Z (pad_GetRoundRectCornerRadius pad) * 1e-6)%Q
    else None in
  let chamfpos :=
    if decide (shape = "chamfrect")
    then Some (pad_GetChamferPositions pad) else None in
  let chamfratio :=
    if decide (shape = "chamfrect")
    then Some (pad_GetChamferRectRatio pad) else None in
  let through_hole_attributes :=
    if has_PAD_ATTRIB_PTH host
    then [PAD_ATTRIB_PTH; PAD_ATTRIB_NPTH]
    else [PAD_ATTRIB_STANDARD; PAD_ATTRIB_HOLE_NOT_PLATED] in
  let through_hole :=
    bool_decide (pad_GetAttribute pad ∈ through_hole_attributes) in
  mret (Some
    {| pd_layers := layers; pd_pos := pos; pd_size := size;
       pd_angle := angle; pd_shape := shape;
       pd_polygons := polygons;
       pd_radius := radius;
       pd_chamfpos := chamfpos;
       pd_chamfratio := chamfratio;
       pd_type := if through_hole then "th" else "smd";
       pd_drillshape :=
         if through_hole
         then Some (match pad_GetDrillShape pad with
                    | PAD_DRILL_SHAPE_CIRCLE => Some "circle"
                    | PAD_DRILL_SHAPE_OBLONG => Some "oblong"
                    | PAD_DRILL_SHAPE_OTHER => None
                    end)
         else None;
       pd_drillsize :=
         if through_hole then Some (normalize (pad_GetDrillSize pad))
         else None;
       pd_offset := normalize <$> pad_GetOffset pad;
       pd_net :=
         if include_nets (config self) then Some (pad_GetNetname pad)
         else None;
       pd_pin1 := None |}).

(** [pads[0][0]], evaluated on non-empty lists only. *)
Definition first_name (pads : list (string * pad_dict)) : string :=
  match pads with
  | [] => ""
  | p :: _ => p.1
  end.

(** The pin-1 guess of [parse_footprints]: the block under [if pads:]. *)
Definition guess_pin1 (pads : list (string * pad_dict))
    : list (string * pad_dict) :=
  if list_true pads then
    let pads := sorted pads (λ el, el.1) in
    let pin1_pads :=
      filter (λ p, p.1 ∈ ["1"; "A"; "A1"; "P1"; "PAD1"]) pads in
    let pin1_pad_name :=
      if list_true pin1_pads then first_name pin1_pads
      else first_name pads in
    (λ '(pad_name, pad_dict),
       if decide (pad_name = pin1_pad_name)
       then (pad_name, set_pin1 pad_dict)
       else (pad_name, pad_dict)) <$> pads
  else pads.

(** The loop of [parse_footprints] over [f.Pads()]. *)
Definition parse_pads (f_pads : list PAD) : M (list (string * pad_dict)) :=
  for_each f_pads [] (λ pads p,
    pad_dict ← parse_pad p;
    match pad_dict with
    | Some pad_dict => mret (pads ++ [(pad_GetPadName p, pad_dict)])
    | None => mret pads
    end).

Definition layer_letter (l : layer) : option string :=
  match l with
  | F_Cu => Some "F"
  | B_Cu => Some "B"
  | _ => None
  end.

(** The body of the loop of [parse_footprints], for one footprint [f]. *)
Definition parse_footprint (f : ref) : M footprint_dict :=
  ref ← call f fp_GetReference;
  (* bounding box *)
  f_copy ← new_FOOTPRINT f;
  _ ← mutate f_copy (SetOrientation host 0%Q);
  _ ← mutate f_copy (SetPosition host (0, 0)%Z);
  footprint_rect ←
    match GetFootprintRect host with
    | Some get_footprint_rect => call f_copy get_footprint_rect
    | None => call f_copy (fp_GetBoundingBox host)
    end;
  f_position ← call f fp_GetPosition;
  f_orientation ← call f fp_GetOrientation;
  let bbox :=
    {| bb_pos := normalize f_position;
       bb_relpos := normalize (rect_pos footprint_rect);
       bb_size := normalize (rect_size footprint_rect);
       bb_angle := (f_orientation * 0.1)%Q |} in
  (* graphical drawings *)
  graphical_items ← call f fp_GraphicalItems;
  drawings ← for_each graphical_items [] (λ drawings d,
    if negb (bool_decide (GetLayer d ∈ [F_Cu; B_Cu])) then mret drawings
    else
      drawing ← parse_drawing d;
      match drawing with
      | None => mret drawings
      | Some drawing =>
          mret (drawings ++
                [{| fd_layer := if decide (GetLayer d = F_Cu) then "F" else "B";
                    fd_drawing := drawing |}])
      end);
  (* footprint pads *)
  f_pads ← call f fp_Pads;
  pads ← parse_pads f_pads;
  let pads := guess_pin1 pads in
  let pads := (λ p, p.2) <$> pads in
  (* add footprint *)
  f_layer ← call f fp_GetLayer;
  mret {| fpd_ref := ref; fpd_bbox := bbox; fpd_pads := pads;
          fpd_drawings := drawings; fpd_layer := layer_letter f_layer |}.

(** [PcbnewParser.parse_footprints] *)
Definition parse_footprints : M (list footprint_dict) :=
  for_each (footprints self) [] (λ footprints f,
    footprint ← parse_footprint f;
    mret (footprints ++ [footprint])).

(** [PcbnewParser.parse_tracks]; the pair is [(result[F_Cu], result[B_Cu])]. *)
Definition parse_tracks (tracks : list TRACK) : FB track_dict :=
  let result := ([], []) in
  let result := foldl (λ '(front, back) track,
    if decide (trk_GetClass track = "VIA") then
      let track_dict :=
        track_line (normalize (trk_GetStart track))
                   (normalize (trk_GetEnd track))
                   (inject_Z (trk_GetWidth track) * 1e-6)%Q
                   (Some (trk_GetNetname track)) in
      let front :=
        if trk_IsOnLayer track F_Cu then front ++ [track_dict] else front in
      let back :=
        if trk_IsOnLayer track B_Cu then back ++ [track_dict] else back in
      (front, back)
    else if bool_decide (trk_GetLayer track ∈ [F_Cu; B_Cu]) then
      let net :=
        if include_nets (config self) then Some (trk_GetNetname track)
        else None in
      let track_dict :=
        if decide (trk_GetClass track = "ARC") then
          let a1 := round (float_mul (trk_GetArcAngleStart track) tenth) 2 in
          let a2 :=
            round (float_mul (float_add (trk_GetArcAngleStart track)
                                (trk_GetAngle track)) tenth)
                  2 in
          let '(a1, a2) :=
            if Qltb (trk_GetAngle track) 0%Q then (a2, a1) else (a1, a2) in
          track_arc (normalize (trk_GetCenter track)) a1 a2
                    (trk_GetRadius track * 1e-6)%Q
                    (inject_Z (trk_GetWidth track) * 1e-6)%Q net
        else
          track_line (normalize (trk_GetStart track))
                     (normalize (trk_GetEnd track))
                     (inject_Z (trk_GetWidth track) * 1e-6)%Q net in
      if decide (trk_GetLayer track = F_Cu)
      then (front ++ [track_dict], back)
      else (front, back ++ [track_dict])
    else (front, back)) result tracks in
  {| F := result.1; B := result.2 |}.

(** [PcbnewParser.parse_zones]; the pair is [(result[F_Cu], result[B_Cu])]. *)
Definition parse_zones (zones : list ZONE) : M (FB zone_dict) :=
  let result := ([], []) in
  result ← for_each zones result (λ result zone,
    if negb (zone_IsFilled zone)
       || default false (zone_GetIsKeepout zone)
       || default false (zone_GetIsRuleArea zone)
    then mret result
    else
      let layers :=
        filter (λ layer, layer ∈ [F_Cu; B_Cu]) (zone_GetLayerSet zone) in
      for_each layers result (λ '(front, back) layer,
        let poly_set :=
          match zone_GetFilledPolysList0 zone with
          | Some poly_set => poly_set
          | None => zone_GetFilledPolysList zone layer
          end in
        let width := (inject_Z (zone_GetMinThickness zone) * 1e-6)%Q in
        let width :=
          match zone_GetFilledPolysUseThickness zone with
          | Some false => 0%Q
          | _ => width
          end in
        polygons ← parse_poly_set poly_set;
        let zone_dict :=
          {| zd_polygons := polygons; zd_width := width;
             zd_net := if include_nets (config self)
                       then Some (zone_GetNetname zone) else None |} in
        if decide (layer = F_Cu)
        then mret (front ++ [zone_dict], back)
        else mret (front, back ++ [zone_dict])));
  mret {| F := result.1; B := result.2 |}.

(** [PcbnewParser.parse_netlist]: the keys of the name-indexed map,
    converted with [str] and sorted in place. *)
Definition parse_netlist (net_info : gmap string Z) : list string :=
  let nets := (map_to_list net_info).*1 in
  let nets := (λ s : string, s) <$> nets in
  sorted nets (λ s, s).

(** [PcbnewParser.footprint_to_component] *)
Definition footprint_to_component (footprint : ref)
    (extra_fields : gmap string string) : M Component :=
  footprint_name ← call footprint fp_GetFootprintName;
  attributes ← call footprint fp_GetAttributes;
  let attr :=
    match FP_EXCLUDE_FROM_BOM host with
    | Some flag =>
        if decide (Z.land attributes flag = 0%Z) then "Normal" else "Virtual"
    | None =>
        match MOD_VIRTUAL host with
        | Some virtual =>
            if decide (attributes = virtual) then "Virtual" else "Normal"
        | None => "Normal"
        end
    end in
  f_layer ← call footprint fp_GetLayer;
  reference ← call footprint fp_GetReference;
  value ← call footprint fp_GetValue;
  mret {| c_ref := reference; c_val := value; c_footprint := footprint_name;
          c_layer := layer_letter f_layer; c_attr := attr;
          c_extra_fields := extra_fields |}.

End Parser.

Record edges_bbox_dict : Type := {
  minx : Q;
  miny : Q;
  maxx : Q;
  maxy : Q
}.

Record metadata_dict : Type := {
  md_title : string;
  md_revision : string;
  md_company : string;
  md_date : string
}.

(** The board record ([pcbdata]) returned by [parse]. ["bom"] is the empty
    dictionary and has no field here. *)
Record pcbdata_dict : Type := {
  edges_bbox : edges_bbox_dict;
  edges : list drawing_dict;
  drawings_silkscreen : FB layer_drawing;
  drawings_fabrication : FB layer_drawing;
  pcb_footprints : list footprint_dict;
  metadata : metadata_dict;
  font_data : string;
  tracks : option (FB track_dict);
  zones : option (FB zone_dict);
  nets : option (list string)
}.

Section Parse.

Variable host : Host.
Variable self : PcbnewParser.

(** [self.font_parser.get_parsed_font()] *)
Definition get_parsed_font_now : M string :=
  λ σ, (Return (get_parsed_font host (font_strings σ)), σ).

(** The tail of [parse], once the outline bounding box is known. *)
Definition assemble (need_extra_fields : bool)
    (extra_field_data : option (gmap string (gmap string string)))
    (title revision company file_date : string)
    (edges : list drawing_dict) (bbox : EDA_RECT)
    : M (option pcbdata_dict * option (list Component)) :=
  let bbox :=
    {| minx := (inject_Z (rect_pos bbox).1 * 1e-6)%Q;
       miny := (inject_Z (rect_pos bbox).2 * 1e-6)%Q;
       maxx := (inject_Z (GetRight bbox) * 1e-6)%Q;
       maxy := (inject_Z (GetBottom bbox) * 1e-6)%Q |} in
  drawings ← get_all_drawings self;
  silkscreen ← parse_drawings_on_layers host drawings F_SilkS B_SilkS;
  fabrication ← parse_drawings_on_layers host drawings F_Fab B_Fab;
  footprints_ ← parse_footprints host self;
  font ← get_parsed_font_now;
  '(tracks_, zones_) ←
    (if include_tracks (config self) then
       let tracks_ := parse_tracks self (GetTracks (board self)) in
       match Zones (board self) with
       | Some board_zones =>
           zones_ ← parse_zones self board_zones;
           mret (Some tracks_, Some zones_)
       | None =>
           _ ← logger_info "Zones not supported for KiCad 4, skipping" [];
           mret (Some tracks_, Some {| F := []; B := [] |})
       end
     else mret (None, None));
  let nets_ :=
    if include_nets (config self)
    then parse_netlist <$> GetNetInfo (board self)
    else None in
  let pcbdata :=
    {| edges_bbox := bbox; edges := edges;
       drawings_silkscreen := silkscreen;
       drawings_fabrication := fabrication;
       pcb_footprints := footprints_;
       metadata := {| md_title := title; md_revision := revision;
                      md_company := company; md_date := file_date |};
       font_data := font;
       tracks := tracks_; zones := zones_; nets := nets_ |} in
  let warning_shown := false in
  '(e, warning_shown) ←
    match extra_field_data with
    | Some extra_field_data =>
        if negb (bool_decide (extra_field_data = ∅)) && need_extra_fields then
          for_each (footprints self) ([] : list (gmap string string), warning_shown)
            (λ '(e, warning_shown) f,
               reference ← call f fp_GetReference;
               let e := e ++ [default (∅ : gmap string string)
                                 (extra_field_data !! reference)] in
               if negb (bool_decide (is_Some (extra_field_data !! reference)))
               then
                 _ ← logger_warn "Component %s is missing from schematic data."
                       [arg_str reference];
                 mret (e, true)
               else mret (e, warning_shown))
        else mret (replicate (length (footprints self))
                     (∅ : gmap string string), warning_shown)
    | None => mret (replicate (length (footprints self))
                      (∅ : gmap string string), warning_shown)
    end;
  _ ← (if (warning_shown : bool)
       then logger_warn "Netlist/xml file is likely out of date." []
       else mret ());
  components ← for_each (zip (footprints self) e) [] (λ components '(f, ee),
    component ← footprint_to_component host f ee;
    mret (components ++ [component]));
  mret (Some pcbdata, Some components).

(** [PcbnewParser.parse] *)
Definition parse : M (option pcbdata_dict * option (list Component)) :=
  (* Get extra field data from netlist *)
  let need_extra_fields :=
    list_true (extra_fields (config self))
    || list_true (board_variant_whitelist (config self))
    || list_true (board_variant_blacklist (config self))
    || str_true (dnp_field (config self)) in
  need_extra_fields ←
    (if negb (str_true (netlist_file (config self))) && need_extra_fields then
       _ ← logger_warn
             ("Ignoring extra fields related config parameters " ++
              "since no netlist/xml file was specified.") [];
       mret false
     else mret need_extra_fields);
  let extra_field_data := None in
  let extra_field_data :=
    if str_true (netlist_file (config self))
       && os_path_isfile host (netlist_file (config self))
    then extra_data_func host (netlist_file (config self))
           (normalize_field_case (config self))
    else extra_field_data in
  _ ← (if negb (bool_decide (is_Some extra_field_data)) && need_extra_fields
       then raise (ParsingException
                     ("Failed parsing " ++ netlist_file (config self)))
       else mret ());
  let extra_field_data := (λ t : ExtraData, t.2) <$> extra_field_data in
  let title_block := GetTitleBlock (board self) in
  let title := GetTitle title_block in
  let revision := GetRevision title_block in
  let company := GetCompany title_block in
  let '(title, revision, company) :=
    match ExpandTextVars (board self) with
    | Some expand => (expand title, expand revision, expand company)
    | None => (title, revision, company)
    end in
  let file_date := GetDate title_block in
  let file_date :=
    if negb (str_true file_date) then file_mtime host (file_name self)
    else file_date in
  let pcb_file_name := os_path_basename host (file_name self) in
  let title :=
    if negb (str_true title) then os_path_splitext0 host pcb_file_name
    else title in
  '(edges, bbox) ← parse_edges host self (board self);
  match bbox with
  | None =>
      _ ← logger_error
            ("Please draw pcb outline on the edges " ++
             "layer on sheet or any footprint before " ++
             "generating BOM.") [];
      mret (None, None)
  | Some bbox =>
      assemble need_extra_fields extra_field_data title revision company
        file_date edges bbox
  end.

End Parse.

(** ** Concrete hosts and boards used to run the parser *)

Definition with_orientation (a : Q) (f : FOOTPRINT) : FOOTPRINT :=
  {| fp_GetReference := fp_GetReference f; fp_GetValue := fp_GetValue f;
     fp_Reference := fp_Reference f; fp_Value := fp_Value f;
     fp_GetPosition := fp_GetPosition f; fp_GetOrientation := a;
     fp_GetLayer := fp_GetLayer f; fp_GraphicalItems := fp_GraphicalItems f;
     fp_Pads := fp_Pads f; fp_GetFootprintName := fp_GetFootprintName f;
     fp_GetAttributes := fp_GetAttributes f |}.

Definition with_position (p : IPoint) (f : FOOTPRINT) : FOOTPRINT :=
  {| fp_GetReference := fp_GetReference f; fp_GetValue := fp_GetValue f;
     fp_Reference := fp_Reference f; fp_Value := fp_Value f;
     fp_GetPosition := p; fp_GetOrientation := fp_GetOrientation f;
     fp_GetLayer := fp_GetLayer f; fp_GraphicalItems := fp_GraphicalItems f;
     fp_Pads := fp_Pads f; fp_GetFootprintName := fp_GetFootprintName f;
     fp_GetAttributes := fp_GetAttributes f |}.

(** A recent host: every optional name is present; the footprint rectangle
    is a 1 mm square anchored at the footprint position; no schematic data
    file exists. *)
Definition demo_host : Host :=
  {| has_PAD_SHAPE_ROUNDRECT := true; has_PAD_SHAPE_CUSTOM := true;
     has_PAD_SHAPE_CHAMFERED_RECT := true; has_PAD_ATTRIB_PTH := true;
     FP_EXCLUDE_FROM_BOM := Some 2%Z; MOD_VIRTUAL := None;
     SetOrientation := with_orientation; SetPosition := with_position;
     GetFootprintRect :=
       Some (λ f, {| rect_pos := fp_GetPosition f;
                     rect_size := (1000000, 1000000)%Z |});
     fp_GetBoundingBox :=
       λ f, {| rect_pos := fp_GetPosition f;
               rect_size := (1000000, 1000000)%Z |};
     create_path := λ _, ""; get_parsed_font := λ _, "";
     extra_data_func := λ _ _, None; os_path_isfile := λ _, false;
     os_path_basename := λ s, s; os_path_splitext0 := λ s, s;
     file_mtime := λ _, "2020-01-01 00:00:00" |}.

Definition named_pad (name : string) : PAD :=
  {| pad_GetPadName := name; pad_GetLayerSet := [F_Cu];
     pad_GetPosition := (0, 0)%Z; pad_GetSize := (0, 0)%Z;
     pad_GetOrientation := 0; pad_GetShape := PAD_SHAPE_RECT;
     pad_GetCustomShapeAsPolygon := blank_poly_set;
     pad_GetRoundRectCornerRadius := 0; pad_GetChamferPositions := 0;
     pad_GetChamferRectRatio := 0; pad_GetAttribute := PAD_ATTRIB_SMD;
     pad_GetDrillShape := PAD_DRILL_SHAPE_CIRCLE; pad_GetDrillSize := (0, 0)%Z;
     pad_GetOffset := None; pad_GetNetname := "GND" |}.

Definition footprint_with_pads (reference : string) (position : IPoint)
    (orientation : Q) (pads : list PAD) : FOOTPRINT :=
  {| fp_GetReference := reference; fp_GetValue := "";
     fp_Reference := blank_item; fp_Value := blank_item;
     fp_GetPosition := position; fp_GetOrientation := orientation;
     fp_GetLayer := F_Cu; fp_GraphicalItems := []; fp_Pads := pads;
     fp_GetFootprintName := "R_0603"; fp_GetAttributes := 0 |}.

(** A graphic item of the given shape on the given layer. *)
Definition graphic (l : layer) (s : shape_t) (start end_ : IPoint)
    (arc_start sweep : Q) : BOARD_ITEM :=
  {| GetClass := "PCB_SHAPE"; GetLayer := l;
     GetBoundingBox :=
       {| rect_pos := start;
          rect_size := (end_.1 - start.1, end_.2 - start.2)%Z |};
     GetShape := s; GetStart := start; GetEnd := end_;
     GetWidth := 100000; GetRadius := 1000000;
     GetArcAngleStart := arc_start; GetAngle := sweep;
     GetPolyShape := None; GetParentFootprint := None;
     GetBezControl1 := (0, 0)%Z; GetBezControl2 := (0, 0)%Z;
     GetPosition := (0, 0)%Z; IsVisible := true; GetTextThickness := None;
     GetThickness := 0; TransformToSegmentList := None; GetDrawRotation := 0;
     GetTextAngle := None; GetOrientation := 0; GetTextHeight := None;
     GetTextWidth := 0; GetHeight := 0; GetShownText := None; GetText := "";
     IsMirrored := false; IsItalic := false; IsBold := false;
     GetHorizJustify := 0; GetVertJustify := 0 |}.

Definition demo_title_block : TITLE_BLOCK :=
  {| GetTitle := "demo"; GetRevision := "1"; GetCompany := "";
     GetDate := "2020-01-01" |}.

Definition demo_config : Config :=
  {| extra_fields := []; board_variant_whitelist := [];
     board_variant_blacklist := []; dnp_field := ""; netlist_file := "";
     normalize_field_case := false; include_tracks := true;
     include_nets := false |}.

Definition board_of (drawings : list BOARD_ITEM) (fps : list ref)
    (trks : list TRACK) : BOARD :=
  {| GetDrawings := drawings; GetFootprints := fps; GetTracks := trks;
     Zones := Some []; GetNetInfo := Some ∅;
     GetTitleBlock := demo_title_block; ExpandTextVars := None |}.

Definition state_of (fps : list (ref * FOOTPRINT)) : state :=
  {| store := list_to_map fps; logged := []; font_strings := [] |}.

(** Scenario 1 of the specification, with one footprint: two edge segments
    spanning (0,0)-(10,5) mm and a footprint with pads 2, 1, 3. *)
Definition demo_footprint : FOOTPRINT :=
  footprint_with_pads "R1" (3000000, 2000000)%Z 900
    [named_pad "2"; named_pad "1"; named_pad "3"].

Definition demo_board : BOARD :=
  board_of
    [graphic Edge_Cuts S_SEGMENT (0, 0)%Z (10000000, 0)%Z 0 0;
     graphic Edge_Cuts S_SEGMENT (10000000, 0)%Z (10000000, 5000000)%Z 0 0]
    [1%positive] [].

Definition demo_state : state := state_of [(1%positive, demo_footprint)].

Definition demo_parser : PcbnewParser :=
  PcbnewParser_init "demo.kicad_pcb" demo_config demo_board.

(** The outlines that [parse_poly_set] reaches: those before the first one
    without [PointCount]. *)
Fixpoint enumerable_prefix (outlines : list OUTLINE) : list OUTLINE :=
  match outlines with
  | [] => []
  | o :: rest => if has_PointCount o then o :: enumerable_prefix rest else []
  end.

Definition outline_points (o : OUTLINE) : list Point :=
  normalize <$> CPoints o.

Definition no_PointCount_warning : log_record :=
  {| lvl := WARN;
     fmt := "No PointCount method on outline object. Unpatched kicad version?";
     args := [] |}.

(** The arc angle rule in the words of the specification: [a1] is the
    start angle, [a2] is [a1] plus the sweep, both in degrees rounded to two
    digits, swapped when the sweep is negative. The sum, the conversion to
    degrees and the rounding are the float operations of the program. *)
Definition spec_arc_angles (start sweep : Q) : Q * Q :=
  let a1 := round (float_mul start tenth) 2 in
  let a2 := round (float_mul (float_add start sweep) tenth) 2 in
  if Qltb sweep 0%Q then (a2, a1) else (a1, a2).

(** The record that [parse_tracks] builds for an arc track. *)
Definition arc_record (self : PcbnewParser) (t : TRACK) : track_dict :=
  track_arc (normalize (trk_GetCenter t))
    (spec_arc_angles (trk_GetArcAngleStart t) (trk_GetAngle t)).1
    (spec_arc_angles (trk_GetArcAngleStart t) (trk_GetAngle t)).2
    (trk_GetRadius t * 1e-6)%Q (inject_Z (trk_GetWidth t) * 1e-6)%Q
    (if include_nets (config self) then Some (trk_GetNetname t) else None).


(** The order [sorted] establishes: keys ascending. *)
Definition key_le {A : Type} (key : A → string) (x y : A) : Prop :=
  String.le (key x) (key y).

(** [returns m σ Q]: from [σ], [m] returns normally with a value and a
    final state that satisfy [Q]. *)
Definition returns {A : Type} (m : M A) (σ : state)
    (Q : A → state → Prop) : Prop :=
  ∃ a σ', m σ = (Return a, σ') ∧ Q a σ'.

(** The state of a run that starts with no host object and no output. *)
Definition empty_state : state :=
  {| store := ∅; logged := []; font_strings := [] |}.

(** The value of a run that returns an optional record. *)
Definition value_of {A} (r : result (option A)) : option A :=
  match r with Return a => a | Raise _ => None end.

(** The dictionary [parse_pad] returns for a pad: its value does not
    depend on the state it runs in. *)
Definition pad_record (host : Host) (self : PcbnewParser) (p : PAD)
    : option pad_dict :=
  value_of (parse_pad host self p empty_state).1.

(** The list [pads] of [parse_footprints] before the pin-1 guess: the
    designator and dictionary of every pad that [parse_pad] accepts, in the
    order of [f.Pads()]. *)
Definition parsed_pads (host : Host) (self : PcbnewParser)
    (f_pads : list PAD) : list (string * pad_dict) :=
  omap (λ p, pad_dict ← pad_record host self p;
             Some (pad_GetPadName p, pad_dict)) f_pads.

(** [same_store σ σ']: the run from [σ] to [σ'] wrote to no host object and
    only added records to the log. *)
Definition same_store (σ σ' : state) : Prop :=
  store σ' = store σ ∧ logged σ `prefix_of` logged σ'.

(** [pure_result m P]: in every state [m] returns the same value, which
    satisfies [P], and writes to no host object. *)
Definition pure_result {A} (m : M A) (P : A → Prop) : Prop :=
  ∃ a, P a ∧ ∀ σ, returns m σ (λ r σ', r = a ∧ same_store σ σ').

(** The number of pads that carry the ['pin1'] key. *)
Definition count_pin1 (pads : list pad_dict) : nat :=
  length (filter (λ d, pd_pin1 d = Some 1%Z) pads).

(** The ['pads'] list of a footprint record, from the pads of the
    footprint. *)
Definition assembled_pads (host : Host) (self : PcbnewParser)
    (f_pads : list PAD) : list pad_dict :=
  (guess_pin1 (parsed_pads host self f_pads)).*2.

(** The marking loop of the pin-1 guess, for the chosen name [m]. *)
Definition mark (m : string) (p : string * pad_dict) : string * pad_dict :=
  let '(pad_name, pad_dict) := p in
  if decide (pad_name = m) then (pad_name, set_pin1 pad_dict)
  else (pad_name, pad_dict).

(** The common first pin names. *)
Definition preferred (name : string) : Prop :=
  name ∈ ["1"; "A"; "A1"; "P1"; "PAD1"].

(** [pin1_pad_name], from the sorted pads. *)
Definition selected_name (sorted_pads : list (string * pad_dict)) : string :=
  if list_true (filter (λ p, preferred p.1) sorted_pads)
  then first_name (filter (λ p, preferred p.1) sorted_pads)
  else first_name sorted_pads.

(** A state with the given host objects and no output yet. *)
Definition bare (st : gmap ref FOOTPRINT) : state :=
  {| store := st; logged := []; font_strings := [] |}.

(** [store_pure m]: [m] always returns, writes to no host object, and its
    value depends on the state through the host objects only. *)
Definition store_pure {A} (m : M A) : Prop :=
  ∀ st, ∃ a, ∀ σ, store σ = st →
    returns m σ (λ r σ', r = a ∧ same_store σ σ').

(** The dictionary [parse_drawing] returns for a drawing, given the host
    objects. *)
Definition drawing_record (host : Host) (st : gmap ref FOOTPRINT)
    (d : BOARD_ITEM) : option drawing_dict :=
  value_of (parse_drawing host d (bare st)).1.

(** The drawings [parse_edges] looks at: those of the board, then the
    graphical items of every footprint. *)
Definition edge_candidates (self : PcbnewParser) (pcb : BOARD)
    (st : gmap ref FOOTPRINT) : list BOARD_ITEM :=
  GetDrawings pcb ++ (footprints self ≫= λ f, fp_GraphicalItems (st !!! f)).

(** The outline records: what [parse_drawing] returns for the candidates
    on the edge-cuts layer. *)
Definition outline_records (host : Host) (self : PcbnewParser) (pcb : BOARD)
    (st : gmap ref FOOTPRINT) : list drawing_dict :=
  omap (drawing_record host st)
       (filter (λ d, GetLayer d = Edge_Cuts) (edge_candidates self pcb st)).

(** [extends st0 st]: every object of [st0] is in [st], unchanged. *)
Definition extends (st0 st : gmap ref FOOTPRINT) : Prop :=
  ∀ l, l ∈ dom st0 → st !! l = st0 !! l.

(** [preserves σ0 σ]: every host object of [σ0] is unchanged in [σ], and
    the log of [σ0] is the beginning of the log of [σ]. *)
Definition preserves (σ0 σ : state) : Prop :=
  extends (store σ0) (store σ) ∧ logged σ0 `prefix_of` logged σ.

(** The rectangle [footprint_rect] of [parse_footprints]: read from the
    footprint after resetting its orientation and then its position. *)
Definition local_rect (host : Host) (obj : FOOTPRINT) : EDA_RECT :=
  let reset := SetPosition host (0, 0)%Z (SetOrientation host 0%Q obj) in
  match GetFootprintRect host with
  | Some get_footprint_rect => get_footprint_rect reset
  | None => fp_GetBoundingBox host reset
  end.

(** The entry of a footprint's ['drawings'] list for one graphical item. *)
Definition copper_drawing (host : Host) (st : gmap ref FOOTPRINT)
    (d : BOARD_ITEM) : option footprint_drawing :=
  if bool_decide (GetLayer d ∈ [F_Cu; B_Cu]) then
    (λ drawing,
       {| fd_layer := if decide (GetLayer d = F_Cu) then "F" else "B";
          fd_drawing := drawing |}) <$> drawing_record host st d
  else None.

(** The record of a footprint, as a function of the footprint object. *)
Definition footprint_record (host : Host) (self : PcbnewParser)
    (st : gmap ref FOOTPRINT) (obj : FOOTPRINT) : footprint_dict :=
  {| fpd_ref := fp_GetReference obj;
     fpd_bbox :=
       {| bb_pos := normalize (fp_GetPosition obj);
          bb_relpos := normalize (rect_pos (local_rect host obj));
          bb_size := normalize (rect_size (local_rect host obj));
          bb_angle := (fp_GetOrientation obj * 0.1)%Q |};
     fpd_pads := assembled_pads host self (fp_Pads obj);
     fpd_drawings := omap (copper_drawing host st) (fp_GraphicalItems obj);
     fpd_layer := layer_letter (fp_GetLayer obj) |}.

(** [recorded host self st0 f fd]: [fd] is the record of footprint [f]
    of the store [st0]. *)
Definition recorded (host : Host) (self : PcbnewParser)
    (st0 : gmap ref FOOTPRINT) (f : ref) (fd : footprint_dict) : Prop :=
  ∃ st, extends st0 st ∧ fd = footprint_record host self st (st0 !!! f).

(** [need_extra_fields] as first computed by [parse]. *)
Definition fields_requested (cfg : Config) : bool :=
  list_true (extra_fields cfg)
  || list_true (board_variant_whitelist cfg)
  || list_true (board_variant_blacklist cfg)
  || str_true (dnp_field cfg).

(** [extra_field_data] as first computed by [parse]. *)
Definition extra_data_read (host : Host) (cfg : Config) : option ExtraData :=
  if str_true (netlist_file cfg) && os_path_isfile host (netlist_file cfg)
  then extra_data_func host (netlist_file cfg) (normalize_field_case cfg)
  else None.

(** The record logged when the board has no outline. *)
Definition outline_error : log_record :=
  {| lvl := ERROR;
     fmt := "Please draw pcb outline on the edges layer on sheet or any footprint before generating BOM.";
     args := [] |}.

(** The record logged when fields are requested without a netlist file. *)
Definition ignoring_warning : log_record :=
  {| lvl := WARN;
     fmt := "Ignoring extra fields related config parameters since no netlist/xml file was specified.";
     args := [] |}.

(** The record that [parse_tracks] builds for a via. *)
Definition via_record (t : TRACK) : track_dict :=
  track_line (normalize (trk_GetStart t)) (normalize (trk_GetEnd t))
    (inject_Z (trk_GetWidth t) * 1e-6)%Q (Some (trk_GetNetname t)).

(** The ["net"] key of a pad, track segment or zone: present when net
    inclusion is configured. *)
Definition configured_net (self : PcbnewParser) (name : string)
    : option string :=
  if include_nets (config self) then Some name else None.

(** A pad dictionary without its ['pin1'] key. *)
Definition unset_pin1 (d : pad_dict) : pad_dict :=
  {| pd_layers := pd_layers d; pd_pos := pd_pos d; pd_size := pd_size d;
     pd_angle := pd_angle d; pd_shape := pd_shape d;
     pd_polygons := pd_polygons d; pd_radius := pd_radius d;
     pd_chamfpos := pd_chamfpos d; pd_chamfratio := pd_chamfratio d;
     pd_type := pd_type d; pd_drillshape := pd_drillshape d;
     pd_drillsize := pd_drillsize d; pd_offset := pd_offset d;
     pd_net := pd_net d; pd_pin1 := None |}.

(** More concrete boards. *)
Definition pad_at (name : string) (position : IPoint) : PAD :=
  {| pad_GetPadName := name; pad_GetLayerSet := [F_Cu];
     pad_GetPosition := position; pad_GetSize := (0, 0)%Z;
     pad_GetOrientation := 0; pad_GetShape := PAD_SHAPE_RECT;
     pad_GetCustomShapeAsPolygon := blank_poly_set;
     pad_GetRoundRectCornerRadius := 0; pad_GetChamferPositions := 0;
     pad_GetChamferRectRatio := 0; pad_GetAttribute := PAD_ATTRIB_SMD;
     pad_GetDrillShape := PAD_DRILL_SHAPE_CIRCLE; pad_GetDrillSize := (0, 0)%Z;
     pad_GetOffset := None; pad_GetNetname := "GND" |}.

(** A footprint whose two thermal pads share the designator 1. *)
Definition twin_footprint : FOOTPRINT :=
  footprint_with_pads "U1" (0, 0)%Z 0 [named_pad "1"; named_pad "1"].

Definition twin_state : state := state_of [(1%positive, twin_footprint)].

(** A footprint with pads 1, 2, 2: designators repeat, the selected one
    does not. *)
Definition repeated_footprint : FOOTPRINT :=
  footprint_with_pads "U2" (0, 0)%Z 0
    [named_pad "1"; named_pad "2"; named_pad "2"].

Definition repeated_state : state :=
  state_of [(1%positive, repeated_footprint)].

(** A footprint whose pads are listed as 2 then 1. *)
Definition swapped_footprint : FOOTPRINT :=
  footprint_with_pads "J1" (0, 0)%Z 0
    [pad_at "2" (2000000, 0)%Z; pad_at "1" (1000000, 0)%Z].

Definition swapped_state : state := state_of [(1%positive, swapped_footprint)].



(** The demo board, with extra fields requested and no netlist file. *)
Definition requesting_config : Config :=
  {| extra_fields := ["MPN"]; board_variant_whitelist := [];
     board_variant_blacklist := []; dnp_field := ""; netlist_file := "";
     normalize_field_case := false; include_tracks := true;
     include_nets := false |}.

Definition requesting_parser : PcbnewParser :=
  PcbnewParser_init "demo.kicad_pcb" requesting_config demo_board.

(** The demo board, with extra fields requested from a file that the host
    cannot read. *)
Definition missing_file_config : Config :=
  {| extra_fields := ["MPN"]; board_variant_whitelist := [];
     board_variant_blacklist := []; dnp_field := "";
     netlist_file := "demo.xml";
     normalize_field_case := false; include_tracks := true;
     include_nets := false |}.

Definition missing_file_parser : PcbnewParser :=
  PcbnewParser_init "demo.kicad_pcb" missing_file_config demo_board.

Definition demo_via : TRACK :=
  {| trk_GetClass := "VIA"; trk_GetLayer := F_Cu;
     trk_IsOnLayer := λ _, true;
     trk_GetStart := (1000000, 1000000)%Z; trk_GetEnd := (1000000, 1000000)%Z;
     trk_GetWidth := 600000; trk_GetNetname := "GND";
     trk_GetArcAngleStart := 0; trk_GetAngle := 0;
     trk_GetCenter := (0, 0)%Z; trk_GetRadius := 0 |}.

Definition demo_segment : TRACK :=
  {| trk_GetClass := "TRACK"; trk_GetLayer := B_Cu;
     trk_IsOnLayer := λ l, bool_decide (l = B_Cu);
     trk_GetStart := (0, 0)%Z; trk_GetEnd := (1000000, 0)%Z;
     trk_GetWidth := 250000; trk_GetNetname := "VCC";
     trk_GetArcAngleStart := 0; trk_GetAngle := 0;
     trk_GetCenter := (0, 0)%Z; trk_GetRadius := 0 |}.

(** Scenario 4 of the specification: start 45 degrees, sweep -90 degrees. *)
Definition demo_arc_track : TRACK :=
  {| trk_GetClass := "ARC"; trk_GetLayer := F_Cu;
     trk_IsOnLayer := λ l, bool_decide (l = F_Cu);
     trk_GetStart := (0, 0)%Z; trk_GetEnd := (1000000, 0)%Z;
     trk_GetWidth := 250000; trk_GetNetname := "VCC";
     trk_GetArcAngleStart := 450; trk_GetAngle := -900;
     trk_GetCenter := (0, 0)%Z; trk_GetRadius := 1000000 |}.

Definition enumerable_outline (points : list IPoint) : OUTLINE :=
  {| has_PointCount := true; CPoints := points |}.

Definition legacy_outline (points : list IPoint) : OUTLINE :=
  {| has_PointCount := false; CPoints := points |}.

Definition demo_poly_set : SHAPE_POLY_SET :=
  {| Outlines :=
       [enumerable_outline [(0, 0); (1000000, 0); (0, 1000000)]%Z;
        enumerable_outline [(0, 0); (-1000000, 0)]%Z];
     HasHoles := false; IsSelfIntersecting := false |}.

Definition legacy_poly_set : SHAPE_POLY_SET :=
  {| Outlines :=
       [enumerable_outline [(0, 0); (1000000, 0); (0, 1000000)]%Z;
        legacy_outline [(0, 0); (-1000000, 0)]%Z;
        enumerable_outline [(5, 5)]%Z];
     HasHoles := false; IsSelfIntersecting := false |}.

Definition demo_net_info : gmap string Z :=
  {[ "VCC" := 2%Z; "GND" := 1%Z; "" := 0%Z ]}.

(** Whether [parse_drawing] skips a drawing, read off its guards. *)
Definition drawing_skipped (d : BOARD_ITEM) : Prop :=
  if bool_decide (GetClass d ∈ ["DRAWSEGMENT"; "MGRAPHIC"; "PCB_SHAPE"]) then
    match GetShape d with
    | S_OTHER _ => True
    | S_POLYGON => GetPolyShape d = None
    | _ => False
    end
  else if bool_decide (GetClass d ∈ ["PTEXT"; "MTEXT"]) then
    IsVisible d = false
  else True.

(** A polygon of a footprint, or of the board when [parent] is [None]. *)
Definition polygon_item (parent : option ref) : BOARD_ITEM :=
  {| GetClass := "PCB_SHAPE"; GetLayer := F_SilkS;
     GetBoundingBox := blank_rect;
     GetShape := S_POLYGON; GetStart := (0, 0)%Z; GetEnd := (0, 0)%Z;
     GetWidth := 100000; GetRadius := 0;
     GetArcAngleStart := 0; GetAngle := 0;
     GetPolyShape := Some demo_poly_set; GetParentFootprint := parent;
     GetBezControl1 := (0, 0)%Z; GetBezControl2 := (0, 0)%Z;
     GetPosition := (0, 0)%Z; IsVisible := true; GetTextThickness := None;
     GetThickness := 0; TransformToSegmentList := None; GetDrawRotation := 0;
     GetTextAngle := None; GetOrientation := 0; GetTextHeight := None;
     GetTextWidth := 0; GetHeight := 0; GetShownText := None; GetText := "";
     IsMirrored := false; IsItalic := false; IsBold := false;
     GetHorizJustify := 0; GetVertJustify := 0 |}.

(** The text that [parse_text] shows. *)
Definition shown_text (d : BOARD_ITEM) : string :=
  default (GetText d) (GetShownText d).

(** The segments a polyline draws: its consecutive pairs of points. *)
Fixpoint line_segments (line : list Point) : list (Point * Point) :=
  match line with
  | a :: (b :: _) as rest => (a, b) :: line_segments rest
  | _ => []
  end.

(** A segment as stored in a polyline against the segment of the host:
    same end point, and a start point equal under the test of the loop. *)
Definition same_segment (stored actual : Point * Point) : Prop :=
  point_eqb stored.1 actual.1 = true ∧ stored.2 = actual.2.

(** The drawings that make the outline: the edge-cuts candidates for which
    [parse_drawing] returns a record. *)
Definition outline_drawings (host : Host) (self : PcbnewParser) (pcb : BOARD)
    (st : gmap ref FOOTPRINT) : list BOARD_ITEM :=
  filter (λ d, is_Some (drawing_record host st d))
    (filter (λ d, GetLayer d = Edge_Cuts) (edge_candidates self pcb st)).

(** [bbox] after the loop of [parse_edges], from the boxes merged. *)
Definition merged_box (boxes : list EDA_RECT) : option EDA_RECT :=
  match boxes with
  | [] => None
  | box :: rest => Some (foldl rect_Merge box rest)
  end.

(** The entry of [parse_drawings_on_layers] for a tagged drawing. *)
Definition layer_entry (host : Host) (st : gmap ref FOOTPRINT)
    (d : string * BOARD_ITEM) : option layer_drawing :=
  (λ drawing,
     {| ld_drawing := drawing;
        ld_ref := if decide (d.1 = "ref") then Some 1%Z else None;
        ld_val := if decide (d.1 = "val") then Some 1%Z else None |})
    <$> drawing_record host st d.2.

(** The tagged drawings that [get_all_drawings] collects for a footprint. *)
Definition footprint_tagged (obj : FOOTPRINT) : list (string * BOARD_ITEM) :=
  [("ref", fp_Reference obj); ("val", fp_Value obj)]
  ++ ((λ d, (GetClass d, d)) <$> fp_GraphicalItems obj).

(** The name [shape_lookup] of [parse_pad] gives a pad shape on a host,
    [""] when the host or the parser does not know the shape. *)
Definition pad_shape_name (host : Host) (s : pad_shape_t) : string :=
  match s with
  | PAD_SHAPE_RECT => "rect"
  | PAD_SHAPE_OVAL => "oval"
  | PAD_SHAPE_CIRCLE => "circle"
  | PAD_SHAPE_ROUNDRECT =>
      if has_PAD_SHAPE_ROUNDRECT host then "roundrect" else ""
  | PAD_SHAPE_CUSTOM => if has_PAD_SHAPE_CUSTOM host then "custom" else ""
  | PAD_SHAPE_CHAMFERED_RECT =>
      if has_PAD_SHAPE_CHAMFERED_RECT host then "chamfrect" else ""
  | PAD_SHAPE_OTHER _ => ""
  end.

(** A footprint whose pads are listed as 1, 2, 3. *)
Definition ordered_footprint : FOOTPRINT :=
  footprint_with_pads "R1" (3000000, 2000000)%Z 900
    [named_pad "1"; named_pad "2"; named_pad "3"].

Definition ordered_state : state := state_of [(1%positive, ordered_footprint)].

(** Whether [parse_tracks] lists a track under the outer copper layer [l]:
    a via when it is on the layer, any other track when [l] is its layer. *)
Definition track_on (l : layer) (t : TRACK) : bool :=
  if decide (trk_GetClass t = "VIA") then trk_IsOnLayer t l
  else bool_decide (trk_GetLayer t = l).

(** The record that [parse_tracks] builds for a track. *)
Definition track_record (self : PcbnewParser) (t : TRACK) : track_dict :=
  if decide (trk_GetClass t = "VIA") then via_record t
  else if decide (trk_GetClass t = "ARC") then arc_record self t
  else track_line (normalize (trk_GetStart t)) (normalize (trk_GetEnd t))
         (inject_Z (trk_GetWidth t) * 1e-6)%Q
         (configured_net self (trk_GetNetname t)).

(** Whether [parse_zones] looks at a zone: it is filled, and is neither a
    keepout nor a rule area. *)
Definition zone_listed (z : ZONE) : bool :=
  zone_IsFilled z
  && negb (default false (zone_GetIsKeepout z))
  && negb (default false (zone_GetIsRuleArea z)).

(** The record that [parse_zones] builds for a zone on a layer. *)
Definition zone_record (self : PcbnewParser) (z : ZONE) (l : layer)
    : zone_dict :=
  {| zd_polygons :=
       outline_points
         <$> enumerable_prefix
               (Outlines (default (zone_GetFilledPolysList z l)
                            (zone_GetFilledPolysList0 z)));
     zd_width :=
       if bool_decide (zone_GetFilledPolysUseThickness z = Some false)
       then 0%Q else (inject_Z (zone_GetMinThickness z) * 1e-6)%Q;
     zd_net := configured_net self (zone_GetNetname z) |}.

(** The records of a zone under the outer copper layer [l]: one for every
    time the layer set of the zone lists [l]. *)
Definition zone_records (self : PcbnewParser) (l : layer) (z : ZONE)
    : list zone_dict :=
  if zone_listed z
  then zone_record self z <$> filter (λ layer, layer = l) (zone_GetLayerSet z)
  else [].

(** The list [get_all_drawings] returns, from the host objects. *)
Definition all_drawings (self : PcbnewParser) (st : gmap ref FOOTPRINT)
    : list (string * BOARD_ITEM) :=
  ((λ d, (GetClass d, d)) <$> GetDrawings (board self))
  ++ (footprints self ≫= λ f, footprint_tagged (st !!! f)).

(** The entries of the tagged drawings that are on a layer. *)
Definition layer_entries (host : Host) (st : gmap ref FOOTPRINT)
    (drawings : list (string * BOARD_ITEM)) (l : layer)
    : list layer_drawing :=
  omap (layer_entry host st) (filter (λ d, GetLayer d.2 = l) drawings).

(** The schematic data that [parse] looks references up in: the data read,
    when it is not empty and extra fields are needed. *)
Definition data_used (need_extra_fields : bool)
    (extra_field_data : option (gmap string (gmap string string)))
    : option (gmap string (gmap string string)) :=
  match extra_field_data with
  | Some extra_field_data =>
      if negb (bool_decide (extra_field_data = ∅)) && need_extra_fields
      then Some extra_field_data else None
  | None => None
  end.

(** The extra fields [parse] pairs with a footprint of the given
    reference. *)
Definition extra_fields_of
    (used : option (gmap string (gmap string string))) (reference : string)
    : gmap string string :=
  match used with
  | Some extra_field_data => default ∅ (extra_field_data !! reference)
  | None => ∅
  end.

(** The warnings of [parse] for the references that the schematic data
    lacks, and whether there is one. *)
Definition missing_warnings
    (used : option (gmap string (gmap string string)))
    (references : list string) : list log_record :=
  match used with
  | Some extra_field_data =>
      (λ reference,
         {| lvl := WARN;
            fmt := "Component %s is missing from schematic data.";
            args := [arg_str reference] |})
        <$> filter (λ reference, extra_field_data !! reference = None)
              references
  | None => []
  end.

(** The record logged after the warnings for missing components. *)
Definition out_of_date_warning : log_record :=
  {| lvl := WARN; fmt := "Netlist/xml file is likely out of date.";
     args := [] |}.

(** The component [footprint_to_component] builds from a footprint. *)
Definition component_record (host : Host) (obj : FOOTPRINT)
    (fields : gmap string string) : Component :=
  {| c_ref := fp_GetReference obj; c_val := fp_GetValue obj;
     c_footprint := fp_GetFootprintName obj;
     c_layer := layer_letter (fp_GetLayer obj);
     c_attr :=
       match FP_EXCLUDE_FROM_BOM host with
       | Some flag =>
           if decide (Z.land (fp_GetAttributes obj) flag = 0%Z)
           then "Normal" else "Virtual"
       | None =>
           match MOD_VIRTUAL host with
           | Some virtual =>
               if decide (fp_GetAttributes obj = virtual)
               then "Virtual" else "Normal"
           | None => "Normal"
           end
       end;
     c_extra_fields := fields |}.

(** The ["edges_bbox"] of the board record, from the box of the outline. *)
Definition bbox_record (bbox : EDA_RECT) : edges_bbox_dict :=
  {| minx := (inject_Z (rect_pos bbox).1 * 1e-6)%Q;
     miny := (inject_Z (rect_pos bbox).2 * 1e-6)%Q;
     maxx := (inject_Z (GetRight bbox) * 1e-6)%Q;
     maxy := (inject_Z (GetBottom bbox) * 1e-6)%Q |}.

(** The ["zones"] of the board record when tracks are included. *)
Definition zones_record (self : PcbnewParser) : FB zone_dict :=
  match Zones (board self) with
  | Some board_zones =>
      {| F := board_zones ≫= zone_records self F_Cu;
         B := board_zones ≫= zone_records self B_Cu |}
  | None => {| F := []; B := [] |}
  end.

(** What [parse] puts in the board record and the components after the
    outline is found: [st] is the store at the start of the run, [used] the
    schematic data looked up, [meta] the metadata and [bbox] the box of the
    outline; [σ'] is the final state. *)
Definition assembled (host : Host) (self : PcbnewParser)
    (st : gmap ref FOOTPRINT)
    (used : option (gmap string (gmap string string)))
    (meta : metadata_dict) (bbox : EDA_RECT)
    (doc : pcbdata_dict) (comps : list Component) (σ' : state) : Prop :=
  let references := (λ f, fp_GetReference (st !!! f)) <$> footprints self in
  edges_bbox doc = bbox_record bbox
  ∧ metadata doc = meta
  ∧ F (drawings_silkscreen doc)
    = layer_entries host st (all_drawings self st) F_SilkS
  ∧ B (drawings_silkscreen doc)
    = layer_entries host st (all_drawings self st) B_SilkS
  ∧ F (drawings_fabrication doc)
    = layer_entries host st (all_drawings self st) F_Fab
  ∧ B (drawings_fabrication doc)
    = layer_entries host st (all_drawings self st) B_Fab
  ∧ zones doc
    = (if include_tracks (config self)
       then Some (zones_record self) else None)
  ∧ font_data doc = get_parsed_font host (font_strings σ')
  ∧ comps
    = (λ f, component_record host (st !!! f)
              (extra_fields_of used (fp_GetReference (st !!! f))))
      <$> footprints self
  ∧ ∃ l,
      logged σ'
      = l ++ missing_warnings used references
          ++ (if list_true (missing_warnings used references)
              then [out_of_date_warning] else []).

(** [need_extra_fields] when [parse] reads the board: extra fields are
    requested and a netlist file is configured. *)
Definition fields_needed (cfg : Config) : bool :=
  fields_requested cfg && str_true (netlist_file cfg).

(** The schematic data [parse] keeps: the second component of what
    [extra_data_func] returns. *)
Definition schematic_data (host : Host) (cfg : Config)
    : option (gmap string (gmap string string)) :=
  (λ t : ExtraData, t.2) <$> extra_data_read host cfg.

(** [pcbnew.ExpandTextVars(s, project)] where the host has it. *)
Definition expanded (pcb : BOARD) (s : string) : string :=
  match ExpandTextVars pcb with
  | Some expand => expand s
  | None => s
  end.

(** The ["metadata"] of the board record. *)
Definition document_metadata (host : Host) (self : PcbnewParser)
    : metadata_dict :=
  let title_block := GetTitleBlock (board self) in
  let title := expanded (board self) (GetTitle title_block) in
  {| md_title :=
       if str_true title then title
       else os_path_splitext0 host (os_path_basename host (file_name self));
     md_revision := expanded (board self) (GetRevision title_block);
     md_company := expanded (board self) (GetCompany title_block);
     md_date :=
       if str_true (GetDate title_block) then GetDate title_block
       else file_mtime host (file_name self) |}.

(** A host that reads schematic data with the field MPN for one reference
    only. *)
Definition schematic_host (reference : string) : Host :=
  {| has_PAD_SHAPE_ROUNDRECT := true; has_PAD_SHAPE_CUSTOM := true;
     has_PAD_SHAPE_CHAMFERED_RECT := true; has_PAD_ATTRIB_PTH := true;
     FP_EXCLUDE_FROM_BOM := Some 2%Z; MOD_VIRTUAL := None;
     SetOrientation := with_orientation; SetPosition := with_position;
     GetFootprintRect := None;
     fp_GetBoundingBox :=
       λ f, {| rect_pos := fp_GetPosition f;
               rect_size := (1000000, 1000000)%Z |};
     create_path := λ _, ""; get_parsed_font := λ strings, "";
     extra_data_func :=
       λ _ _, Some (["MPN"], {[ reference := {[ "MPN" := "RC0603" ]} ]});
     os_path_isfile := λ _, true;
     os_path_basename := λ s, s; os_path_splitext0 := λ s, s;
     file_mtime := λ _, "2020-01-01 00:00:00" |}.

(** The demo board, with the field MPN requested from a netlist file. *)
Definition schematic_config : Config :=
  {| extra_fields := ["MPN"]; board_variant_whitelist := [];
     board_variant_blacklist := []; dnp_field := "";
     netlist_file := "demo.xml";
     normalize_field_case := false; include_tracks := true;
     include_nets := false |}.

Definition schematic_parser : PcbnewParser :=
  PcbnewParser_init "demo.kicad_pcb" schematic_config demo_board.

(** The records [parse_drawing] logs when it skips a drawing. *)
Definition skip_records (d : BOARD_ITEM) : list log_record :=
  if bool_decide (GetClass d ∈ ["DRAWSEGMENT"; "MGRAPHIC"; "PCB_SHAPE"]) then
    match GetShape d with
    | S_OTHER _ =>
        [{| lvl := INFO; fmt := "Unsupported shape %s, skipping";
            args := [arg_shape (GetShape d)] |}]
    | S_POLYGON =>
        [{| lvl := INFO;
            fmt := "Polygons not supported for KiCad 4, skipping";
            args := [] |}]
    | _ => []
    end
  else if bool_decide (GetClass d ∈ ["PTEXT"; "MTEXT"]) then []
  else [{| lvl := INFO; fmt := "Unsupported drawing class %s, skipping";
           args := [arg_str (GetClass d)] |}].

(** The records [parse_drawing] logs when it returns a record: the warning
    of [parse_poly_set] for a polygon with an outline that cannot be
    enumerated, and nothing otherwise. *)
Definition record_warnings (d : BOARD_ITEM) : list log_record :=
  if bool_decide (GetClass d ∈ ["DRAWSEGMENT"; "MGRAPHIC"; "PCB_SHAPE"]) then
    match GetShape d, GetPolyShape d with
    | S_POLYGON, Some poly_shape =>
        if forallb has_PointCount (Outlines poly_shape) then []
        else [no_PointCount_warning]
    | _, _ => []
    end
  else [].

(** * The plugin *)

Section Plugin.

(** [ibom.run_with_dialog], which is outside this module. *)
Variable run_with_dialog : PcbnewParser → Config → M unit.

(** [InteractiveHtmlBomPlugin.Run]. [config] is [Config(version)], [board]
    is [pcbnew.GetBoard()] and [pcb_file_name] is [board.GetFileName()];
    the logger of the plugin writes to the log of the state. *)
Definition Run (config : Config) (board : BOARD) (pcb_file_name : string)
    : M unit :=
  if negb (str_true pcb_file_name) then
    logger_error "Please save the board file before generating BOM." []
  else
    let parser := PcbnewParser_init pcb_file_name config board in
    λ σ, match run_with_dialog parser config σ with
         | (Return _, σ') => (Return (), σ')
         | (Raise (ParsingException e), σ') => logger_error e [] σ'
         end.

End Plugin.

(** * The latest schematic data *)

(** The functions of [os.path] that [latest_extra_data] calls. *)
Record OsPath : Type := {
  os_path_dirname : string → string;
  os_path_isabs : string → bool;
  os_path_join : string → string → string;
  os_path_exists : string → bool
}.

(** The outcome of a call that can fail on [None]. *)
Inductive attr_result (A : Type) : Type :=
  | Returned (a : A)
  | AttributeError (message : string).
Arguments Returned {A} a.
Arguments AttributeError {A} message.

Section Latest_extra_data.

Variable host : Host.
Variable os_path : OsPath.

(** [kicad_extra.find_latest_schematic_data] *)
Variable find_latest_schematic_data : string → list string → option string.

(** [PcbnewParser.latest_extra_data]. [output_directory] is
    [self.board.GetPlotOptions().GetOutputDirectory()]; [extra_dirs] is
    [None] when the argument is left out. The result comes with the list
    [extra_dirs] as the call leaves it to its caller. *)
Definition latest_extra_data (self : PcbnewParser) (output_directory : string)
    (extra_dirs : option (list string))
    : attr_result (option string * list string) :=
  let base_name :=
    os_path_splitext0 host (os_path_basename host (file_name self)) in
  match extra_dirs with
  | None => AttributeError "'NoneType' object has no attribute 'append'"
  | Some extra_dirs =>
      let extra_dirs := extra_dirs ++ [output_directory] in
      let file_dir_name := os_path_dirname os_path (file_name self) in
      let directories := [file_dir_name] in
      let directories :=
        foldl (λ directories dir,
                 let dir :=
                   if negb (os_path_isabs os_path dir)
                   then os_path_join os_path file_dir_name dir else dir in
                 if os_path_exists os_path dir
                 then directories ++ [dir] else directories)
              directories extra_dirs in
      Returned (find_latest_schematic_data base_name directories, extra_dirs)
  end.

End Latest_extra_data.

(** The directory [latest_extra_data] makes of an entry of [extra_dirs]. *)
Definition resolved (os_path : OsPath) (self : PcbnewParser) (dir : string)
    : string :=
  if os_path_isabs os_path dir then dir
  else os_path_join os_path (os_path_dirname os_path (file_name self)) dir.

(** The warnings of [parse_pad] for the polygons of a custom pad. *)
Definition custom_pad_warnings (polygon_set : SHAPE_POLY_SET)
    : list log_record :=
  (if HasHoles polygon_set
   then [{| lvl := WARN; fmt := "Detected holes in custom pad polygons";
            args := [] |}]
   else [])
  ++ (if IsSelfIntersecting polygon_set
      then [{| lvl := WARN;
               fmt := "Detected self intersecting polygons in custom pad";
               args := [] |}]
      else [])
  ++ (if forallb has_PointCount (Outlines polygon_set) then []
      else [no_PointCount_warning]).

(** A custom pad whose polygon has a hole. *)
Definition holed_poly_set : SHAPE_POLY_SET :=
  {| Outlines := [enumerable_outline [(0, 0); (1000000, 0); (0, 1000000)]%Z];
     HasHoles := true; IsSelfIntersecting := false |}.

Definition custom_pad : PAD :=
  {| pad_GetPadName := "1"; pad_GetLayerSet := [F_Cu];
     pad_GetPosition := (0, 0)%Z; pad_GetSize := (0, 0)%Z;
     pad_GetOrientation := 0; pad_GetShape := PAD_SHAPE_CUSTOM;
     pad_GetCustomShapeAsPolygon := holed_poly_set;
     pad_GetRoundRectCornerRadius := 0; pad_GetChamferPositions := 0;
     pad_GetChamferRectRatio := 0; pad_GetAttribute := PAD_ATTRIB_SMD;
     pad_GetDrillShape := PAD_DRILL_SHAPE_CIRCLE; pad_GetDrillSize := (0, 0)%Z;
     pad_GetOffset := None; pad_GetNetname := "GND" |}.

(** The strings [parse_drawing] hands to the font parser for a drawing. *)
Definition font_text (d : BOARD_ITEM) : list string :=
  if bool_decide (GetClass d ∈ ["PTEXT"; "MTEXT"])
     && IsVisible d
     && negb (bool_decide (is_Some (TransformToSegmentList d)))
  then [shown_text d] else [].

(** The strings of the drawings that [parse_drawings_on_layers] parses. *)
Definition layer_texts (drawings : list (string * BOARD_ITEM))
    (f_layer b_layer : layer) : list string :=
  filter (λ d, GetLayer d.2 ∈ [f_layer; b_layer]) drawings
  ≫= λ d, font_text d.2.

(** The strings of the graphical items of a footprint that
    [parse_footprints] parses. *)
Definition footprint_texts (obj : FOOTPRINT) : list string :=
  filter (λ d, GetLayer d ∈ [F_Cu; B_Cu]) (fp_GraphicalItems obj)
  ≫= font_text.

(** The strings handed to the font parser in a run of [parse] that finds an
    outline, in the order of the run: those of the outline candidates, of
    the silkscreen and fabrication drawings, and of the footprints. *)
Definition parsed_texts (self : PcbnewParser) (st : gmap ref FOOTPRINT)
    : list string :=
  (filter (λ d, GetLayer d = Edge_Cuts) (edge_candidates self (board self) st)
   ≫= font_text)
  ++ layer_texts (all_drawings self st) F_SilkS B_SilkS
  ++ layer_texts (all_drawings self st) F_Fab B_Fab
  ++ (footprints self ≫= λ f, footprint_texts (st !!! f)).

(** The two warnings of [parse] about schematic data. *)
Definition schematic_warning (r : log_record) : Prop :=
  fmt r = "Component %s is missing from schematic data."
  ∨ fmt r = "Netlist/xml file is likely out of date.".

(** [keeps R m]: every run of [m] returns, in a state related by [R] to
    the state it starts from. *)
Definition keeps (R : state → state → Prop) {A} (m : M A) : Prop :=
  ∀ σ, returns m σ (λ _ σ', R σ σ').

(** The run logged no warning about schematic data. *)
Definition no_schematic_warning (σ σ' : state) : Prop :=
  ∃ l, logged σ' = logged σ ++ l ∧ Forall (λ r, ¬ schematic_warning r) l.

(** The run handed nothing to the font parser. *)
Definition same_font (σ σ' : state) : Prop :=
  font_strings σ' = font_strings σ.

(** A visible text, drawn with the font of the page. *)
Definition text_item (l : layer) (text : string) : BOARD_ITEM :=
  {| GetClass := "PTEXT"; GetLayer := l; GetBoundingBox := blank_rect;
     GetShape := S_SEGMENT; GetStart := (0, 0)%Z; GetEnd := (0, 0)%Z;
     GetWidth := 0; GetRadius := 0; GetArcAngleStart := 0; GetAngle := 0;
     GetPolyShape := None; GetParentFootprint := None;
     GetBezControl1 := (0, 0)%Z; GetBezControl2 := (0, 0)%Z;
     GetPosition := (0, 0)%Z; IsVisible := true; GetTextThickness := None;
     GetThickness := 150000; TransformToSegmentList := None;
     GetDrawRotation := 0; GetTextAngle := None; GetOrientation := 0;
     GetTextHeight := None; GetTextWidth := 0; GetHeight := 1000000;
     GetShownText := Some text; GetText := text;
     IsMirrored := false; IsItalic := false; IsBold := false;
     GetHorizJustify := 0; GetVertJustify := 0 |}.

(** A host whose font parser returns the strings it was given, joined. *)
Definition lettering_host : Host :=
  {| has_PAD_SHAPE_ROUNDRECT := true; has_PAD_SHAPE_CUSTOM := true;
     has_PAD_SHAPE_CHAMFERED_RECT := true; has_PAD_ATTRIB_PTH := true;
     FP_EXCLUDE_FROM_BOM := Some 2%Z; MOD_VIRTUAL := None;
     SetOrientation := with_orientation; SetPosition := with_position;
     GetFootprintRect := None;
     fp_GetBoundingBox :=
       λ f, {| rect_pos := fp_GetPosition f;
               rect_size := (1000000, 1000000)%Z |};
     create_path := λ _, ""; get_parsed_font := String.concat "|";
     extra_data_func := λ _ _, None; os_path_isfile := λ _, false;
     os_path_basename := λ s, s; os_path_splitext0 := λ s, s;
     file_mtime := λ _, "2020-01-01 00:00:00" |}.

(** A board with a text on the silkscreen and a footprint that has a
    reference on the silkscreen, a value on the fabrication layer and a
    text on copper. *)
Definition lettered_footprint : FOOTPRINT :=
  {| fp_GetReference := "R1"; fp_GetValue := "10k";
     fp_Reference := text_item F_SilkS "R1";
     fp_Value := text_item F_Fab "10k";
     fp_GetPosition := (3000000, 2000000)%Z; fp_GetOrientation := 900;
     fp_GetLayer := F_Cu; fp_GraphicalItems := [text_item F_Cu "TP1"];
     fp_Pads := [named_pad "1"];
     fp_GetFootprintName := "R_0603"; fp_GetAttributes := 0 |}.

Definition lettered_board : BOARD :=
  board_of
    [graphic Edge_Cuts S_SEGMENT (0, 0)%Z (10000000, 0)%Z 0 0;
     graphic Edge_Cuts S_SEGMENT (10000000, 0)%Z (10000000, 5000000)%Z 0 0;
     text_item F_SilkS "REV A"]
    [1%positive] [].

Definition lettered_state : state :=
  state_of [(1%positive, lettered_footprint)].

Definition lettered_parser : PcbnewParser :=
  PcbnewParser_init "demo.kicad_pcb" demo_config lettered_board.

(** * Reasoning about runs of the parser *)

Lemma returns_ret {A} (a : A) σ (Q : A → state → Prop) :
  Q a σ → returns (mret a) σ Q.
Proof. intros HQ. exists a, σ. split; [reflexivity | exact HQ]. Qed.

Lemma returns_bind {A B} (m : M A) (f : A → M B) σ (Q : B → state → Prop) :
  returns m σ (λ a σ', returns (f a) σ' Q) → returns (m ≫= f) σ Q.
Proof.
  intros (a & σ1 & Hm & b & σ2 & Hf & HQ).
  exists b, σ2. split; [| exact HQ].
  unfold mbind, M_bind. rewrite Hm. exact Hf.
Qed.

Lemma returns_mono {A} (m : M A) σ (Q Q' : A → state → Prop) :
  returns m σ Q → (∀ a σ', Q a σ' → Q' a σ') → returns m σ Q'.
Proof. intros (a & σ' & Hm & HQ) Himp. exists a, σ'. auto. Qed.

Lemma returns_run {A} (m : M A) σ (Q : A → state → Prop) r σ' :
  returns m σ Q → m σ = (r, σ') → ∃ a, r = Return a ∧ Q a σ'.
Proof.
  intros (a & σ1 & Hm & HQ) Hrun. rewrite Hm in Hrun.
  injection Hrun as <- <-. eauto.
Qed.

(** The loop rule: [Inv done acc σ] holds after the elements [done]. *)
Lemma returns_for_each_from {A B} (Inv : list A → B → state → Prop)
    (body : B → A → M B) (l done : list A) (acc : B) σ :
  Inv done acc σ →
  (∀ done' x rest acc σ, done ++ l = done' ++ x :: rest →
     Inv done' acc σ →
     returns (body acc x) σ (λ acc' σ', Inv (done' ++ [x]) acc' σ')) →
  returns (for_each l acc body) σ (λ acc' σ', Inv (done ++ l) acc' σ').
Proof.
  revert done acc σ. induction l as [| x l IH]; intros done acc σ Hinv Hbody.
  - rewrite app_nil_r. apply returns_ret. exact Hinv.
  - simpl. apply returns_bind.
    eapply returns_mono; [apply (Hbody done x l acc σ); [reflexivity | exact Hinv] |].
    intros acc' σ' Hinv'. simpl in Hinv'.
    replace (done ++ x :: l) with ((done ++ [x]) ++ l)
      by (rewrite <- app_assoc; reflexivity).
    apply IH; [exact Hinv' |].
    intros done' y rest acc0 σ0 Heq. apply (Hbody done' y rest).
    rewrite <- Heq, <- app_assoc. reflexivity.
Qed.

Lemma returns_for_each {A B} (Inv : list A → B → state → Prop)
    (body : B → A → M B) (l : list A) (acc : B) σ :
  Inv [] acc σ →
  (∀ done x rest acc σ, l = done ++ x :: rest →
     Inv done acc σ →
     returns (body acc x) σ (λ acc' σ', Inv (done ++ [x]) acc' σ')) →
  returns (for_each l acc body) σ (λ acc' σ', Inv l acc' σ').
Proof. intros H0 Hbody. apply (returns_for_each_from Inv body l []); auto. Qed.

Lemma returns_logger lv f a σ (Q : unit → state → Prop) :
  Q () {| store := store σ;
          logged := logged σ ++ [{| lvl := lv; fmt := f; args := a |}];
          font_strings := font_strings σ |} →
  returns (logger lv f a) σ Q.
Proof. intros HQ. eexists _, _. split; [reflexivity | exact HQ]. Qed.

Lemma returns_parse_font_for_string text σ (Q : unit → state → Prop) :
  Q () {| store := store σ; logged := logged σ;
          font_strings := font_strings σ ++ [text] |} →
  returns (parse_font_for_string text) σ Q.
Proof. intros HQ. eexists _, _. split; [reflexivity | exact HQ]. Qed.

Lemma returns_call {A} (r : ref) (method : FOOTPRINT → A) σ
    (Q : A → state → Prop) :
  Q (method (store σ !!! r)) σ → returns (call r method) σ Q.
Proof. intros HQ. eexists _, _. split; [reflexivity | exact HQ]. Qed.

Lemma returns_new_FOOTPRINT (f : ref) σ (Q : ref → state → Prop) :
  Q (fresh (dom (store σ)))
    {| store := <[fresh (dom (store σ)) := store σ !!! f]> (store σ);
       logged := logged σ; font_strings := font_strings σ |} →
  returns (new_FOOTPRINT f) σ Q.
Proof. intros HQ. eexists _, _. split; [reflexivity | exact HQ]. Qed.

Lemma returns_mutate (r : ref) (method : FOOTPRINT → FOOTPRINT) σ
    (Q : unit → state → Prop) :
  Q () {| store := <[r := method (store σ !!! r)]> (store σ);
          logged := logged σ; font_strings := font_strings σ |} →
  returns (mutate r method) σ Q.
Proof. intros HQ. eexists _, _. split; [reflexivity | exact HQ]. Qed.

(** ** Polygon sets *)

Lemma foldl_append_normalize (points : list IPoint) (acc : list Point) :
  foldl (λ parsed_outline point,
           parsed_outline ++ [normalize (point.1, point.2)]) acc points
  = acc ++ (normalize <$> points).
Proof.
  revert acc. induction points as [| [x y] points IH]; intros acc; simpl.
  - by rewrite app_nil_r.
  - rewrite IH, <- app_assoc. reflexivity.
Qed.

Lemma parse_poly_set_loop_spec (outlines : list OUTLINE) result σ :
  returns (parse_poly_set_loop outlines result) σ (λ r σ',
    r = result ++ (outline_points <$> enumerable_prefix outlines)
    ∧ store σ' = store σ
    ∧ font_strings σ' = font_strings σ
    ∧ logged σ' =
        logged σ ++
        (if forallb has_PointCount outlines then []
         else [no_PointCount_warning])).
Proof.
  revert result. induction outlines as [| o rest IH]; intros result; simpl.
  - apply returns_ret. by rewrite !app_nil_r.
  - destruct (has_PointCount o); simpl.
    + eapply returns_mono; [apply IH |]. simpl.
      intros r σ' (-> & ? & ? & ?). split; [| done].
      rewrite foldl_append_normalize, <- app_assoc. reflexivity.
    + apply returns_bind, returns_logger, returns_ret. simpl.
      by rewrite app_nil_r.
Qed.

Lemma parse_poly_set_spec (polygon_set : SHAPE_POLY_SET) σ :
  returns (parse_poly_set polygon_set) σ (λ r σ',
    r = outline_points <$> enumerable_prefix (Outlines polygon_set)
    ∧ store σ' = store σ
    ∧ font_strings σ' = font_strings σ
    ∧ logged σ' =
        logged σ ++
        (if forallb has_PointCount (Outlines polygon_set) then []
         else [no_PointCount_warning])).
Proof. apply parse_poly_set_loop_spec. Qed.

Lemma enumerable_prefix_all (outlines : list OUTLINE) :
  Forall (λ o, has_PointCount o = true) outlines →
  enumerable_prefix outlines = outlines
  ∧ forallb has_PointCount outlines = true.
Proof.
  induction 1 as [| o rest Ho _ [IH1 IH2]]; simpl; [done |].
  rewrite Ho, IH1, IH2. done.
Qed.

Lemma enumerable_prefix_stop (before : list OUTLINE) o after :
  Forall (λ o, has_PointCount o = true) before →
  has_PointCount o = false →
  enumerable_prefix (before ++ o :: after) = before
  ∧ forallb has_PointCount (before ++ o :: after) = false.
Proof.
  intros Hb Ho. induction Hb as [| b before Hb _ [IH1 IH2]]; simpl.
  - by rewrite Ho.
  - rewrite Hb, IH1, IH2. done.
Qed.

(** C6. A polygon set whose outlines all enumerate their points yields one
    point sequence per outline, in source order, holding the normalised
    points of that outline in their order; when an outline lacks
    [PointCount], the sequences of the outlines before it are returned,
    with a warning and without failing. *)
Theorem parse_poly_set_outlines (polygon_set : SHAPE_POLY_SET) (σ : state) :
  (Forall (λ o, has_PointCount o = true) (Outlines polygon_set) →
   ∃ σ', parse_poly_set polygon_set σ
         = (Return ((λ o, normalize <$> CPoints o) <$> Outlines polygon_set),
            σ')
         ∧ Forall2 (λ o points, length points = PointCount o)
             (Outlines polygon_set)
             ((λ o, normalize <$> CPoints o) <$> Outlines polygon_set))
  ∧ (∀ before o after,
       Outlines polygon_set = before ++ o :: after →
       Forall (λ o, has_PointCount o = true) before →
       has_PointCount o = false →
       ∃ σ', parse_poly_set polygon_set σ
             = (Return ((λ o, normalize <$> CPoints o) <$> before), σ')
             ∧ logged σ' = logged σ ++ [no_PointCount_warning]).
Proof.
  split.
  - intros Hall. destruct (enumerable_prefix_all _ Hall) as [Hpre Hfor].
    destruct (parse_poly_set_spec polygon_set σ)
      as (r & σ' & Hrun & -> & _ & _ & _).
    exists σ'. rewrite Hrun, Hpre. split; [reflexivity |].
    apply Forall2_fmap_r, Forall_Forall2_diag, Forall_forall.
    intros o _. unfold PointCount, compose. by rewrite length_fmap.
  - intros before o after Heq Hb Ho.
    destruct (enumerable_prefix_stop before o after Hb Ho) as [Hpre Hfor].
    destruct (parse_poly_set_spec polygon_set σ)
      as (r & σ' & Hrun & -> & _ & _ & Hlog).
    exists σ'. rewrite Hrun, Hlog, Heq, Hpre, Hfor. done.
Qed.

(** ** Arc angles *)

Lemma round_half_even_mono (q1 q2 : Q) :
  (q1 <= q2)%Q → (round_half_even q1 <= round_half_even q2)%Z.
Proof.
  intros Hle. unfold round_half_even.
  pose proof (Qfloor_resp_le _ _ Hle) as Hfloor.
  destruct (Z_lt_le_dec (Qfloor q1) (Qfloor q2)) as [Hlt | Hge].
  - repeat case_match; lia.
  - assert (Qfloor q1 = Qfloor q2) as Heq by lia. rewrite Heq.
    destruct (q1 - inject_Z (Qfloor q2) ?= 1 # 2)%Q eqn:H1;
      destruct (q2 - inject_Z (Qfloor q2) ?= 1 # 2)%Q eqn:H2;
      try (repeat case_match; lia).
    + apply Qeq_alt in H1. apply Qlt_alt in H2. exfalso. lra.
    + apply Qgt_alt in H1. apply Qeq_alt in H2. exfalso. lra.
    + apply Qgt_alt in H1. apply Qlt_alt in H2. exfalso. lra.
Qed.

Lemma round_half_even_Z (z : Z) : round_half_even (inject_Z z) = z.
Proof.
  unfold round_half_even. rewrite Qfloor_Z.
  destruct (inject_Z z - inject_Z z ?= 1 # 2)%Q eqn:H; [| done |].
  - apply Qeq_alt in H. exfalso. lra.
  - apply Qgt_alt in H. exfalso. lra.
Qed.

Lemma pow2_pos (e : Z) : (0 < 2 ^ e)%Q.
Proof. by apply Qpower_0_lt. Qed.

Lemma pow2_plus (a b : Z) : (2 ^ (a + b) == 2 ^ a * 2 ^ b)%Q.
Proof. by apply Qpower_plus. Qed.

Lemma pow2_le (a b : Z) : (a <= b)%Z → (2 ^ a <= 2 ^ b)%Q.
Proof. intros Hab. by apply Qpower_le_compat_l. Qed.

Lemma pow2_lt_inv (a b : Z) : (2 ^ a < 2 ^ b)%Q → (a < b)%Z.
Proof. intros Hab. by apply (Qpower_lt_compat_l_inv 2). Qed.

Lemma pow2_Z (n : Z) : (0 <= n)%Z → (inject_Z (2 ^ n) == 2 ^ n)%Q.
Proof. intros Hn. by rewrite Zpower_Qpower. Qed.

Lemma Qlog2_spec (q : Q) :
  (0 < q)%Q → (2 ^ Qlog2 q <= q)%Q ∧ (q < 2 ^ (Qlog2 q + 1))%Q.
Proof.
  intros Hq. destruct q as [n d]. unfold Qlog2. cbn [Qnum Qden].
  assert (0 < n)%Z as Hn by (unfold Qlt in Hq; simpl in Hq; lia).
  pose proof (Z.log2_spec n Hn) as [Hn1 Hn2].
  pose proof (Z.log2_spec (Z.pos d) (Pos2Z.is_pos d)) as [Hd1 Hd2].
  pose proof (Z.log2_nonneg n) as Hln.
  pose proof (Z.log2_nonneg (Z.pos d)) as Hld.
  set (ln := Z.log2 n) in *. set (ld := Z.log2 (Z.pos d)) in *.
  assert (inject_Z n == (n # d) * inject_Z (Z.pos d))%Q as Hnd.
  { unfold Qeq, Qmult, inject_Z. simpl. lia. }
  assert (0 < inject_Z (Z.pos d))%Q as Hdpos.
  { unfold Qlt, inject_Z. simpl. lia. }
  assert (2 ^ ln <= inject_Z n)%Q as Hn1'.
  { rewrite <- pow2_Z by done. by rewrite <- Zle_Qle. }
  assert (inject_Z n < 2 ^ (ln + 1))%Q as Hn2'.
  { rewrite <- pow2_Z by lia. rewrite <- Zlt_Qlt. by rewrite <- Z.add_1_r in Hn2. }
  assert (2 ^ ld <= inject_Z (Z.pos d))%Q as Hd1'.
  { rewrite <- pow2_Z by done. by rewrite <- Zle_Qle. }
  assert (inject_Z (Z.pos d) < 2 ^ (ld + 1))%Q as Hd2'.
  { rewrite <- pow2_Z by lia. rewrite <- Zlt_Qlt. by rewrite <- Z.add_1_r in Hd2. }
  destruct (Qle_bool (2 ^ (ln - ld)) (n # d)) eqn:Hk.
  - apply Qle_bool_iff in Hk. split; [done |].
    (* q * d = n < 2^(ln+1) = 2^(k+1) * 2^ld <= 2^(k+1) * d *)
    apply (Qmult_lt_r _ _ (inject_Z (Z.pos d))); [done |].
    rewrite <- Hnd.
    eapply Qlt_le_trans; [exact Hn2' |].
    replace (ln + 1)%Z with ((ln - ld + 1) + ld)%Z by lia.
    rewrite pow2_plus. apply Qmult_le_l; [apply pow2_pos | done].
  - assert (¬ (2 ^ (ln - ld) <= n # d)%Q) as Hk'.
    { rewrite <- Qle_bool_iff. congruence. }
    apply Qnot_le_lt in Hk'. split.
    + apply Qlt_le_weak.
      apply (Qmult_lt_r _ _ (inject_Z (Z.pos d))); [done |].
      rewrite <- Hnd.
      eapply Qlt_le_trans; [| exact Hn1'].
      replace ln with ((ln - ld - 1) + (ld + 1))%Z at 2 by lia.
      rewrite pow2_plus. apply Qmult_lt_l; [apply pow2_pos | done].
    + by replace (ln - ld - 1 + 1)%Z with (ln - ld)%Z by lia.
Qed.

Lemma Qlog2_mono (x y : Q) : (0 < x)%Q → (x <= y)%Q → (Qlog2 x <= Qlog2 y)%Z.
Proof.
  intros Hx Hxy.
  destruct (Qlog2_spec x Hx) as [Hx1 _].
  destruct (Qlog2_spec y) as [_ Hy2]; [lra |].
  assert (2 ^ Qlog2 x < 2 ^ (Qlog2 y + 1))%Q as Hlt by lra.
  apply pow2_lt_inv in Hlt. lia.
Qed.

Lemma nearest_nonneg (q : Q) : (0 <= q)%Q → (0 <= nearest q)%Q.
Proof.
  intros Hq. unfold nearest. apply Qmult_le_0_compat.
  - replace 0%Q with (inject_Z 0) by done. rewrite <- Zle_Qle.
    pose proof (round_half_even_mono (inject_Z 0) (q / 2 ^ ulp_exponent q))
      as Hle. rewrite round_half_even_Z in Hle. apply Hle.
    apply Qle_shift_div_l; [apply pow2_pos |].
    change (inject_Z 0) with 0%Q. by rewrite Qmult_0_l.
  - apply Qlt_le_weak, pow2_pos.
Qed.

Lemma nearest_mono (x y : Q) :
  (0 <= x)%Q → (x <= y)%Q → (nearest x <= nearest y)%Q.
Proof.
  intros Hx Hxy.
  destruct (Qle_bool x 0) eqn:Hx0.
  { (* x is zero *)
    apply Qle_bool_iff in Hx0.
    eapply Qle_trans; [| apply nearest_nonneg; lra].
    unfold nearest.
    assert (round_half_even (x / 2 ^ ulp_exponent x) = 0%Z) as ->.
    { apply Z.le_antisymm.
      - pose proof (round_half_even_mono (x / 2 ^ ulp_exponent x) (inject_Z 0))
          as Hle. rewrite round_half_even_Z in Hle. apply Hle.
        apply Qle_shift_div_r; [apply pow2_pos |].
        change (inject_Z 0) with 0%Q. by rewrite Qmult_0_l.
      - pose proof (round_half_even_mono (inject_Z 0) (x / 2 ^ ulp_exponent x))
          as Hle. rewrite round_half_even_Z in Hle. apply Hle.
        apply Qle_shift_div_l; [apply pow2_pos |].
        change (inject_Z 0) with 0%Q. by rewrite Qmult_0_l. }
    change (inject_Z 0) with 0%Q. rewrite Qmult_0_l. apply Qle_refl. }
  assert (0 < x)%Q as Hxpos.
  { apply Qnot_le_lt. rewrite <- Qle_bool_iff. congruence. }
  assert (Qle_bool y 0 = false) as Hy0.
  { apply not_true_is_false. rewrite Qle_bool_iff. lra. }
  pose proof (Qlog2_mono x y Hxpos Hxy) as Hlog.
  destruct (Qlog2_spec x Hxpos) as [Hx1 Hx2].
  destruct (Qlog2_spec y) as [Hy1 Hy2]; [lra |].
  unfold nearest, ulp_exponent. rewrite Hx0, Hy0.
  set (ex := Z.max (-1074) (Qlog2 x - 52)).
  set (ey := Z.max (-1074) (Qlog2 y - 52)).
  assert (ex <= ey)%Z as Hexy by lia.
  destruct (decide (ex = ey)) as [<- | Hne].
  - apply Qmult_le_compat_r; [| apply Qlt_le_weak, pow2_pos].
    rewrite <- Zle_Qle. apply round_half_even_mono.
    apply Qmult_le_compat_r; [done |].
    apply Qlt_le_weak, Qinv_lt_0_compat, pow2_pos.
  - assert (ey = Qlog2 y - 52)%Z as Hey by lia.
    assert (Qlog2 x - 52 <= ex)%Z as Hex by lia.
    (* nearest x <= 2^(ex+53) <= 2^(ey+52) <= nearest y *)
    apply (Qle_trans _ (2 ^ (ex + 53))).
    + rewrite pow2_plus, (Qmult_comm (2 ^ ex)).
      apply Qmult_le_compat_r; [| apply Qlt_le_weak, pow2_pos].
      rewrite <- (pow2_Z 53) by lia. rewrite <- Zle_Qle.
      pose proof (round_half_even_mono (x / 2 ^ ex) (inject_Z (2 ^ 53)))
        as Hle. rewrite round_half_even_Z in Hle. apply Hle.
      rewrite (pow2_Z 53) by lia.
      apply Qle_shift_div_r; [apply pow2_pos |].
      rewrite (Qmult_comm (2 ^ 53)), <- pow2_plus.
      apply Qlt_le_weak. eapply Qlt_le_trans; [exact Hx2 |].
      apply pow2_le. lia.
    + apply (Qle_trans _ (2 ^ (ey + 52))); [apply pow2_le; lia |].
      rewrite pow2_plus, (Qmult_comm (2 ^ ey)).
      apply Qmult_le_compat_r; [| apply Qlt_le_weak, pow2_pos].
      rewrite <- (pow2_Z 52) by lia. rewrite <- Zle_Qle.
      pose proof (round_half_even_mono (inject_Z (2 ^ 52)) (y / 2 ^ ey))
        as Hle. rewrite round_half_even_Z in Hle. apply Hle.
      rewrite (pow2_Z 52) by lia.
      apply Qle_shift_div_l; [apply pow2_pos |].
      rewrite (Qmult_comm (2 ^ 52)), <- pow2_plus.
      eapply Qle_trans; [| exact Hy1].
      apply pow2_le. lia.
Qed.

Lemma binary64_mono (x y : Q) : (x <= y)%Q → (binary64 x <= binary64 y)%Q.
Proof.
  intros Hxy. unfold binary64.
  destruct (Qle_bool 0 x) eqn:Hx; destruct (Qle_bool 0 y) eqn:Hy.
  - apply Qle_bool_iff in Hx. by apply nearest_mono.
  - apply Qle_bool_iff in Hx.
    assert (¬ (0 <= y)%Q) by (rewrite <- Qle_bool_iff; congruence). lra.
  - apply Qle_bool_iff in Hy.
    assert (¬ (0 <= x)%Q) as Hx' by (rewrite <- Qle_bool_iff; congruence).
    pose proof (nearest_nonneg (- x)) as H1.
    pose proof (nearest_nonneg y Hy) as H2. lra.
  - assert (¬ (0 <= x)%Q) as Hx' by (rewrite <- Qle_bool_iff; congruence).
    assert (¬ (0 <= y)%Q) as Hy' by (rewrite <- Qle_bool_iff; congruence).
    pose proof (nearest_mono (- y) (- x)) as H1. lra.
Qed.

Lemma round_mono (x y : Q) (ndigits : nat) :
  (x <= y)%Q → (round x ndigits <= round y ndigits)%Q.
Proof.
  intros Hle. unfold round. apply binary64_mono.
  assert (0 < inject_Z (10 ^ Z.of_nat ndigits))%Q as Hpos.
  { replace 0%Q with (inject_Z 0) by reflexivity. rewrite <- Zlt_Qlt.
    apply Z.pow_pos_nonneg; lia. }
  apply Qmult_le_compat_r.
  - rewrite <- Zle_Qle. apply round_half_even_mono.
    apply Qmult_le_compat_r; [exact Hle | lra].
  - apply Qlt_le_weak, Qinv_lt_0_compat, Hpos.
Qed.

Lemma tenth_pos : (0 < tenth)%Q.
Proof. vm_compute. reflexivity. Qed.

Lemma float_mul_tenth_mono (x y : Q) :
  (x <= y)%Q → (float_mul x tenth <= float_mul y tenth)%Q.
Proof.
  intros Hle. unfold float_mul. apply binary64_mono.
  apply Qmult_le_compat_r; [exact Hle |]. apply Qlt_le_weak, tenth_pos.
Qed.

Lemma Qltb_lt (x y : Q) : Qltb x y = true ↔ (x < y)%Q.
Proof.
  unfold Qltb. rewrite negb_true_iff. split.
  - intros H. apply Qnot_le_lt. intros Hle.
    apply Qle_bool_iff in Hle. congruence.
  - intros H. apply not_true_is_false. intros Hle.
    apply Qle_bool_iff in Hle. lra.
Qed.

Lemma spec_arc_angles_ordered (start sweep : Q) :
  (binary64 start == start)%Q →
  ((spec_arc_angles start sweep).1 <= (spec_arc_angles start sweep).2)%Q.
Proof.
  intros Hstart. unfold spec_arc_angles.
  destruct (Qltb sweep 0) eqn:Hneg; cbn [fst snd].
  - apply Qltb_lt in Hneg. apply round_mono, float_mul_tenth_mono.
    apply (Qle_trans _ (binary64 start)); [| lra].
    unfold float_add. apply binary64_mono. lra.
  - assert (¬ (sweep < 0)%Q) by (rewrite <- Qltb_lt; congruence).
    apply round_mono, float_mul_tenth_mono.
    apply (Qle_trans _ (binary64 start)); [lra |].
    unfold float_add. apply binary64_mono. lra.
Qed.

Lemma spec_arc_angles_swap (start sweep : Q) :
  ((sweep < 0)%Q →
   spec_arc_angles start sweep
   = (round (float_mul (float_add start sweep) tenth) 2,
      round (float_mul start tenth) 2))
  ∧ (¬ (sweep < 0)%Q →
     spec_arc_angles start sweep
     = (round (float_mul start tenth) 2,
        round (float_mul (float_add start sweep) tenth) 2)).
Proof.
  unfold spec_arc_angles. destruct (Qltb sweep 0) eqn:Hneg.
  - apply Qltb_lt in Hneg. split; [done | contradiction].
  - assert (¬ (sweep < 0)%Q) by (rewrite <- Qltb_lt; congruence).
    split; [contradiction | done].
Qed.

Lemma parse_shape_arc (d : BOARD_ITEM) σ :
  GetShape d = S_ARC →
  parse_shape d σ
  = (Return (Some (dict_arc "arc" (normalize (GetStart d))
                     (inject_Z (GetRadius d) * 1e-6)%Q
                     (spec_arc_angles (GetArcAngleStart d) (GetAngle d)).1
                     (spec_arc_angles (GetArcAngleStart d) (GetAngle d)).2
                     (inject_Z (GetWidth d) * 1e-6)%Q)), σ).
Proof.
  intros Hshape. unfold parse_shape, spec_arc_angles. rewrite Hshape. simpl.
  destruct (Qltb (GetAngle d) 0); reflexivity.
Qed.

(** ** Tracks: the loop of [parse_tracks], track by track *)

Lemma parse_tracks_foldl (self : PcbnewParser) :
  ∃ body,
    (∀ ts, parse_tracks self ts
           = {| F := (foldl body ([], []) ts).1;
                B := (foldl body ([], []) ts).2 |})
    ∧ ∀ t f b, body (f, b) t
               = (f ++ (body ([], []) t).1, b ++ (body ([], []) t).2).
Proof.
  eexists. split.
  - intros ts. unfold parse_tracks. reflexivity.
  - intros t f b. simpl.
    repeat (case_decide || case_bool_decide || case_match); simpl;
      rewrite ?app_nil_r; reflexivity.
Qed.

Lemma foldl_shift {A T} (body : list A * list A → T → list A * list A) :
  (∀ t f b, body (f, b) t
            = (f ++ (body ([], []) t).1, b ++ (body ([], []) t).2)) →
  ∀ ts f b, foldl body (f, b) ts
            = (f ++ (foldl body ([], []) ts).1,
               b ++ (foldl body ([], []) ts).2).
Proof.
  intros Hbody ts. induction ts as [| t ts IH]; intros f b; simpl.
  - by rewrite !app_nil_r.
  - rewrite Hbody. destruct (body ([], []) t) as [x1 x2] eqn:E. simpl.
    rewrite IH, (IH x1 x2). simpl. by rewrite !app_assoc.
Qed.

Lemma parse_tracks_cons self (t : TRACK) (ts : list TRACK) :
  F (parse_tracks self (t :: ts))
  = F (parse_tracks self [t]) ++ F (parse_tracks self ts)
  ∧ B (parse_tracks self (t :: ts))
    = B (parse_tracks self [t]) ++ B (parse_tracks self ts).
Proof.
  destruct (parse_tracks_foldl self) as (body & Hrun & Hbody).
  rewrite !Hrun. simpl.
  rewrite (surjective_pairing (body ([], []) t)).
  rewrite (foldl_shift body Hbody). simpl. done.
Qed.

Lemma parse_tracks_bind self (ts : list TRACK) :
  F (parse_tracks self ts) = ts ≫= (λ t, F (parse_tracks self [t]))
  ∧ B (parse_tracks self ts) = ts ≫= (λ t, B (parse_tracks self [t])).
Proof.
  induction ts as [| t ts [IHF IHB]].
  - done.
  - destruct (parse_tracks_cons self t ts) as [-> ->].
    rewrite IHF, IHB. done.
Qed.

Lemma parse_tracks_single_arc self (t : TRACK) :
  trk_GetClass t = "ARC" →
  parse_tracks self [t]
  = {| F := if decide (trk_GetLayer t = F_Cu) then [arc_record self t] else [];
       B := if decide (trk_GetLayer t = B_Cu) then [arc_record self t] else [] |}.
Proof.
  intros Hclass. unfold parse_tracks, arc_record, spec_arc_angles. simpl.
  rewrite Hclass. simpl.
  destruct (trk_GetLayer t) eqn:Hl; simpl;
    destruct (Qltb (trk_GetAngle t) 0); reflexivity.
Qed.

Ltac list_cases H :=
  repeat first
    [ apply elem_of_nil in H; contradiction
    | apply elem_of_app in H as [H | H]
    | apply elem_of_cons in H as [H | H] ].

Lemma parse_tracks_single_arc_inv self (t : TRACK) center a1 a2 radius width net :
  track_arc center a1 a2 radius width net
    ∈ F (parse_tracks self [t]) ++ B (parse_tracks self [t]) →
  trk_GetClass t = "ARC"
  ∧ (a1, a2) = spec_arc_angles (trk_GetArcAngleStart t) (trk_GetAngle t).
Proof.
  destruct (decide (trk_GetClass t = "ARC")) as [Hclass | Hclass].
  - rewrite parse_tracks_single_arc by done. unfold arc_record. simpl.
    intros Hin. split; [done |].
    repeat case_decide; simpl in Hin; list_cases Hin;
      injection Hin as _ -> -> _ _ _; by destruct (spec_arc_angles _ _).
  - unfold parse_tracks. simpl. intros Hin. exfalso.
    repeat (case_decide || case_bool_decide || case_match);
      simpl in Hin; list_cases Hin; congruence.
Qed.

(** C2. Every arc record, of a drawing arc and of a track arc, carries the
    angle pair of the specification's rule: the start angle and the start
    angle plus the sweep, in degrees rounded to two digits, swapped exactly
    when the sweep is negative; and its start angle is at most its end
    angle. The sum, the product with [0.1] and the rounding are those of
    binary64 floats, and the start angle that the host reports is a
    float. *)
Theorem arc_angles_normalized :
  (∀ start sweep : Q,
     let a1 := round (float_mul start tenth) 2 in
     let a2 := round (float_mul (float_add start sweep) tenth) 2 in
     (is_float start →
      ((spec_arc_angles start sweep).1 <= (spec_arc_angles start sweep).2)%Q)
     ∧ ((sweep < 0)%Q → spec_arc_angles start sweep = (a2, a1))
     ∧ (¬ (sweep < 0)%Q → spec_arc_angles start sweep = (a1, a2)))
  ∧ (∀ (d : BOARD_ITEM) σ,
       GetShape d = S_ARC →
       parse_shape d σ
       = (Return (Some (dict_arc "arc" (normalize (GetStart d))
                          (inject_Z (GetRadius d) * 1e-6)%Q
                          (spec_arc_angles (GetArcAngleStart d) (GetAngle d)).1
                          (spec_arc_angles (GetArcAngleStart d) (GetAngle d)).2
                          (inject_Z (GetWidth d) * 1e-6)%Q)), σ))
  ∧ (∀ self (tracks : list TRACK) center a1 a2 radius width net,
       track_arc center a1 a2 radius width net
         ∈ F (parse_tracks self tracks) ++ B (parse_tracks self tracks) →
       ∃ t, t ∈ tracks ∧ trk_GetClass t = "ARC"
            ∧ (a1, a2)
              = spec_arc_angles (trk_GetArcAngleStart t) (trk_GetAngle t)
            ∧ (is_float (trk_GetArcAngleStart t) → (a1 <= a2)%Q))
  ∧ (∀ self (tracks : list TRACK) t,
       t ∈ tracks → trk_GetClass t = "ARC" →
       (trk_GetLayer t = F_Cu → arc_record self t ∈ F (parse_tracks self tracks))
       ∧ (trk_GetLayer t = B_Cu →
          arc_record self t ∈ B (parse_tracks self tracks))).
Proof.
  split; [| split; [| split]].
  - intros start sweep a1 a2. split; [apply spec_arc_angles_ordered |].
    apply spec_arc_angles_swap.
  - intros d σ. apply parse_shape_arc.
  - intros self tracks center a1 a2 radius width net Hin.
    destruct (parse_tracks_bind self tracks) as [HF HB].
    assert (∃ t, t ∈ tracks
                 ∧ track_arc center a1 a2 radius width net
                     ∈ F (parse_tracks self [t]) ++ B (parse_tracks self [t]))
      as (t & Ht & Hone).
    { rewrite HF, HB in Hin. apply elem_of_app in Hin as [Hin | Hin];
        apply list_elem_of_bind in Hin as (t & Hin & Ht);
        exists t; (split; [done |]); apply elem_of_app; auto. }
    apply parse_tracks_single_arc_inv in Hone as [Hclass Hangles].
    exists t. split; [done |]. split; [done |]. split; [done |].
    intros Hstart.
    pose proof (spec_arc_angles_ordered (trk_GetArcAngleStart t)
                  (trk_GetAngle t) Hstart) as Hord.
    rewrite <- Hangles in Hord. exact Hord.
  - intros self tracks t Ht Hclass.
    destruct (parse_tracks_bind self tracks) as [-> ->].
    split; intros Hlayer; apply list_elem_of_bind; exists t;
      (split; [| done]); rewrite parse_tracks_single_arc by done; simpl;
      rewrite Hlayer; simpl; apply list_elem_of_singleton; reflexivity.
Qed.

(** ** Sorting by a string key *)

Section Sorted_by_key.

Context {A : Type} (key : A → string).

Lemma leb_false_le (s1 s2 : string) :
  String.leb s1 s2 = false → String.le s2 s1 ∧ s1 ≠ s2.
Proof.
  intros Hf. split.
  - destruct (total String.le s1 s2) as [H | H]; [| exact H].
    unfold String.le in H. rewrite Hf in H. destruct H.
  - intros ->. assert (String.le s2 s2) as H by reflexivity.
    unfold String.le in H. rewrite Hf in H. destruct H.
Qed.

Lemma insert_by_Permutation (x : A) (l : list A) :
  insert_by key x l ≡ₚ x :: l.
Proof.
  induction l as [| y l IH]; simpl; [done |].
  destruct (String.leb (key x) (key y)); [done |].
  rewrite IH. apply Permutation_swap.
Qed.

Lemma sorted_Permutation (l : list A) : sorted l key ≡ₚ l.
Proof.
  induction l as [| x l IH]; simpl; [done |].
  rewrite insert_by_Permutation. by f_equiv.
Qed.

Lemma insert_by_HdRel (x a : A) (l : list A) :
  key_le key a x → HdRel (key_le key) a l → HdRel (key_le key) a (insert_by key x l).
Proof.
  intros Hax Hal. destruct l as [| y l]; simpl.
  - by constructor.
  - destruct (String.leb (key x) (key y)); constructor; [done |].
    by inversion Hal.
Qed.

Lemma insert_by_Sorted (x : A) (l : list A) :
  Sorted (key_le key) l → Sorted (key_le key) (insert_by key x l).
Proof.
  induction 1 as [| y l Hsorted IH Hhd]; simpl.
  - by repeat constructor.
  - destruct (String.leb (key x) (key y)) eqn:Hleb.
    + constructor; [by constructor |]. constructor.
      unfold key_le, String.le. by rewrite Hleb.
    + constructor; [exact IH |].
      apply insert_by_HdRel; [| exact Hhd].
      by apply leb_false_le in Hleb as [? _].
Qed.

Lemma sorted_Sorted (l : list A) : Sorted (key_le key) (sorted l key).
Proof.
  induction l as [| x l IH]; simpl; [constructor |].
  by apply insert_by_Sorted.
Qed.

(** Stability: the elements of any one key keep their relative order. *)
Lemma insert_by_filter_key (n : string) (x : A) (l : list A) :
  filter (λ y, key y = n) (insert_by key x l)
  = filter (λ y, key y = n) (x :: l).
Proof.
  induction l as [| y l IH]; simpl; [done |].
  destruct (String.leb (key x) (key y)) eqn:Hleb; [done |].
  rewrite filter_cons, IH, !filter_cons.
  apply leb_false_le in Hleb as [_ Hne].
  repeat case_decide; congruence.
Qed.

Lemma sorted_filter_key (n : string) (l : list A) :
  filter (λ y, key y = n) (sorted l key) = filter (λ y, key y = n) l.
Proof.
  induction l as [| x l IH]; simpl; [done |].
  rewrite insert_by_filter_key, !filter_cons, IH. done.
Qed.

Lemma key_le_trans : Transitive (key_le key).
Proof. intros x y z. unfold key_le. apply transitivity. Qed.

Lemma sorted_StronglySorted (l : list A) :
  StronglySorted (key_le key) (sorted l key).
Proof.
  apply Sorted_StronglySorted; [apply key_le_trans | apply sorted_Sorted].
Qed.

End Sorted_by_key.

(** ** The net list *)

Lemma StronglySorted_le_NoDup_lt (l : list string) :
  StronglySorted String.le l → NoDup l → StronglySorted (strict String.le) l.
Proof.
  induction 1 as [| x l Hs IH Hall]; intros Hnd; [constructor |].
  apply NoDup_cons in Hnd as [Hx Hnd].
  constructor; [by apply IH |].
  rewrite Forall_forall in Hall |- *. intros y Hy.
  apply strict_spec_alt. split; [by apply Hall |].
  intros ->. done.
Qed.

(** C5. The net list is strictly increasing in the lexicographic order of
    strings, hence sorted and free of duplicates, and holds exactly the
    names of the net map. *)
Theorem parse_netlist_strictly_sorted (net_info : gmap string Z) :
  StronglySorted (strict String.le) (parse_netlist net_info)
  ∧ NoDup (parse_netlist net_info)
  ∧ ∀ name, name ∈ parse_netlist net_info ↔ is_Some (net_info !! name).
Proof.
  unfold parse_netlist. rewrite list_fmap_id.
  assert (NoDup (sorted (map_to_list net_info).*1 (λ s, s))) as Hnd.
  { rewrite sorted_Permutation. apply NoDup_fst_map_to_list. }
  split; [| split; [exact Hnd |]].
  - apply StronglySorted_le_NoDup_lt; [| exact Hnd].
    apply (sorted_StronglySorted (λ s : string, s)).
  - intros name. rewrite sorted_Permutation, <- elem_of_dom.
    rewrite list_elem_of_fmap. split.
    + intros ([k v] & -> & Hin). apply elem_of_map_to_list in Hin.
      apply elem_of_dom. eauto.
    + intros [v Hv]%elem_of_dom. exists (name, v). split; [done |].
      by apply elem_of_map_to_list.
Qed.

(** ** Pads and the pin-1 guess *)

Lemma same_store_refl σ : same_store σ σ.
Proof. by split. Qed.

Lemma same_store_store σ σ' : same_store σ σ' → store σ' = store σ.
Proof. by intros [? _]. Qed.

Lemma same_store_logged σ l fs :
  same_store σ {| store := store σ; logged := logged σ ++ l;
                  font_strings := fs |}.
Proof. split; [done | by apply prefix_app_r]. Qed.

Lemma same_store_font σ fs :
  same_store σ {| store := store σ; logged := logged σ;
                  font_strings := fs |}.
Proof. by split. Qed.

Lemma same_store_trans σ1 σ2 σ3 : same_store σ1 σ2 → same_store σ2 σ3 → same_store σ1 σ3.
Proof.
  intros [Hs1 Hl1] [Hs2 Hl2]. split; [congruence | by etrans].
Qed.

Lemma pure_ret {A} (a : A) (P : A → Prop) : P a → pure_result (mret a) P.
Proof.
  intros HP. exists a. split; [done |]. intros σ. apply returns_ret.
  split; [done | apply same_store_refl].
Qed.

Lemma pure_bind {A B} (m : M A) (f : A → M B) (P : A → Prop) (Q : B → Prop) :
  pure_result m P → (∀ a, P a → pure_result (f a) Q) →
  pure_result (m ≫= f) Q.
Proof.
  intros (a & Ha & Hm) Hf. destruct (Hf a Ha) as (b & Hb & Hfa).
  exists b. split; [done |]. intros σ. apply returns_bind.
  eapply returns_mono; [apply Hm |]. intros ? σ1 [-> Hq1].
  eapply returns_mono; [apply Hfa |]. intros ? σ2 [-> Hq2].
  split; [done | by eapply same_store_trans].
Qed.

Lemma pure_logger lv f a (P : unit → Prop) :
  P () → pure_result (logger lv f a) P.
Proof.
  intros HP. exists (). split; [done |]. intros σ. apply returns_logger.
  split; [done | apply same_store_logged].
Qed.

Lemma pure_mono {A} (m : M A) (P Q : A → Prop) :
  pure_result m P → (∀ a, P a → Q a) → pure_result m Q.
Proof. intros (a & Ha & Hm) HPQ. exists a. split; auto. Qed.

Lemma pure_parse_poly_set ps :
  pure_result (parse_poly_set ps)
    (λ r, r = outline_points <$> enumerable_prefix (Outlines ps)).
Proof.
  eexists. split; [reflexivity |]. intros σ.
  eapply returns_mono; [apply parse_poly_set_spec |].
  intros r σ' (-> & ? & _ & Hlog). split; [done |].
  split; [done |]. rewrite Hlog. by apply prefix_app_r.
Qed.

Lemma pure_value {A} (m : M (option A)) (P : option A → Prop) σ0 :
  pure_result m P →
  P (value_of (m σ0).1)
  ∧ ∀ σ, returns m σ (λ r σ', r = value_of (m σ0).1 ∧ same_store σ σ').
Proof.
  intros (a & Ha & Hm).
  destruct (Hm σ0) as (? & σ1 & Hrun & -> & _). rewrite Hrun. simpl.
  split; [done | exact Hm].
Qed.

Lemma parse_pad_pure host self (p : PAD) :
  pure_result (parse_pad host self p) (λ r, ∀ pd, r = Some pd →
    pd_pin1 pd = None
    ∧ pd_net pd = if include_nets (config self)
                  then Some (pad_GetNetname p) else None).
Proof.
  unfold parse_pad.
  match goal with
  | |- context [decide (?s = "")] => generalize s; intros shape
  end.
  destruct (decide (shape = "")) as [Hs | Hs].
  - eapply pure_bind with (P := λ _, True); [by apply pure_logger |].
    intros _ _. by apply pure_ret.
  - eapply pure_bind with (P := λ _, True).
    + destruct (decide (shape = "custom")); [| by apply pure_ret].
      eapply pure_bind with (P := λ _, True).
      { destruct (HasHoles _); by (apply pure_logger || apply pure_ret). }
      intros _ _.
      eapply pure_bind with (P := λ _, True).
      { destruct (IsSelfIntersecting _);
          by (apply pure_logger || apply pure_ret). }
      intros _ _.
      eapply pure_bind; [apply pure_parse_poly_set |].
      intros ? _. by apply pure_ret.
    + intros polygons _. apply pure_ret. intros pd [= <-]. simpl. done.
Qed.

Lemma parse_pad_spec host self (p : PAD) σ :
  returns (parse_pad host self p) σ (λ r σ',
    r = pad_record host self p ∧ same_store σ σ').
Proof. apply (pure_value _ _ empty_state (parse_pad_pure host self p)). Qed.

Lemma pad_record_Some host self (p : PAD) pd :
  pad_record host self p = Some pd →
  pd_pin1 pd = None
  ∧ pd_net pd = if include_nets (config self)
                then Some (pad_GetNetname p) else None.
Proof.
  apply (proj1 (pure_value _ _ empty_state (parse_pad_pure host self p))).
Qed.

Lemma parsed_pads_snoc host self (done : list PAD) (p : PAD) :
  parsed_pads host self (done ++ [p])
  = parsed_pads host self done
    ++ match pad_record host self p with
       | Some pad_dict => [(pad_GetPadName p, pad_dict)]
       | None => []
       end.
Proof.
  unfold parsed_pads. rewrite omap_app. simpl.
  by destruct (pad_record host self p).
Qed.

Lemma parse_pads_spec host self (f_pads : list PAD) σ :
  returns (parse_pads host self f_pads) σ (λ pads σ',
    pads = parsed_pads host self f_pads ∧ same_store σ σ').
Proof.
  unfold parse_pads.
  apply (returns_for_each
           (λ done pads σ', pads = parsed_pads host self done ∧ same_store σ σ')).
  - split; [done | apply same_store_refl].
  - intros done p rest pads σ1 _ [-> Hq]. apply returns_bind.
    eapply returns_mono; [apply parse_pad_spec |].
    intros r σ2 [-> Hq2]. rewrite parsed_pads_snoc.
    destruct (pad_record host self p); apply returns_ret;
      (split; [by rewrite ?app_nil_r | by eapply same_store_trans]).
Qed.

Lemma parsed_pads_unmarked host self (f_pads : list PAD) :
  Forall (λ p, pd_pin1 p.2 = None) (parsed_pads host self f_pads).
Proof.
  apply Forall_forall. intros [n d] Hin.
  apply list_elem_of_omap in Hin as (p & _ & Hp).
  destruct (pad_record host self p) as [pd |] eqn:Hrec; simplify_eq/=.
  by apply pad_record_Some in Hrec as [? _].
Qed.

Lemma guess_pin1_unfold (pads : list (string * pad_dict)) :
  pads ≠ [] →
  guess_pin1 pads
  = mark (selected_name (sorted pads (λ el, el.1)))
      <$> sorted pads (λ el, el.1).
Proof. destruct pads; [done |]. intros _. reflexivity. Qed.

Lemma mark_fst m (l : list (string * pad_dict)) : (mark m <$> l).*1 = l.*1.
Proof.
  induction l as [| [n d] l IH]; [done |].
  rewrite !fmap_cons, IH. simpl. by case_decide.
Qed.

Lemma count_pin1_mark m (l : list (string * pad_dict)) :
  Forall (λ p, pd_pin1 p.2 = None) l →
  count_pin1 (mark m <$> l).*2 = length (filter (λ p, p.1 = m) l).
Proof.
  unfold count_pin1. induction 1 as [| [n d] l Hd _ IH]; [done |].
  simpl in Hd. rewrite !fmap_cons, !filter_cons. simpl.
  destruct (decide (n = m)); simpl.
  - by rewrite IH.
  - rewrite Hd. simpl. exact IH.
Qed.

Lemma filter_fst_absent (m : string) (l : list (string * pad_dict)) :
  m ∉ l.*1 → filter (λ p, p.1 = m) l = [].
Proof.
  induction l as [| [n d] l IH]; [done |].
  rewrite fmap_cons, not_elem_of_cons. simpl. intros [Hne Hnot].
  rewrite filter_cons. simpl. rewrite decide_False by done. by apply IH.
Qed.

Lemma NoDup_filter_fst_length (m : string) (l : list (string * pad_dict)) :
  NoDup l.*1 → length (filter (λ p, p.1 = m) l) ≤ 1.
Proof.
  induction l as [| [n d] l IH]; [simpl; lia |].
  rewrite fmap_cons. intros [Hn Hnd]%NoDup_cons. rewrite filter_cons. simpl.
  case_decide; [| by apply IH]. subst.
  rewrite filter_fst_absent by done. simpl. lia.
Qed.

Lemma StronglySorted_filter_head {A} (R : relation A) (P : A → Prop)
    `{∀ x, Decision (P x)} (l : list A) x rest :
  StronglySorted R l → filter P l = x :: rest →
  x ∈ l ∧ P x ∧ ∀ y, y ∈ l → P y → x = y ∨ R x y.
Proof.
  induction 1 as [| a l Hs IH Hall]; [done |].
  rewrite filter_cons. case_decide as Ha.
  - intros [= -> <-]. split; [by left | split; [done |]].
    intros y [-> | Hy]%elem_of_cons _; [by left |].
    right. rewrite Forall_forall in Hall. by apply Hall.
  - intros Hf. destruct (IH Hf) as (Hx & HPx & Hmin).
    split; [by right | split; [done |]].
    intros y [-> | Hy]%elem_of_cons HPy; [done | by apply Hmin].
Qed.

Lemma selected_name_spec (pads : list (string * pad_dict)) :
  pads ≠ [] →
  let m := selected_name (sorted pads (λ el, el.1)) in
  m ∈ pads.*1
  ∧ ((∃ n, n ∈ pads.*1 ∧ preferred n) →
     preferred m ∧ ∀ n, n ∈ pads.*1 → preferred n → String.le m n)
  ∧ ((∀ n, n ∈ pads.*1 → ¬ preferred n) →
     ∀ n, n ∈ pads.*1 → String.le m n).
Proof.
  intros Hne m. subst m. unfold selected_name.
  pose proof (sorted_StronglySorted (λ el : string * pad_dict, el.1) pads)
    as Hsorted.
  pose proof (sorted_Permutation (λ el : string * pad_dict, el.1) pads)
    as Hperm.
  set (S := sorted pads (λ el, el.1)) in *.
  assert (∀ n, n ∈ pads.*1 ↔ n ∈ S.*1) as Hnames.
  { intros n. by rewrite Hperm. }
  destruct (filter (λ p, preferred p.1) S) as [| [m d] rest] eqn:Hfilter;
    simpl.
  - (* no preferred name *)
    assert (∀ n, n ∈ pads.*1 → ¬ preferred n) as Hnone.
    { intros n [[n' d'] [-> Hin]]%Hnames%list_elem_of_fmap Hpref.
      eapply (filter_nil_not_elem_of _ _ (n', d')); eauto. }
    destruct S as [| [m d] S'] eqn:HS.
    { apply Permutation_nil_l in Hperm. done. }
    simpl. split; [apply Hnames; rewrite fmap_cons; by left |].
    split; [intros (n & Hn & Hp); by destruct (Hnone n) |].
    intros _ n [-> | Hn]%Hnames%elem_of_cons; [done |].
    apply StronglySorted_inv in Hsorted as [_ Hall].
    apply list_elem_of_fmap in Hn as ([n' d'] & -> & Hin).
    rewrite Forall_forall in Hall. by apply (Hall (n', d')).
  - destruct (StronglySorted_filter_head _ _ _ _ _ Hsorted Hfilter)
      as (Hin & Hpref & Hmin).
    simpl in Hpref. split.
    { apply Hnames, list_elem_of_fmap. by exists (m, d). }
    split.
    + intros _. split; [done |].
      intros n [[n' d'] [-> Hn]]%Hnames%list_elem_of_fmap Hp.
      destruct (Hmin (n', d') Hn Hp) as [[= <- <-] | Hle]; [done | done].
    + intros Hnone. destruct (Hnone m); [| done].
      apply Hnames, list_elem_of_fmap. by exists (m, d).
Qed.


(** ** Runs that only read the host objects *)

Lemma store_pure_ret {A} (a : A) : store_pure (mret a).
Proof.
  intros st. exists a. intros σ _. apply returns_ret.
  split; [done | apply same_store_refl].
Qed.

Lemma store_pure_bind {A B} (m : M A) (f : A → M B) :
  store_pure m → (∀ a, store_pure (f a)) → store_pure (m ≫= f).
Proof.
  intros Hm Hf st. destruct (Hm st) as (a & Ha).
  destruct (Hf a st) as (b & Hb). exists b. intros σ Hσ.
  apply returns_bind. eapply returns_mono; [by apply Ha |].
  intros ? σ1 [-> H1]. eapply returns_mono;
    [apply Hb; rewrite (same_store_store _ _ H1); exact Hσ |].
  intros ? σ2 [-> H2]. split; [done |].
  exact (same_store_trans _ _ _ H1 H2).
Qed.

Lemma store_pure_for_each {A B} (l : list A) (acc : B) (body : B → A → M B) :
  (∀ acc x, store_pure (body acc x)) → store_pure (for_each l acc body).
Proof.
  intros Hbody. revert acc. induction l as [| x l IH]; intros acc; simpl.
  - apply store_pure_ret.
  - apply store_pure_bind; [apply Hbody | intros acc'; apply IH].
Qed.

Lemma store_pure_logger lv f a : store_pure (logger lv f a).
Proof.
  intros st. exists (). intros σ _. apply returns_logger.
  split; [done | apply same_store_logged].
Qed.

Lemma store_pure_font text : store_pure (parse_font_for_string text).
Proof.
  intros st. exists (). intros σ _. apply returns_parse_font_for_string.
  split; [done | apply same_store_font].
Qed.

Lemma store_pure_call {A} r (method : FOOTPRINT → A) :
  store_pure (call r method).
Proof.
  intros st. exists (method (st !!! r)). intros σ <-. apply returns_call.
  split; [done | apply same_store_refl].
Qed.

Lemma store_pure_pure {A} (m : M A) P : pure_result m P → store_pure m.
Proof. intros (a & _ & Hm) st. exists a. intros σ _. apply Hm. Qed.

(** A store-pure run has the outcome of the run from the bare state. *)
Lemma store_pure_run {A} (m : M A) σ :
  store_pure m →
  ∃ a σ', m σ = (Return a, σ') ∧ same_store σ σ'
          ∧ (m (bare (store σ))).1 = Return a.
Proof.
  intros Hm. destruct (Hm (store σ)) as (a & Ha).
  destruct (Ha σ eq_refl) as (? & σ' & Hrun & -> & Hsame).
  destruct (Ha (bare (store σ)) eq_refl) as (? & σ1 & Hrun1 & -> & _).
  exists a, σ'. rewrite Hrun1. done.
Qed.

Lemma store_pure_returns {A} (m : M A) σ :
  store_pure m → returns m σ (λ _ σ', same_store σ σ').
Proof.
  intros Hm. destruct (store_pure_run m σ Hm) as (a & σ' & Hrun & Hs & _).
  by exists a, σ'.
Qed.

Ltac store_pure_step :=
  match goal with
  | |- store_pure (mret _) => apply store_pure_ret
  | |- store_pure (_ ≫= _) => apply store_pure_bind; [| intros ?]
  | |- store_pure (for_each _ _ _) => apply store_pure_for_each; intros ? ?
  | |- store_pure (logger _ _ _) => apply store_pure_logger
  | |- store_pure (logger_info _ _) => apply store_pure_logger
  | |- store_pure (logger_warn _ _) => apply store_pure_logger
  | |- store_pure (logger_error _ _) => apply store_pure_logger
  | |- store_pure (parse_font_for_string _) => apply store_pure_font
  | |- store_pure (call _ _) => apply store_pure_call
  | |- store_pure (parse_poly_set _) =>
      apply (store_pure_pure _ _ (pure_parse_poly_set _))
  | |- store_pure (parse_pad _ _ _) =>
      apply (store_pure_pure _ _ (parse_pad_pure _ _ _))
  | |- store_pure (if ?b then _ else _) => destruct b
  | |- store_pure (match ?x with _ => _ end) => destruct x
  | |- store_pure ((match ?x with _ => _ end) _) => destruct x
  end.

Lemma store_pure_parse_shape d : store_pure (parse_shape d).
Proof. unfold parse_shape. repeat store_pure_step. Qed.

Lemma store_pure_parse_text host d : store_pure (parse_text host d).
Proof. unfold parse_text. repeat store_pure_step. Qed.

Lemma store_pure_parse_drawing host d : store_pure (parse_drawing host d).
Proof.
  unfold parse_drawing. repeat store_pure_step;
    [apply store_pure_parse_shape | apply store_pure_parse_text].
Qed.

Ltac store_pure_tac host :=
  repeat first [ store_pure_step | apply (store_pure_parse_drawing host) ].

Lemma store_pure_parse_edges host self pcb :
  store_pure (parse_edges host self pcb).
Proof. unfold parse_edges. store_pure_tac host. Qed.

Lemma store_pure_parse_drawings_on_layers host drawings f_layer b_layer :
  store_pure (parse_drawings_on_layers host drawings f_layer b_layer).
Proof. unfold parse_drawings_on_layers. store_pure_tac host. Qed.

Lemma store_pure_get_all_drawings self : store_pure (get_all_drawings self).
Proof. unfold get_all_drawings. repeat store_pure_step. Qed.

Lemma store_pure_parse_pads host self f_pads :
  store_pure (parse_pads host self f_pads).
Proof. unfold parse_pads. repeat store_pure_step. Qed.

Lemma store_pure_parse_zones self zones : store_pure (parse_zones self zones).
Proof. unfold parse_zones. repeat store_pure_step. Qed.

Lemma store_pure_footprint_to_component host f extra :
  store_pure (footprint_to_component host f extra).
Proof. unfold footprint_to_component. repeat store_pure_step. Qed.

Lemma parse_drawing_spec host (d : BOARD_ITEM) σ :
  returns (parse_drawing host d) σ (λ r σ',
    r = drawing_record host (store σ) d ∧ same_store σ σ').
Proof.
  destruct (store_pure_run _ σ (store_pure_parse_drawing host d))
    as (a & σ' & Hrun & Hsame & Hbare).
  exists a, σ'. unfold drawing_record. rewrite Hbare. done.
Qed.


(** ** The board outline *)

Lemma foldl_snoc {A} (l acc : list A) :
  foldl (λ acc x, acc ++ [x]) acc l = acc ++ l.
Proof.
  revert acc. induction l as [| x l IH]; intros acc; simpl.
  - by rewrite app_nil_r.
  - by rewrite IH, <- app_assoc.
Qed.

Lemma parse_edges_spec host self pcb σ :
  returns (parse_edges host self pcb) σ (λ r σ',
    same_store σ σ'
    ∧ r.1 = outline_records host self pcb (store σ)
    ∧ (r.2 = None ↔ r.1 = [])).
Proof.
  unfold parse_edges. apply returns_bind.
  eapply returns_mono.
  { apply (returns_for_each (λ done drawings σ',
      same_store σ σ'
      ∧ drawings = GetDrawings pcb
                   ++ (done ≫= λ f, fp_GraphicalItems (store σ !!! f)))).
    - split; [apply same_store_refl | by rewrite app_nil_r].
    - intros done f rest drawings σ1 _ [Hs ->].
      apply returns_bind, returns_call, returns_ret. split; [done |].
      rewrite foldl_snoc, (same_store_store _ _ Hs), bind_app, <- app_assoc.
      simpl.
      by rewrite app_nil_r. }
  intros drawings σ1 [Hs1 ->]. fold (edge_candidates self pcb (store σ)).
  apply returns_bind. eapply returns_mono.
  { apply (returns_for_each (λ done (acc : list drawing_dict * option EDA_RECT) σ',
      same_store σ σ'
      ∧ acc.1 = omap (drawing_record host (store σ))
                  (filter (λ d, GetLayer d = Edge_Cuts) done)
      ∧ (acc.2 = None ↔ acc.1 = []))).
    - split; [exact Hs1 | done].
    - intros done d rest [edges bbox] σ2 _ (Hs2 & Hedges & Hbbox).
      simpl in Hedges, Hbbox. rewrite filter_app, omap_app, filter_cons.
      destruct (decide (GetLayer d = Edge_Cuts)) as [Hl | Hl].
      + apply returns_bind. eapply returns_mono; [apply parse_drawing_spec |].
        intros r σ3 [-> Hs3]. rewrite (same_store_store _ _ Hs2).
        destruct (drawing_record host (store σ) d) as [parsed |] eqn:Hrec;
          apply returns_ret; simpl; rewrite Hrec, <- Hedges; simpl.
        * split; [exact (same_store_trans _ _ _ Hs2 Hs3) |].
          split; [done |].
          destruct bbox; (split; [done | by intros [_ [=]]%app_eq_nil]).
        * split; [exact (same_store_trans _ _ _ Hs2 Hs3) |].
          by rewrite app_nil_r.
      + apply returns_ret. simpl. rewrite <- Hedges, app_nil_r. done. }
  intros [edges bbox] σ2 (Hs2 & Hedges & Hbbox). apply returns_ret.
  simpl in *. split; [done |]. split; [done |].
  rewrite <- Hbbox. by destruct bbox.
Qed.


(** ** Footprints *)

Lemma extends_refl st : extends st st.
Proof. by intros l _. Qed.

Lemma preserves_extends σ0 σ : preserves σ0 σ → extends (store σ0) (store σ).
Proof. by intros [? _]. Qed.

Lemma extends_dom st0 st l : extends st0 st → l ∈ dom st0 → l ∈ dom st.
Proof.
  intros Hext Hl. apply elem_of_dom. rewrite (Hext l Hl).
  by apply elem_of_dom.
Qed.

Lemma extends_lookup_total st0 st l :
  extends st0 st → l ∈ dom st0 → st !!! l = st0 !!! l.
Proof.
  intros Hext Hl. rewrite !lookup_total_alt. by rewrite (Hext l Hl).
Qed.

Lemma extends_insert_fresh st0 st r obj :
  extends st0 st → r ∉ dom st0 → extends st0 (<[r := obj]> st).
Proof.
  intros Hext Hr l Hl. rewrite lookup_insert_ne; [by apply Hext |].
  intros ->. done.
Qed.

Lemma preserves_same_store σ0 σ σ' :
  preserves σ0 σ → same_store σ σ' → preserves σ0 σ'.
Proof.
  intros [Hext Hlog] [Hs Hl]. split; [by rewrite Hs | by etrans].
Qed.

Lemma footprint_drawings_spec host (items : list BOARD_ITEM) σ :
  returns
    (for_each items [] (λ drawings d,
       if negb (bool_decide (GetLayer d ∈ [F_Cu; B_Cu])) then mret drawings
       else
         drawing ← parse_drawing host d;
         match drawing with
         | None => mret drawings
         | Some drawing =>
             mret (drawings ++
                   [{| fd_layer :=
                         if decide (GetLayer d = F_Cu) then "F" else "B";
                       fd_drawing := drawing |}])
         end)) σ
    (λ drawings σ',
       drawings = omap (copper_drawing host (store σ)) items
       ∧ same_store σ σ').
Proof.
  apply (returns_for_each (λ done drawings σ',
    drawings = omap (copper_drawing host (store σ)) done ∧ same_store σ σ')).
  - split; [done | apply same_store_refl].
  - intros done d rest drawings σ1 _ [-> Hs1]. rewrite omap_app. simpl.
    assert (copper_drawing host (store σ) d
            = if bool_decide (GetLayer d ∈ [F_Cu; B_Cu])
              then (λ drawing,
                      {| fd_layer :=
                           if decide (GetLayer d = F_Cu) then "F" else "B";
                         fd_drawing := drawing |})
                   <$> drawing_record host (store σ) d
              else None) as -> by reflexivity.
    destruct (bool_decide (GetLayer d ∈ [F_Cu; B_Cu])); simpl.
    + apply returns_bind. eapply returns_mono; [apply parse_drawing_spec |].
      intros r σ2 [-> Hs2]. rewrite (same_store_store _ _ Hs1).
      destruct (drawing_record host (store σ) d); apply returns_ret; simpl;
        (split; [by rewrite ?app_nil_r |
                 exact (same_store_trans _ _ _ Hs1 Hs2)]).
    + apply returns_ret. by rewrite app_nil_r.
Qed.

Lemma parse_footprint_spec host self (f : ref) σ0 σ :
  preserves σ0 σ →
  returns (parse_footprint host self f) σ (λ fd σ',
    preserves σ0 σ'
    ∧ store σ'
      = <[fresh (dom (store σ)) :=
            SetPosition host (0, 0)%Z
              (SetOrientation host 0%Q (store σ !!! f))]> (store σ)
    ∧ (f ∈ dom (store σ0) →
       ∃ st, extends (store σ0) st
             ∧ fd = footprint_record host self st (store σ0 !!! f))).
Proof.
  intros Hpres. unfold parse_footprint.
  apply returns_bind, returns_call.
  apply returns_bind, returns_new_FOOTPRINT.
  apply returns_bind, returns_mutate.
  apply returns_bind, returns_mutate. simpl.
  set (r := fresh (dom (store σ))).
  assert (r ∉ dom (store σ)) as Hr by apply is_fresh.
  assert (r ∉ dom (store σ0)) as Hr0.
  { intros Hin. apply Hr. eapply extends_dom; [| exact Hin].
    by apply preserves_extends. }
  rewrite !lookup_total_insert_eq.
  set (st3 := <[r := _]> (<[r := _]> (<[r := _]> (store σ)))).
  assert (extends (store σ0) st3) as Hext3.
  { unfold st3. repeat apply extends_insert_fresh; try done.
    by apply preserves_extends. }
  apply returns_bind.
  apply (returns_mono _ _ (λ rect σ', σ' = {| store := st3; logged := logged σ;
                                             font_strings := font_strings σ |}
                                     ∧ rect = local_rect host (store σ !!! f))).
  { unfold local_rect. destruct (GetFootprintRect host);
      apply returns_call; simpl; unfold st3;
      by rewrite lookup_total_insert_eq. }
  intros footprint_rect σ3 [-> ->].
  apply returns_bind, returns_call. apply returns_bind, returns_call.
  apply returns_bind, returns_call. simpl.
  apply returns_bind. eapply returns_mono; [apply footprint_drawings_spec |].
  simpl. intros drawings σ4 [-> Hs4].
  apply returns_bind, returns_call.
  apply returns_bind. eapply returns_mono; [apply parse_pads_spec |].
  intros pads σ5 [-> Hs5].
  apply returns_bind, returns_call, returns_ret.
  destruct Hs4 as [Hs4 Hl4], Hs5 as [Hs5 Hl5]. simpl in Hs4, Hl4.
  rewrite Hs5, Hs4.
  split; [| split].
  - split; [by rewrite Hs5, Hs4 |].
    destruct Hpres as [_ Hl]. by repeat (etrans; [eassumption |]).
  - unfold st3. by rewrite !insert_insert_eq.
  - intros Hf. exists st3. split; [exact Hext3 |].
    rewrite (extends_lookup_total _ _ f Hext3 Hf).
    rewrite (extends_lookup_total _ _ f (preserves_extends _ _ Hpres) Hf).
    reflexivity.
Qed.


(** ** The whole run *)

Lemma preserves_refl σ : preserves σ σ.
Proof. split; [apply extends_refl | done]. Qed.

Lemma parse_footprints_spec host self σ0 σ :
  preserves σ0 σ →
  returns (parse_footprints host self) σ (λ fps σ',
    preserves σ0 σ'
    ∧ (Forall (λ f, f ∈ dom (store σ0)) (footprints self) →
       Forall2 (recorded host self (store σ0)) (footprints self) fps)).
Proof.
  intros Hpres. unfold parse_footprints.
  apply (returns_for_each (λ done fps σ',
    preserves σ0 σ'
    ∧ (Forall (λ f, f ∈ dom (store σ0)) done →
       Forall2 (recorded host self (store σ0)) done fps))).
  - split; [done |]. intros _. constructor.
  - intros done f rest fps σ1 _ [Hp1 Hfps]. apply returns_bind.
    eapply returns_mono; [by apply (parse_footprint_spec host self f σ0) |].
    intros fd σ2 (Hp2 & _ & Hfd). apply returns_ret. split; [done |].
    intros [Hdone Hf]%Forall_app. apply Forall2_app; [by apply Hfps |].
    constructor; [| constructor]. apply Hfd. by inversion Hf.
Qed.

Lemma assemble_spec host self need extra title revision company file_date
    found_edges bbox σ0 σ :
  preserves σ0 σ →
  returns (assemble host self need extra title revision company file_date
             found_edges bbox) σ (λ r σ',
    preserves σ0 σ'
    ∧ ∃ doc comps,
        r = (Some doc, Some comps)
        ∧ edges doc = found_edges
        ∧ tracks doc
          = (if include_tracks (config self)
             then Some (parse_tracks self (GetTracks (board self)))
             else None)
        ∧ nets doc
          = (if include_nets (config self)
             then parse_netlist <$> GetNetInfo (board self) else None)
        ∧ (Forall (λ f, f ∈ dom (store σ0)) (footprints self) →
           Forall2 (recorded host self (store σ0)) (footprints self)
             (pcb_footprints doc))).
Proof.
  intros Hpres. unfold assemble.
  apply returns_bind. eapply returns_mono;
    [apply store_pure_returns, store_pure_get_all_drawings |].
  intros drawings σ1 Hs1.
  apply returns_bind. eapply returns_mono;
    [apply store_pure_returns, store_pure_parse_drawings_on_layers |].
  intros silk σ2 Hs2.
  apply returns_bind. eapply returns_mono;
    [apply store_pure_returns, store_pure_parse_drawings_on_layers |].
  intros fab σ3 Hs3.
  assert (preserves σ0 σ3) as Hp3.
  { simpl in *. repeat (eapply preserves_same_store; [| eassumption]). done. }
  apply returns_bind. eapply returns_mono;
    [by apply (parse_footprints_spec host self σ0) |].
  intros fps σ4 [Hp4 Hfps].
  apply returns_bind. unfold get_parsed_font_now at 1.
  eexists _, _. split; [reflexivity |].
  apply returns_bind.
  apply (returns_mono _ _ (λ tz σ',
    same_store σ4 σ'
    ∧ tz.1 = if include_tracks (config self)
             then Some (parse_tracks self (GetTracks (board self)))
             else None)).
  { destruct (include_tracks (config self));
      [| apply returns_ret; split; [apply same_store_refl | done]].
    destruct (Zones (board self)).
    - apply returns_bind. eapply returns_mono;
        [apply store_pure_returns, store_pure_parse_zones |].
      intros z σ5 Hs5. by apply returns_ret.
    - apply returns_bind, returns_logger, returns_ret.
      split; [apply same_store_logged | done]. }
  intros [tracks_ zones_] σ5 [Hs5 Htracks]. simpl in Htracks.
  apply returns_bind.
  eapply returns_mono.
  { apply store_pure_returns. repeat store_pure_step. }
  intros [e warning_shown] σ6 Hs6.
  apply returns_bind. eapply returns_mono.
  { apply store_pure_returns. repeat store_pure_step. }
  intros u σ7 Hs7.
  apply returns_bind. eapply returns_mono.
  { apply store_pure_returns. repeat store_pure_step.
    apply store_pure_footprint_to_component. }
  intros comps σ8 Hs8. apply returns_ret.
  split.
  { simpl in *. repeat (eapply preserves_same_store; [| eassumption]). done. }
  eexists _, comps. split; [reflexivity |]. simpl. done.
Qed.

Lemma bind_mret {A B} (a : A) (k : A → M B) σ : (mret a ≫= k) σ = k a σ.
Proof. reflexivity. Qed.

Lemma bind_logger {B} lv f a (k : unit → M B) σ :
  (logger lv f a ≫= k) σ
  = k () {| store := store σ;
            logged := logged σ ++ [{| lvl := lv; fmt := f; args := a |}];
            font_strings := font_strings σ |}.
Proof. reflexivity. Qed.

(** The step of [parse] that looks for the outline. *)
Lemma outline_step host self σ0 σ
    (k : list drawing_dict → EDA_RECT
         → M (option pcbdata_dict * option (list Component)))
    (Q : list drawing_dict → option pcbdata_dict * option (list Component)
         → Prop) :
  preserves σ0 σ →
  (∀ found_edges bbox σ1, preserves σ0 σ1 →
     returns (k found_edges bbox) σ1 (λ r σ',
       preserves σ0 σ' ∧ Q found_edges r)) →
  returns
    ('(found_edges, bbox) ← parse_edges host self (board self);
     match bbox with
     | None =>
         _ ← logger_error
               ("Please draw pcb outline on the edges " ++
                "layer on sheet or any footprint before " ++
                "generating BOM.") [];
         mret (None, None)
     | Some bbox => k found_edges bbox
     end) σ
    (λ r σ',
       preserves σ0 σ'
       ∧ match outline_records host self (board self) (store σ) with
         | [] => r = (None, None) ∧ ∃ l, logged σ' = l ++ [outline_error]
         | _ :: _ =>
             Q (outline_records host self (board self) (store σ)) r
         end).
Proof.
  intros Hpres Hk. apply returns_bind.
  eapply returns_mono; [apply parse_edges_spec |].
  intros [found_edges bbox] σ1 (Hs1 & Hedges & Hnone). simpl in Hedges, Hnone.
  rewrite <- Hedges. destruct bbox as [bbox |].
  - destruct found_edges as [| e rest].
    { discriminate (proj2 Hnone eq_refl). }
    apply Hk. by eapply preserves_same_store.
  - rewrite (proj1 Hnone eq_refl).
    apply returns_bind, returns_logger, returns_ret. split.
    + eapply preserves_same_store; [exact Hpres |].
      eapply same_store_trans; [exact Hs1 | apply same_store_logged].
    + split; [done |]. by eexists.
Qed.

Lemma bind_assoc {A B C} (m : M A) (f : A → M B) (g : B → M C) σ :
  ((m ≫= f) ≫= g) σ = (m ≫= λ a, f a ≫= g) σ.
Proof.
  unfold mbind, M_bind. destruct (m σ) as [[a | e] σ1]; [| reflexivity].
  reflexivity.
Qed.

(** [parse] from the search for the outline on. *)
Lemma parse_tail host self need extra title revision company file_date σ :
  returns
    ('(found_edges, bbox) ← parse_edges host self (board self);
     match bbox with
     | None =>
         _ ← logger_error
               ("Please draw pcb outline on the edges " ++
                "layer on sheet or any footprint before " ++
                "generating BOM.") [];
         mret (None, None)
     | Some bbox =>
         assemble host self need extra title revision company file_date
           found_edges bbox
     end) σ
    (λ r σ',
       preserves σ σ'
       ∧ match outline_records host self (board self) (store σ) with
         | [] => r = (None, None) ∧ ∃ l, logged σ' = l ++ [outline_error]
         | _ :: _ =>
             ∃ doc comps,
               r = (Some doc, Some comps)
               ∧ edges doc = outline_records host self (board self) (store σ)
               ∧ tracks doc
                 = (if include_tracks (config self)
                    then Some (parse_tracks self (GetTracks (board self)))
                    else None)
               ∧ nets doc
                 = (if include_nets (config self)
                    then parse_netlist <$> GetNetInfo (board self) else None)
               ∧ (Forall (λ f, f ∈ dom (store σ)) (footprints self) →
                  Forall2 (recorded host self (store σ)) (footprints self)
                    (pcb_footprints doc))
         end).
Proof.
  apply (outline_step host self σ σ
           (assemble host self need extra title revision company file_date)
           (λ found_edges r, ∃ doc comps,
              r = (Some doc, Some comps)
              ∧ edges doc = found_edges
              ∧ tracks doc
                = (if include_tracks (config self)
                   then Some (parse_tracks self (GetTracks (board self)))
                   else None)
              ∧ nets doc
                = (if include_nets (config self)
                   then parse_netlist <$> GetNetInfo (board self) else None)
              ∧ (Forall (λ f, f ∈ dom (store σ)) (footprints self) →
                 Forall2 (recorded host self (store σ)) (footprints self)
                   (pcb_footprints doc)))).
  - apply preserves_refl.
  - intros found_edges bbox σ1 Hp1. by apply assemble_spec.
Qed.

Lemma parse_run host self σ :
  let cfg := config self in
  if fields_requested cfg && str_true (netlist_file cfg)
     && negb (bool_decide (is_Some (extra_data_read host cfg)))
  then
    parse host self σ
    = (Raise (ParsingException ("Failed parsing " ++ netlist_file cfg)), σ)
  else
    ∃ r σ',
      parse host self σ = (Return r, σ')
      ∧ preserves σ σ'
      ∧ (fields_requested cfg = true → str_true (netlist_file cfg) = false →
         logged σ ++ [ignoring_warning] `prefix_of` logged σ')
      ∧ match outline_records host self (board self) (store σ) with
        | [] => r = (None, None) ∧ ∃ l, logged σ' = l ++ [outline_error]
        | _ :: _ =>
            ∃ doc comps,
              r = (Some doc, Some comps)
              ∧ edges doc = outline_records host self (board self) (store σ)
              ∧ tracks doc
                = (if include_tracks cfg
                   then Some (parse_tracks self (GetTracks (board self)))
                   else None)
              ∧ nets doc
                = (if include_nets cfg
                   then parse_netlist <$> GetNetInfo (board self) else None)
              ∧ (Forall (λ f, f ∈ dom (store σ)) (footprints self) →
                 Forall2 (recorded host self (store σ)) (footprints self)
                   (pcb_footprints doc))
        end.
Proof.
  intros cfg. unfold parse. fold cfg. fold (fields_requested cfg).
  fold (extra_data_read host cfg).
  destruct (fields_requested cfg) eqn:Hreq;
    destruct (str_true (netlist_file cfg)) eqn:Hfile;
    destruct (bool_decide (is_Some (extra_data_read host cfg))) eqn:Hdata;
    simpl negb; simpl andb; cbv iota;
    rewrite ?bind_assoc, ?bind_logger, ?bind_mret; simpl andb; cbv iota;
    try reflexivity; rewrite ?bind_mret.
  all: destruct (ExpandTextVars (board self)); cbv zeta iota beta.
  all: edestruct (parse_tail host self) as (r & σ' & Hrun & Hp & Hpost);
    exists r, σ'; (split; [exact Hrun |]); simpl in Hpost.
  all: split; [| split; [| exact Hpost]].
  all: try (intros ? ?; discriminate).
  all: try exact Hp.
  all: destruct Hp as [Hext Hlog]; simpl in Hext, Hlog.
  all: first [ intros _ _; exact Hlog
             | split; [exact Hext |];
               etrans; [| exact Hlog]; by apply prefix_app_r ].
Qed.


(** ** Net names *)

Lemma parse_tracks_single_via self (t : TRACK) :
  trk_GetClass t = "VIA" →
  parse_tracks self [t]
  = {| F := if trk_IsOnLayer t F_Cu then [via_record t] else [];
       B := if trk_IsOnLayer t B_Cu then [via_record t] else [] |}.
Proof.
  intros Hclass. unfold parse_tracks, via_record. simpl.
  rewrite Hclass. simpl.
  destruct (trk_IsOnLayer t F_Cu), (trk_IsOnLayer t B_Cu); reflexivity.
Qed.

Lemma parse_tracks_single_net self (t : TRACK) td :
  td ∈ F (parse_tracks self [t]) ++ B (parse_tracks self [t]) →
  track_net td
  = if decide (trk_GetClass t = "VIA") then Some (trk_GetNetname t)
    else configured_net self (trk_GetNetname t).
Proof.
  unfold parse_tracks, configured_net. simpl. intros Hin.
  repeat (case_decide || case_bool_decide || case_match);
    simpl in Hin; list_cases Hin; subst; try done.
Qed.

Lemma parse_tracks_elem self (tracks : list TRACK) td :
  td ∈ F (parse_tracks self tracks) ++ B (parse_tracks self tracks) →
  ∃ t, t ∈ tracks
       ∧ td ∈ F (parse_tracks self [t]) ++ B (parse_tracks self [t]).
Proof.
  destruct (parse_tracks_bind self tracks) as [-> ->].
  intros [Hin | Hin]%elem_of_app;
    apply list_elem_of_bind in Hin as (t & Hin & Ht);
    exists t; (split; [done |]); apply elem_of_app; auto.
Qed.

Lemma parse_zones_nets self (zones : list ZONE) σ :
  returns (parse_zones self zones) σ (λ r σ',
    ∀ zd, zd ∈ F r ++ B r →
      ∃ zone, zone ∈ zones
              ∧ zd_net zd = configured_net self (zone_GetNetname zone)).
Proof.
  unfold parse_zones. apply returns_bind.
  set (P := λ (done : list ZONE) (zd : zone_dict),
         ∃ zone, zone ∈ done
                 ∧ zd_net zd = configured_net self (zone_GetNetname zone)).
  eapply returns_mono.
  { apply (returns_for_each (λ done (result : list zone_dict * list zone_dict) _,
      ∀ zd, zd ∈ result.1 ++ result.2 → P done zd)).
    - intros zd Hin. simpl in Hin. by apply elem_of_nil in Hin.
    - intros done zone rest result σ1 _ Hinv.
      assert (∀ zd, zd ∈ result.1 ++ result.2 → P (done ++ [zone]) zd) as Hinv'.
      { intros zd Hzd. destruct (Hinv zd Hzd) as (z & Hz & Hnet).
        exists z. split; [| done]. apply elem_of_app. by left. }
      destruct (negb (zone_IsFilled zone)
                || default false (zone_GetIsKeepout zone)
                || default false (zone_GetIsRuleArea zone)).
      { by apply returns_ret. }
      eapply returns_mono.
      { apply (returns_for_each (λ _ (result : list zone_dict * list zone_dict) _,
          ∀ zd, zd ∈ result.1 ++ result.2 → P (done ++ [zone]) zd)).
        - exact Hinv'.
        - intros _ layer _ [front back] σ2 _ Hinner. simpl in Hinner.
          apply returns_bind.
          eapply returns_mono; [apply parse_poly_set_spec |].
          intros polygons σ3 _.
          assert (P (done ++ [zone])
                    {| zd_polygons := polygons;
                       zd_width :=
                         match zone_GetFilledPolysUseThickness zone with
                         | Some false => 0%Q
                         | _ => (inject_Z (zone_GetMinThickness zone) * 1e-6)%Q
                         end;
                       zd_net := if include_nets (config self)
                                 then Some (zone_GetNetname zone)
                                 else None |}) as Hnew.
          { exists zone. split; [| done]. apply elem_of_app. right.
            by apply list_elem_of_singleton. }
          case_decide; apply returns_ret; simpl; intros zd Hzd;
            list_cases Hzd; subst; try done; apply Hinner;
            apply elem_of_app; auto. }
      auto. }
  intros [front back] σ1 Hall. apply returns_ret. exact Hall.
Qed.


(** * Runs on concrete boards *)

Lemma parse_poly_set_outlines_witness :
  Forall (λ o, has_PointCount o = true) (Outlines demo_poly_set)
  ∧ (∃ σ', parse_poly_set demo_poly_set demo_state
           = (Return ((λ o, normalize <$> CPoints o)
                        <$> Outlines demo_poly_set), σ'))
  ∧ ∃ σ', parse_poly_set legacy_poly_set demo_state
          = (Return ((λ o, normalize <$> CPoints o)
                       <$> [enumerable_outline
                              [(0, 0); (1000000, 0); (0, 1000000)]%Z]), σ')
          ∧ logged σ' = logged demo_state ++ [no_PointCount_warning].
Proof.
  assert (Forall (λ o, has_PointCount o = true) (Outlines demo_poly_set))
    as Hall by (repeat constructor).
  split; [exact Hall |]. split.
  - destruct (proj1 (parse_poly_set_outlines demo_poly_set demo_state) Hall)
      as (σ' & Hrun & _).
    exists σ'. exact Hrun.
  - apply (proj2 (parse_poly_set_outlines legacy_poly_set demo_state)
             [enumerable_outline [(0, 0); (1000000, 0); (0, 1000000)]%Z]
             (legacy_outline [(0, 0); (-1000000, 0)]%Z)
             [enumerable_outline [(5, 5)]%Z]).
    + reflexivity.
    + repeat constructor.
    + reflexivity.
Defined.

Lemma arc_angles_normalized_witness :
  GetShape (graphic F_Cu S_ARC (0, 0)%Z (0, 0)%Z (1 # 4) (- (1 # 2))) = S_ARC
  ∧ is_float (1 # 4)
  ∧ (- (1 # 2) < 0)%Q
  ∧ spec_arc_angles (1 # 4) (- (1 # 2))
    = (round (float_mul (float_add (1 # 4) (- (1 # 2))) tenth) 2,
       round (float_mul (1 # 4) tenth) 2)
  ∧ ((spec_arc_angles (1 # 4) (- (1 # 2))).1
     <= (spec_arc_angles (1 # 4) (- (1 # 2))).2)%Q
  ∧ (round (float_mul (float_add (1 # 4) (- (1 # 2))) tenth) 2
     == - binary64 0.03)%Q
  ∧ (round (float_mul (1 # 4) tenth) 2 == binary64 0.03)%Q
  ∧ arc_record demo_parser demo_arc_track
      ∈ F (parse_tracks demo_parser [demo_segment; demo_arc_track]).
Proof.
  assert (is_float (1 # 4)) as Hstart by (vm_compute; reflexivity).
  assert (- (1 # 2) < 0)%Q as Hneg by reflexivity.
  split; [reflexivity |]. split; [exact Hstart |]. split; [exact Hneg |].
  destruct (proj1 arc_angles_normalized (1 # 4)%Q (- (1 # 2))%Q)
    as (Hord & Hswap & _).
  split; [exact (Hswap Hneg) |]. split; [exact (Hord Hstart) |].
  split; [vm_compute; reflexivity |]. split; [vm_compute; reflexivity |].
  apply (proj2 (proj2 (proj2 arc_angles_normalized)) demo_parser
           [demo_segment; demo_arc_track] demo_arc_track).
  - apply elem_of_cons. right. apply elem_of_cons. by left.
  - reflexivity.
  - reflexivity.
Defined.

(** The rounding follows the float product, not the exact one: a start of
    0.25 tenths of a degree with a sweep of -0.5 gives the floats nearest to
    -0.03 and 0.03, since the float [0.25 * 0.1] lies above 0.025. *)
Example arc_angles_of_float_product :
  is_float (1 # 4)
  ∧ (0.025 < float_mul (1 # 4) tenth)%Q
  ∧ spec_arc_angles (1 # 4) (- (1 # 2))
    = (round (float_mul (float_add (1 # 4) (- (1 # 2))) tenth) 2,
       round (float_mul (1 # 4) tenth) 2)
  ∧ (round (float_mul (float_add (1 # 4) (- (1 # 2))) tenth) 2
     == - binary64 0.03)%Q
  ∧ (round (float_mul (1 # 4) tenth) 2 == binary64 0.03)%Q
  ∧ (binary64 0.03 == 1080863910568919 # 36028797018963968)%Q.
Proof.
  split; [vm_compute; reflexivity |]. split; [vm_compute; reflexivity |].
  split; [vm_compute; reflexivity |]. split; [vm_compute; reflexivity |].
  split; vm_compute; reflexivity.
Qed.

(** ** Net names in the records *)

(** C10. A via record always carries the net name of the via, whatever the
    configuration; the record of any other track, of a pad and of a zone
    carries a net name exactly when net inclusion is configured. *)
Theorem via_net_always_present (host : Host) (self : PcbnewParser) :
  (∀ (tracks : list TRACK) td,
     td ∈ F (parse_tracks self tracks) ++ B (parse_tracks self tracks) →
     ∃ t, t ∈ tracks
          ∧ td ∈ F (parse_tracks self [t]) ++ B (parse_tracks self [t])
          ∧ track_net td
            = if decide (trk_GetClass t = "VIA")
              then Some (trk_GetNetname t)
              else if include_nets (config self)
                   then Some (trk_GetNetname t) else None)
  ∧ (∀ (tracks : list TRACK) t,
       t ∈ tracks → trk_GetClass t = "VIA" →
       track_net (via_record t) = Some (trk_GetNetname t)
       ∧ (trk_IsOnLayer t F_Cu = true →
          via_record t ∈ F (parse_tracks self tracks))
       ∧ (trk_IsOnLayer t B_Cu = true →
          via_record t ∈ B (parse_tracks self tracks)))
  ∧ (∀ (p : PAD) σ,
       ∃ r σ', parse_pad host self p σ = (Return r, σ')
               ∧ ∀ pd, r = Some pd →
                   pd_net pd = if include_nets (config self)
                               then Some (pad_GetNetname p) else None)
  ∧ (∀ (zones : list ZONE) σ,
       ∃ r σ', parse_zones self zones σ = (Return r, σ')
               ∧ ∀ zd, zd ∈ F r ++ B r →
                   ∃ zone, zone ∈ zones
                           ∧ zd_net zd
                             = if include_nets (config self)
                               then Some (zone_GetNetname zone) else None).
Proof.
  split; [| split; [| split]].
  - intros tracks td Hin.
    destruct (parse_tracks_elem self tracks td Hin) as (t & Ht & Hone).
    exists t. split; [done |]. split; [done |].
    by apply parse_tracks_single_net.
  - intros tracks t Ht Hclass. split; [reflexivity |].
    destruct (parse_tracks_bind self tracks) as [-> ->].
    split; intros Hlayer; apply list_elem_of_bind; exists t;
      (split; [| done]); rewrite parse_tracks_single_via by done; simpl;
      rewrite Hlayer; by apply list_elem_of_singleton.
  - intros p σ.
    destruct (parse_pad_spec host self p σ) as (r & σ' & Hrun & -> & _).
    eexists _, σ'. split; [exact Hrun |].
    intros pd Hrec. by apply pad_record_Some in Hrec as [_ ?].
  - intros zones σ. apply parse_zones_nets.
Qed.

Lemma via_net_always_present_witness :
  demo_via ∈ [demo_segment; demo_via]
  ∧ trk_GetClass demo_via = "VIA"
  ∧ trk_IsOnLayer demo_via F_Cu = true
  ∧ include_nets (config demo_parser) = false
  ∧ via_record demo_via ∈ F (parse_tracks demo_parser [demo_segment; demo_via])
  ∧ track_net (via_record demo_via) = Some "GND".
Proof.
  assert (demo_via ∈ [demo_segment; demo_via]) as Hin.
  { apply elem_of_cons. right. apply elem_of_cons. by left. }
  destruct (proj1 (proj2 (via_net_always_present demo_host demo_parser))
              [demo_segment; demo_via] demo_via Hin eq_refl)
    as (Hnet & HF & _).
  split; [exact Hin |]. split; [reflexivity |]. split; [reflexivity |].
  split; [reflexivity |]. split; [exact (HF eq_refl) | exact Hnet].
Defined.

(** ** The pin-1 flag *)

Lemma parse_footprint_record host self (f : ref) σ :
  f ∈ dom (store σ) →
  ∃ fd σ' st,
    parse_footprint host self f σ = (Return fd, σ')
    ∧ preserves σ σ'
    ∧ store σ'
      = <[fresh (dom (store σ)) :=
            SetPosition host (0, 0)%Z
              (SetOrientation host 0%Q (store σ !!! f))]> (store σ)
    ∧ extends (store σ) st
    ∧ fd = footprint_record host self st (store σ !!! f).
Proof.
  intros Hf.
  destruct (parse_footprint_spec host self f σ σ (preserves_refl σ))
    as (fd & σ' & Hrun & Hp & Hstore & Hrec).
  destruct (Hrec Hf) as (st & Hext & ->). by eexists _, σ', st.
Qed.

Lemma unset_set_pin1 (d : pad_dict) :
  pd_pin1 d = None → unset_pin1 (set_pin1 d) = d.
Proof. destruct d. simpl. by intros ->. Qed.

Lemma unset_pin1_unmarked (d : pad_dict) :
  pd_pin1 d = None → unset_pin1 d = d.
Proof. destruct d. simpl. by intros ->. Qed.

Lemma unset_pin1_mark m (l : list (string * pad_dict)) :
  Forall (λ p, pd_pin1 p.2 = None) l →
  unset_pin1 <$> (mark m <$> l).*2 = l.*2.
Proof.
  induction 1 as [| [n d] l Hd _ IH]; [done |].
  rewrite !fmap_cons, IH. simpl in *. f_equal.
  case_decide; simpl; [by apply unset_set_pin1 | by apply unset_pin1_unmarked].
Qed.

Lemma mark_pin1_iff m (l : list (string * pad_dict)) n d :
  Forall (λ p, pd_pin1 p.2 = None) l →
  (n, d) ∈ mark m <$> l → (pd_pin1 d = Some 1%Z ↔ n = m).
Proof.
  intros Hall [[n' d'] [Heq Hin]]%list_elem_of_fmap.
  rewrite Forall_forall in Hall. specialize (Hall _ Hin). simpl in *.
  case_decide; simplify_eq; [done |]. rewrite Hall. done.
Qed.

Lemma sorted_unmarked (l : list (string * pad_dict)) :
  Forall (λ p, pd_pin1 p.2 = None) l →
  Forall (λ p, pd_pin1 p.2 = None) (sorted l (λ el, el.1)).
Proof. intros Hall. by rewrite sorted_Permutation. Qed.

Lemma filter_fst_present (m : string) (l : list (string * pad_dict)) :
  m ∈ l.*1 → 1 ≤ length (filter (λ p, p.1 = m) l).
Proof.
  intros [[n d] [-> Hin]]%list_elem_of_fmap.
  assert ((n, d) ∈ filter (λ p : string * pad_dict, p.1 = n) l) as Hf.
  { by apply list_elem_of_filter. }
  destruct (filter _ l); [by apply elem_of_nil in Hf | simpl; lia].
Qed.

(** The flagged pads are those that share the selected designator. *)
Lemma count_pin1_assembled host self (f_pads : list PAD) :
  let pads := parsed_pads host self f_pads in
  count_pin1 (assembled_pads host self f_pads)
  = match pads with
    | [] => 0
    | _ :: _ =>
        length (filter (λ p, p.1 = selected_name (sorted pads (λ el, el.1)))
                  pads)
    end.
Proof.
  intros pads. unfold assembled_pads. fold pads.
  destruct pads as [| p pads'] eqn:Hpads; [reflexivity |].
  rewrite guess_pin1_unfold by done.
  rewrite count_pin1_mark.
  - apply (f_equal length). apply (sorted_filter_key (λ el : string * pad_dict, el.1)).
  - apply sorted_unmarked. rewrite <- Hpads. apply parsed_pads_unmarked.
Qed.

(** C3, as amended. The number of flagged pads of a footprint is the
    number of parsed pads that bear the selected designator: none when no
    pad is parsed, at least one otherwise, so the count is 0 or 1 exactly
    when no pad is parsed or a single pad bears the selected designator, as
    is the case when the designators are pairwise distinct. Every pad that
    bears the selected designator is flagged, and no other pad is. *)
Theorem pin1_count_selected_designator (host : Host) (self : PcbnewParser)
    (f : ref) (σ : state) :
  f ∈ dom (store σ) →
  let pads := parsed_pads host self (fp_Pads (store σ !!! f)) in
  let sorted_pads := sorted pads (λ el, el.1) in
  let m := selected_name sorted_pads in
  let bearers := filter (λ p, p.1 = m) pads in
  ∃ fd σ',
    parse_footprint host self f σ = (Return fd, σ')
    ∧ count_pin1 (fpd_pads fd)
      = match pads with
        | [] => 0
        | _ :: _ => length bearers
        end
    ∧ (pads ≠ [] → 1 ≤ length bearers)
    ∧ (count_pin1 (fpd_pads fd) = 0 ∨ count_pin1 (fpd_pads fd) = 1
       ↔ pads = [] ∨ length bearers = 1)
    ∧ (NoDup pads.*1 → length bearers ≤ 1)
    ∧ (pads ≠ [] →
       fpd_pads fd = (mark m <$> sorted_pads).*2
       ∧ ∀ n d, (n, d) ∈ mark m <$> sorted_pads →
                (pd_pin1 d = Some 1%Z ↔ n = m)).
Proof.
  intros Hf pads sorted_pads m bearers.
  destruct (parse_footprint_record host self f σ Hf)
    as (fd & σ' & st & Hrun & _ & _ & _ & ->).
  eexists _, σ'. split; [exact Hrun |]. simpl.
  rewrite count_pin1_assembled. fold pads sorted_pads m bearers.
  assert (pads ≠ [] → 1 ≤ length bearers) as Hge.
  { intros Hne. apply filter_fst_present.
    by destruct (selected_name_spec pads Hne) as (Hin & _). }
  split; [done |]. split; [exact Hge |].
  split.
  { destruct pads as [| p pads'] eqn:Hpads.
    - split; [by left | by left].
    - specialize (Hge ltac:(done)). split.
      + intros [H0 | H1]; [lia | by right].
      + intros [[=] | H1]. by right. }
  split; [apply NoDup_filter_fst_length |].
  intros Hne. split.
  - unfold assembled_pads. fold pads. by rewrite guess_pin1_unfold.
  - intros n d. apply mark_pin1_iff, sorted_unmarked, parsed_pads_unmarked.
Qed.

Lemma pin1_count_selected_designator_witness :
  1%positive ∈ dom (store repeated_state)
  ∧ (parsed_pads demo_host demo_parser
       (fp_Pads (store repeated_state !!! 1%positive))).*1
    = ["1"; "2"; "2"]
  ∧ ∃ fd σ',
      parse_footprint demo_host demo_parser 1%positive repeated_state
      = (Return fd, σ')
      ∧ count_pin1 (fpd_pads fd) = 1.
Proof.
  assert (1%positive ∈ dom (store repeated_state)) as Hf
    by (vm_compute; done).
  split; [exact Hf |]. split; [vm_compute; reflexivity |].
  destruct (pin1_count_selected_designator demo_host demo_parser 1%positive
              repeated_state Hf) as (fd & σ' & Hrun & Hcount & _).
  exists fd, σ'. split; [exact Hrun |].
  rewrite Hcount. vm_compute. reflexivity.
Defined.

Lemma pin1_count_counterexample :
  ∃ fd σ',
    parse_footprint demo_host demo_parser 1%positive twin_state
    = (Return fd, σ')
    ∧ count_pin1 (fpd_pads fd) = 2
    ∧ ¬ (count_pin1 (fpd_pads fd) = 0 ∨ count_pin1 (fpd_pads fd) = 1).
Proof.
  eexists _, _. split; [vm_compute; reflexivity |].
  split; [reflexivity |]. vm_compute. intros [H | H]; discriminate.
Qed.

(** C4. For a footprint with at least one parsed pad, the pads are sorted
    by designator and the pads flagged pin1 are those named [m], where [m]
    is the least of the designators that are common first pin names if
    there is one, and the least designator overall otherwise. *)
Theorem pin1_selection (host : Host) (self : PcbnewParser) (f : ref)
    (σ : state) :
  f ∈ dom (store σ) →
  parsed_pads host self (fp_Pads (store σ !!! f)) ≠ [] →
  let pads := parsed_pads host self (fp_Pads (store σ !!! f)) in
  let sorted_pads := sorted pads (λ el, el.1) in
  ∃ fd σ' m,
    parse_footprint host self f σ = (Return fd, σ')
    ∧ Sorted String.le sorted_pads.*1
    ∧ sorted_pads ≡ₚ pads
    ∧ fpd_pads fd = (mark m <$> sorted_pads).*2
    ∧ (∀ n d, (n, d) ∈ mark m <$> sorted_pads →
              (pd_pin1 d = Some 1%Z ↔ n = m))
    ∧ m ∈ pads.*1
    ∧ ((∃ n, n ∈ pads.*1 ∧ n ∈ ["1"; "A"; "A1"; "P1"; "PAD1"]) →
       m ∈ ["1"; "A"; "A1"; "P1"; "PAD1"]
       ∧ ∀ n, n ∈ pads.*1 → n ∈ ["1"; "A"; "A1"; "P1"; "PAD1"] →
              String.le m n)
    ∧ ((∀ n, n ∈ pads.*1 → n ∉ ["1"; "A"; "A1"; "P1"; "PAD1"]) →
       ∀ n, n ∈ pads.*1 → String.le m n).
Proof.
  intros Hf Hne pads sorted_pads.
  destruct (parse_footprint_record host self f σ Hf)
    as (fd & σ' & st & Hrun & _ & _ & _ & ->).
  eexists _, σ', (selected_name sorted_pads).
  split; [exact Hrun |].
  split.
  { apply Sorted_fmap with (R1 := key_le (λ el : string * pad_dict, el.1));
      [by intros ? ? | apply sorted_Sorted]. }
  split; [apply sorted_Permutation |].
  split.
  { simpl. unfold assembled_pads. by rewrite guess_pin1_unfold. }
  split.
  { intros n d. apply mark_pin1_iff, sorted_unmarked, parsed_pads_unmarked. }
  apply (selected_name_spec pads Hne).
Qed.

Lemma pin1_selection_witness :
  1%positive ∈ dom (store demo_state)
  ∧ parsed_pads demo_host demo_parser
      (fp_Pads (store demo_state !!! 1%positive)) ≠ []
  ∧ ∃ fd σ' m,
      parse_footprint demo_host demo_parser 1%positive demo_state
      = (Return fd, σ')
      ∧ m ∈ (parsed_pads demo_host demo_parser
               (fp_Pads (store demo_state !!! 1%positive))).*1
      ∧ fpd_pads fd
        = (mark m <$> sorted (parsed_pads demo_host demo_parser
                                (fp_Pads (store demo_state !!! 1%positive)))
                        (λ el, el.1)).*2.
Proof.
  assert (1%positive ∈ dom (store demo_state)) as Hf by (vm_compute; done).
  assert (parsed_pads demo_host demo_parser
            (fp_Pads (store demo_state !!! 1%positive)) ≠ []) as Hne.
  { vm_compute. discriminate. }
  split; [exact Hf |]. split; [exact Hne |].
  destruct (pin1_selection demo_host demo_parser 1%positive demo_state Hf Hne)
    as (fd & σ' & m & Hrun & _ & _ & Hpads & _ & Hm & _).
  exists fd, σ', m. split; [exact Hrun |]. split; [exact Hm | exact Hpads].
Defined.

(** Scenarios 2 and 3 of the specification. *)
Example pin1_of_2_1_3 :
  let pads :=
    guess_pin1 (parsed_pads demo_host demo_parser
                  [named_pad "2"; named_pad "1"; named_pad "3"]) in
  pads.*1 = ["1"; "2"; "3"]
  ∧ pd_pin1 <$> pads.*2 = [Some 1%Z; None; None].
Proof. split; reflexivity. Qed.

Example pin1_of_B2_B1 :
  let pads :=
    guess_pin1 (parsed_pads demo_host demo_parser
                  [named_pad "B2"; named_pad "B1"]) in
  pads.*1 = ["B1"; "B2"] ∧ pd_pin1 <$> pads.*2 = [Some 1%Z; None].
Proof. split; reflexivity. Qed.

(** ** The order of the output *)

Lemma unset_pin1_assembled host self (f_pads : list PAD) :
  unset_pin1 <$> assembled_pads host self f_pads
  = (sorted (parsed_pads host self f_pads) (λ el, el.1)).*2.
Proof.
  unfold assembled_pads.
  destruct (parsed_pads host self f_pads) as [| p pads'] eqn:Hpads;
    [reflexivity |].
  rewrite guess_pin1_unfold by done.
  apply unset_pin1_mark, sorted_unmarked.
  rewrite <- Hpads. apply parsed_pads_unmarked.
Qed.

(** [parse] returns a board record only through its last line. *)
Lemma parse_document host self σ doc comps σ' :
  parse host self σ = (Return (Some doc, Some comps), σ') →
  tracks doc
  = (if include_tracks (config self)
     then Some (parse_tracks self (GetTracks (board self))) else None)
  ∧ nets doc
    = (if include_nets (config self)
       then parse_netlist <$> GetNetInfo (board self) else None)
  ∧ (Forall (λ f, f ∈ dom (store σ)) (footprints self) →
     Forall2 (recorded host self (store σ)) (footprints self)
       (pcb_footprints doc)).
Proof.
  intros Hrun. pose proof (parse_run host self σ) as H. simpl in H.
  destruct (_ && _ && _) in H; [congruence |].
  destruct H as (r & σ1 & Hrun1 & _ & _ & Hpost).
  rewrite Hrun in Hrun1. injection Hrun1 as <- <-.
  destruct (outline_records _ _ _ _).
  - by destruct Hpost as [[=] _].
  - destruct Hpost as (doc1 & comps1 & [= <- <-] & _ & Ht & Hn & Hfps).
    done.
Qed.

(** [parse] returns a board record when the board has an outline and the
    requested field data, if any, can be read. *)
Lemma parse_returns_document host self σ :
  outline_records host self (board self) (store σ) ≠ [] →
  (fields_requested (config self) = true →
   netlist_file (config self) ≠ "" →
   is_Some (extra_data_read host (config self))) →
  ∃ doc comps σ', parse host self σ = (Return (Some doc, Some comps), σ').
Proof.
  intros Houtline Hdata.
  pose proof (parse_run host self σ) as H. simpl in H.
  destruct (fields_requested (config self)
            && str_true (netlist_file (config self))
            && negb (bool_decide (is_Some (extra_data_read host (config self)))))
    eqn:Hfail.
  - apply andb_true_iff in Hfail as [[Hreq Hfile]%andb_true_iff Hnone].
    apply negb_true_iff, bool_decide_eq_false in Hnone.
    destruct Hnone. apply Hdata; [done |].
    unfold str_true in Hfile. apply negb_true_iff in Hfile.
    by apply bool_decide_eq_false in Hfile.
  - destruct H as (r & σ' & Hrun & _ & _ & Hpost).
    destruct (outline_records _ _ _ _); [done |].
    destruct Hpost as (doc & comps & -> & _). by exists doc, comps, σ'.
Qed.

(** C8, as amended. For a board with an outline whose requested field
    data, if any, can be read, [parse] returns a board record in which
    footprints follow the order of the board's footprint list, the drawings
    of a footprint follow the order of its graphical items and the tracks of
    each side follow the order of the board's track list; the pads of a
    footprint are its parsed pads sorted by designator, pads of one
    designator keeping the order of the footprint's pad list. *)
Theorem output_order (host : Host) (self : PcbnewParser) (σ : state) :
  Forall (λ f, f ∈ dom (store σ)) (footprints self) →
  outline_records host self (board self) (store σ) ≠ [] →
  (fields_requested (config self) = true →
   netlist_file (config self) ≠ "" →
   is_Some (extra_data_read host (config self))) →
  ∃ doc comps σ',
    parse host self σ = (Return (Some doc, Some comps), σ')
    ∧ Forall2
        (λ f fd,
           let obj := store σ !!! f in
           let pads := parsed_pads host self (fp_Pads obj) in
           fpd_ref fd = fp_GetReference obj
           ∧ unset_pin1 <$> fpd_pads fd = (sorted pads (λ el, el.1)).*2
           ∧ Sorted String.le (sorted pads (λ el, el.1)).*1
           ∧ (∀ n, filter (λ p, p.1 = n) (sorted pads (λ el, el.1))
                   = filter (λ p, p.1 = n) pads)
           ∧ ∃ st, extends (store σ) st
                   ∧ fpd_drawings fd
                     = omap (copper_drawing host st) (fp_GraphicalItems obj))
        (footprints self) (pcb_footprints doc)
    ∧ (include_tracks (config self) = true →
       ∃ trk, tracks doc = Some trk
              ∧ F trk = GetTracks (board self)
                        ≫= (λ t, F (parse_tracks self [t]))
              ∧ B trk = GetTracks (board self)
                        ≫= (λ t, B (parse_tracks self [t]))).
Proof.
  intros Hfps Houtline Hdata.
  destruct (parse_returns_document host self σ Houtline Hdata)
    as (doc & comps & σ' & Hrun).
  exists doc, comps, σ'. split; [exact Hrun |].
  destruct (parse_document host self σ doc comps σ' Hrun)
    as (Htracks & _ & Hrec).
  split.
  - eapply Forall2_impl; [exact (Hrec Hfps) |].
    intros f fd (st & Hext & ->). simpl.
    split; [reflexivity |].
    split; [apply unset_pin1_assembled |].
    split.
    { apply Sorted_fmap with (R1 := key_le (λ el : string * pad_dict, el.1));
        [by intros ? ? | apply sorted_Sorted]. }
    split.
    { intros n.
      apply (sorted_filter_key (λ el : string * pad_dict, el.1)). }
    by exists st.
  - intros Hinc. rewrite Hinc in Htracks. eexists. split; [exact Htracks |].
    apply parse_tracks_bind.
Qed.

Lemma output_order_witness :
  Forall (λ f, f ∈ dom (store demo_state)) (footprints demo_parser)
  ∧ outline_records demo_host demo_parser (board demo_parser)
      (store demo_state) ≠ []
  ∧ fields_requested (config demo_parser) = false
  ∧ ∃ doc comps σ',
      parse demo_host demo_parser demo_state
      = (Return (Some doc, Some comps), σ')
      ∧ Forall2
          (λ f fd,
             fpd_ref fd = fp_GetReference (store demo_state !!! f)
             ∧ unset_pin1 <$> fpd_pads fd
               = (sorted (parsed_pads demo_host demo_parser
                            (fp_Pads (store demo_state !!! f)))
                    (λ el, el.1)).*2)
          (footprints demo_parser) (pcb_footprints doc).
Proof.
  assert (Forall (λ f, f ∈ dom (store demo_state)) (footprints demo_parser))
    as Hfps.
  { constructor; [vm_compute; done | constructor]. }
  assert (outline_records demo_host demo_parser (board demo_parser)
            (store demo_state) ≠ []) as Houtline.
  { vm_compute. discriminate. }
  assert (fields_requested (config demo_parser) = true →
          netlist_file (config demo_parser) ≠ "" →
          is_Some (extra_data_read demo_host (config demo_parser))) as Hdata.
  { intros Hreq. vm_compute in Hreq. discriminate. }
  split; [exact Hfps |]. split; [exact Houtline |]. split; [reflexivity |].
  destruct (output_order demo_host demo_parser demo_state Hfps Houtline Hdata)
    as (doc & comps & σ' & Hrun & Hall & _).
  exists doc, comps, σ'. split; [exact Hrun |].
  eapply Forall2_impl; [exact Hall |].
  intros f fd (Href & Hpads & _). by split.
Defined.

Lemma pad_order_counterexample :
  ∃ fd σ',
    parse_footprint demo_host demo_parser 1%positive swapped_state
    = (Return fd, σ')
    ∧ pad_GetPosition <$> fp_Pads swapped_footprint
      = [(2000000, 0)%Z; (1000000, 0)%Z]
    ∧ pd_pos <$> fpd_pads fd
      = [normalize (1000000, 0)%Z; normalize (2000000, 0)%Z]
    ∧ pd_pos <$> fpd_pads fd
      ≠ normalize <$> (pad_GetPosition <$> fp_Pads swapped_footprint).
Proof.
  eexists _, _. split; [vm_compute; reflexivity |].
  split; [reflexivity |]. split; [reflexivity |].
  vm_compute. discriminate.
Qed.

(** ** The source board *)

Lemma parse_preserves host self σ r σ' :
  parse host self σ = (r, σ') → preserves σ σ'.
Proof.
  intros Hrun. pose proof (parse_run host self σ) as H. simpl in H.
  destruct (_ && _ && _) in H.
  - rewrite Hrun in H. injection H as _ <-. apply preserves_refl.
  - destruct H as (r1 & σ1 & Hrun1 & Hp & _).
    rewrite Hrun in Hrun1. by injection Hrun1 as _ <-.
Qed.

(** C9. A run of [parse], whatever its outcome, leaves every footprint
    object that existed before it unchanged; the footprint rectangle is
    read from a new object, a copy of the footprint whose orientation and
    position were reset, while position and angle of the bounding box are
    those of the footprint itself. *)
Theorem source_board_unchanged (host : Host) (self : PcbnewParser)
    (σ : state) :
  (∀ r σ', parse host self σ = (r, σ') →
     ∀ l, l ∈ dom (store σ) → store σ' !! l = store σ !! l)
  ∧ (∀ f, f ∈ dom (store σ) →
       ∃ fd σ' f_copy,
         parse_footprint host self f σ = (Return fd, σ')
         ∧ (∀ l, l ∈ dom (store σ) → store σ' !! l = store σ !! l)
         ∧ (f_copy ∉ dom (store σ))
         ∧ store σ' !! f_copy
           = Some (SetPosition host (0, 0)%Z
                     (SetOrientation host 0%Q (store σ !!! f)))
         ∧ fpd_bbox fd
           = {| bb_pos := normalize (fp_GetPosition (store σ !!! f));
                bb_relpos :=
                  normalize (rect_pos (local_rect host (store σ !!! f)));
                bb_size :=
                  normalize (rect_size (local_rect host (store σ !!! f)));
                bb_angle := (fp_GetOrientation (store σ !!! f) * 0.1)%Q |}).
Proof.
  split.
  - intros r σ' Hrun. apply (parse_preserves host self σ r σ' Hrun).
  - intros f Hf.
    destruct (parse_footprint_record host self f σ Hf)
      as (fd & σ' & st & Hrun & Hp & Hstore & Hext & ->).
    eexists _, σ', (fresh (dom (store σ))). split; [exact Hrun |].
    split; [apply Hp |]. split; [apply is_fresh |]. split; [| reflexivity].
    rewrite Hstore. apply lookup_insert_eq.
Qed.

Lemma source_board_unchanged_witness :
  1%positive ∈ dom (store demo_state)
  ∧ ∃ r σ',
      parse demo_host demo_parser demo_state = (r, σ')
      ∧ store σ' !! 1%positive = Some demo_footprint.
Proof.
  assert (1%positive ∈ dom (store demo_state)) as Hf by (vm_compute; done).
  split; [exact Hf |].
  destruct (parse demo_host demo_parser demo_state) as [r σ'] eqn:Hrun.
  exists r, σ'. split; [reflexivity |].
  trans (store demo_state !! 1%positive); [| reflexivity].
  exact (proj1 (source_board_unchanged demo_host demo_parser demo_state)
           r σ' Hrun 1%positive Hf).
Defined.

(** ** Hard failures *)



(** C7, as amended. When extra field data is requested and a netlist file
    is configured, [parse] raises [ParsingException], changing nothing, if
    that file does not exist or [parse_schematic_data] returns nothing for
    it. When extra field data is requested and no netlist file is
    configured, [parse] logs a warning, drops the request and does not
    raise. When no extra field data is requested, [parse] does not raise. *)
Theorem parse_extra_fields (host : Host) (self : PcbnewParser) (σ : state) :
  let cfg := config self in
  (fields_requested cfg = true → netlist_file cfg ≠ "" →
   os_path_isfile host (netlist_file cfg) = false
   ∨ extra_data_func host (netlist_file cfg) (normalize_field_case cfg)
     = None →
   parse host self σ
   = (Raise (ParsingException ("Failed parsing " ++ netlist_file cfg)), σ))
  ∧ (fields_requested cfg = true → netlist_file cfg = "" →
     ∃ r σ', parse host self σ = (Return r, σ')
             ∧ logged σ ++ [ignoring_warning] `prefix_of` logged σ')
  ∧ (fields_requested cfg = false →
     ∃ r σ', parse host self σ = (Return r, σ')).
Proof.
  intros cfg. pose proof (parse_run host self σ) as H. simpl in H. fold cfg in H.
  split; [| split].
  - intros Hreq Hfile Hsource.
    assert (str_true (netlist_file cfg) = true) as Hgiven.
    { unfold str_true. by rewrite bool_decide_eq_false_2. }
    assert (extra_data_read host cfg = None) as Hnone.
    { unfold extra_data_read. rewrite Hgiven.
      destruct Hsource as [-> | Hfn]; [done |].
      by destruct (os_path_isfile host (netlist_file cfg)). }
    rewrite Hreq, Hgiven, Hnone in H. exact H.
  - intros Hreq Hfile.
    assert (str_true (netlist_file cfg) = false) as Hgiven.
    { unfold str_true. by rewrite bool_decide_eq_true_2. }
    rewrite Hreq, Hgiven in H. simpl in H.
    destruct H as (r & σ' & Hrun & _ & Hwarn & _).
    exists r, σ'. split; [exact Hrun | by apply Hwarn].
  - intros Hreq. rewrite Hreq in H. simpl in H.
    destruct H as (r & σ' & Hrun & _). by exists r, σ'.
Qed.

Lemma parse_extra_fields_witness :
  fields_requested (config missing_file_parser) = true
  ∧ netlist_file (config missing_file_parser) ≠ ""
  ∧ os_path_isfile demo_host (netlist_file (config missing_file_parser))
    = false
  ∧ parse demo_host missing_file_parser demo_state
    = (Raise (ParsingException "Failed parsing demo.xml"), demo_state).
Proof.
  assert (netlist_file (config missing_file_parser) ≠ "") as Hfile
    by discriminate.
  split; [reflexivity |]. split; [exact Hfile |]. split; [reflexivity |].
  exact (proj1 (parse_extra_fields demo_host missing_file_parser demo_state)
           eq_refl Hfile (or_introl eq_refl)).
Defined.

Lemma parse_extra_fields_counterexample :
  fields_requested (config requesting_parser) = true
  ∧ extra_data_read demo_host (config requesting_parser) = None
  ∧ ∃ doc comps σ',
      parse demo_host requesting_parser demo_state
      = (Return (Some doc, Some comps), σ').
Proof.
  split; [reflexivity |]. split; [reflexivity |].
  eexists _, _, _. vm_compute. reflexivity.
Qed.

(** The net list of a small board. *)
Example parse_netlist_demo :
  parse_netlist demo_net_info = [""; "GND"; "VCC"].
Proof. vm_compute. reflexivity. Qed.

(** * Further properties of the parser *)

(** ** Drawings *)

Lemma parse_shape_skips (d : BOARD_ITEM) σ :
  returns (parse_shape d) σ (λ r σ',
    same_store σ σ'
    ∧ font_strings σ' = font_strings σ
    ∧ (r = None ↔ match GetShape d with
                  | S_OTHER _ => True
                  | S_POLYGON => GetPolyShape d = None
                  | _ => False
                  end)).
Proof.
  unfold parse_shape.
  destruct (GetShape d) eqn:Hshape; simpl.
  - apply returns_ret. split; [apply same_store_refl |].
    split; [done |]. split; [done | by intros []].
  - apply returns_ret. split; [apply same_store_refl |].
    split; [done |]. split; [done | by intros []].
  - destruct (Qltb (GetAngle d) 0); apply returns_ret;
      (split; [apply same_store_refl |]; split; [done |];
       split; [done | by intros []]).
  - apply returns_ret. split; [apply same_store_refl |].
    split; [done |]. split; [done | by intros []].
  - (* polygon *)
    destruct (GetPolyShape d) as [ps |].
    + apply returns_bind. eapply returns_mono; [apply parse_poly_set_spec |].
      intros polys σ1 (-> & Hst & Hfont & Hlog).
      assert (same_store σ σ1) as Hs.
      { split; [done |]. rewrite Hlog. by apply prefix_app_r. }
      destruct (GetParentFootprint d);
        repeat (apply returns_bind || apply returns_call || apply returns_ret);
        (split; [done |]; split; [done |]; split; done).
    + apply returns_bind, returns_logger, returns_ret.
      split; [apply same_store_logged |]. split; [done |]. done.
  - apply returns_ret. split; [apply same_store_refl |].
    split; [done |]. split; [done | by intros []].
  - apply returns_bind, returns_logger, returns_ret.
    split; [apply same_store_logged |]. split; [done |]. done.
Qed.

Lemma parse_text_spec host (d : BOARD_ITEM) σ :
  returns (parse_text host d) σ (λ r σ',
    store σ' = store σ
    ∧ logged σ' = logged σ
    ∧ font_strings σ'
      = font_strings σ
        ++ (if IsVisible d && negb (bool_decide (is_Some
            (TransformToSegmentList d)))
            then [shown_text d] else [])
    ∧ (r = None ↔ IsVisible d = false)).
Proof.
  unfold parse_text. destruct (IsVisible d); simpl.
  - destruct (TransformToSegmentList d) as [segs |]; simpl.
    + apply returns_ret. by rewrite app_nil_r.
    + destruct (GetTextHeight d);
        apply returns_bind, returns_parse_font_for_string, returns_ret; done.
  - apply returns_ret. by rewrite app_nil_r.
Qed.

(** X1. [parse_drawing] always returns, writing to no host object, and
    returns [None] in these cases only: a graphic of a shape other than
    segment, rectangle, circle, arc, polygon and curve; a polygon on a host
    without [GetPolyShape]; a text that is not visible; an item that is
    neither a graphic nor a text. A visible text and a graphic of a
    supported shape always give a record. *)
Theorem parse_drawing_skips (host : Host) (d : BOARD_ITEM) (σ : state) :
  ∃ r σ',
    parse_drawing host d σ = (Return r, σ')
    ∧ store σ' = store σ
    ∧ (r = None ↔ drawing_skipped d).
Proof.
  unfold parse_drawing, drawing_skipped.
  destruct (bool_decide (GetClass d ∈ ["DRAWSEGMENT"; "MGRAPHIC";
      "PCB_SHAPE"])).
  - destruct (parse_shape_skips d σ) as (r & σ' & Hrun & Hs & _ & Hnone).
    exists r, σ'. split; [exact Hrun |]. split; [apply Hs | exact Hnone].
  - destruct (bool_decide (GetClass d ∈ ["PTEXT"; "MTEXT"])).
    + destruct (parse_text_spec host d σ) as (r & σ' & Hrun & Hs & _ & _ &
        Hnone).
      by exists r, σ'.
    + eexists _, _. split; [reflexivity |]. done.
Qed.

(** X2. For a polygon, [parse_shape] returns a record whose ["angle"] is
    the number 0 when the polygon has no parent footprint, and otherwise a
    one-element tuple that holds the orientation of the parent footprint in
    degrees, not that number itself; its ["polygons"] are the normalized
    points of the outlines that can be enumerated. *)
Theorem polygon_angle_is_tuple (d : BOARD_ITEM) (ps : SHAPE_POLY_SET)
    (σ : state) :
  GetShape d = S_POLYGON →
  GetPolyShape d = Some ps →
  ∃ σ',
    parse_shape d σ
    = (Return (Some (dict_polygon "polygon" (normalize (GetStart d))
                       (match GetParentFootprint d with
                        | None => angle_int 0
                        | Some parent =>
                            angle_tuple
                              (fp_GetOrientation (store σ !!! parent) * 0.1)%Q
                        end)
                       ((λ o, normalize <$> CPoints o)
                          <$> enumerable_prefix (Outlines ps)))), σ').
Proof.
  intros Hshape Hpoly. unfold parse_shape. rewrite Hshape, Hpoly. simpl.
  destruct (parse_poly_set_spec ps σ) as (polys & σ1 & Hrun & -> & Hst & _).
  exists σ1. unfold mbind, M_bind. rewrite Hrun.
  destruct (GetParentFootprint d); simpl; unfold call; rewrite ?Hst;
    reflexivity.
Qed.

(** X3. [parse_drawing] hands a string to the font parser in one case
    only: a visible text on a host without [TransformToSegmentList]. The
    string is the shown text where the host has [GetShownText], the raw
    text otherwise. Graphics, hidden texts and texts drawn as segments
    leave the strings of the font parser as they are. *)
Theorem parse_drawing_font_strings (host : Host) (d : BOARD_ITEM) (σ : state) :
  ∃ r σ',
    parse_drawing host d σ = (Return r, σ')
    ∧ font_strings σ'
      = font_strings σ
        ++ (if bool_decide (GetClass d ∈ ["PTEXT"; "MTEXT"])
               && IsVisible d
               && negb (bool_decide (is_Some (TransformToSegmentList d)))
            then [default (GetText d) (GetShownText d)] else []).
Proof.
  unfold parse_drawing.
  destruct (bool_decide (GetClass d ∈ ["DRAWSEGMENT"; "MGRAPHIC"; "PCB_SHAPE"]))
    eqn:Hshape.
  - assert (bool_decide (GetClass d ∈ ["PTEXT"; "MTEXT"]) = false) as ->.
    { apply bool_decide_eq_true in Hshape. apply bool_decide_eq_false.
      intros Htext. list_cases Hshape; rewrite Hshape in Htext;
        list_cases Htext; discriminate. }
    destruct (parse_shape_skips d σ) as (r & σ' & Hrun & _ & Hfont & _).
    exists r, σ'. split; [exact Hrun |]. rewrite Hfont. simpl.
    by rewrite app_nil_r.
  - destruct (bool_decide (GetClass d ∈ ["PTEXT"; "MTEXT"])); simpl.
    + destruct (parse_text_spec host d σ) as (r & σ' & Hrun & _ & _ & Hf & _).
      by exists r, σ'.
    + eexists _, _. split; [reflexivity |]. simpl. by rewrite app_nil_r.
Qed.

Lemma polygon_angle_is_tuple_witness :
  GetShape (polygon_item (Some 1%positive)) = S_POLYGON
  ∧ GetPolyShape (polygon_item (Some 1%positive)) = Some demo_poly_set
  ∧ ∃ σ',
      parse_shape (polygon_item (Some 1%positive)) demo_state
      = (Return (Some (dict_polygon "polygon" (normalize (0, 0)%Z)
                         (angle_tuple
                            (fp_GetOrientation
                               (store demo_state !!! 1%positive) * 0.1)%Q)
                         ((λ o, normalize <$> CPoints o)
                            <$> enumerable_prefix (Outlines demo_poly_set)))),
         σ').
Proof.
  split; [reflexivity |]. split; [reflexivity |].
  exact (polygon_angle_is_tuple (polygon_item (Some 1%positive)) demo_poly_set
           demo_state eq_refl eq_refl).
Defined.


Lemma point_eqb_refl (p : Point) : point_eqb p p = true.
Proof.
  unfold point_eqb. apply andb_true_iff. split; apply Qeq_bool_iff; reflexivity.
Qed.

Lemma append_to_last_snoc (front : list (list Point)) l p :
  append_to_last (front ++ [l]) p = front ++ [l ++ [p]].
Proof.
  unfold append_to_last. rewrite reverse_app. simpl.
  by rewrite reverse_involutive.
Qed.

Lemma line_segments_snoc (l : list Point) e q :
  line_segments (l ++ [e; q]) = line_segments (l ++ [e]) ++ [(e, q)].
Proof.
  induction l as [| a l IH]; [reflexivity |].
  destruct l as [| b l]; [reflexivity |].
  change (line_segments ((a :: b :: l) ++ [e; q]))
    with ((a, b) :: line_segments ((b :: l) ++ [e; q])).
  rewrite IH. reflexivity.
Qed.

Lemma text_lines_spec (segments : list (Point * Point)) :
  ∀ prev lines,
    match prev with
    | None => lines = []
    | Some e => ∃ front l, lines = front ++ [l ++ [e]]
    end →
    Forall (λ l, 2 ≤ length l) lines →
    Forall (λ l, 2 ≤ length l) (text_lines prev segments lines)
    ∧ ∃ stored,
        text_lines prev segments lines ≫= line_segments
        = (lines ≫= line_segments) ++ stored
        ∧ Forall2 same_segment stored segments.
Proof.
  induction segments as [| [p q] segments IH]; intros prev lines Hprev Hlen.
  - simpl. split; [done |]. exists []. by rewrite app_nil_r.
  - simpl.
    destruct (match prev with
              | Some seg_im1 => negb (point_eqb seg_im1 p)
              | None => true
              end) eqn:Hnew.
    + (* a new polyline *)
      rewrite append_to_last_snoc.
      destruct (IH (Some q) (lines ++ [[p] ++ [q]])) as (Hall & stored & Heq &
          HR).
      { by exists lines, [p]. }
      { apply Forall_app. split; [done |]. repeat constructor. }
      split; [exact Hall |].
      exists ((p, q) :: stored). split.
      * rewrite Heq, bind_app, <- app_assoc. reflexivity.
      * constructor; [| done]. split; [apply point_eqb_refl | done].
    + (* the polyline continues *)
      destruct prev as [e |]; [| done].
      apply negb_false_iff in Hnew.
      destruct Hprev as (front & l & ->).
      rewrite append_to_last_snoc, <- app_assoc.
      destruct (IH (Some q) (front ++ [(l ++ [e]) ++ [q]]))
        as (Hall & stored & Heq & HR).
      { by exists front, (l ++ [e]). }
      { apply Forall_app in Hlen as [Hfront Hl]. apply Forall_app.
        split; [done |]. constructor; [| done].
        rewrite !length_app. simpl. lia. }
      rewrite <- app_assoc in Hall, Heq.
      change ([e] ++ [q]) with [e; q] in *.
      split; [exact Hall |].
      exists ((e, q) :: stored). split.
      * rewrite Heq, !bind_app. simpl. rewrite !app_nil_r.
        rewrite line_segments_snoc, <- !app_assoc. reflexivity.
      * constructor; [| done]. split; done.
Qed.

(** X4. The loop of [parse_text] that joins the segments of a text into
    polylines loses and invents nothing: every polyline has at least two
    points, and the consecutive pairs of points of the polylines, read in
    order, are the segments of the host one for one, each with the same end
    point and a start point equal to the original one. A text with segments
    gives at least one polyline. *)
Theorem text_lines_keep_segments (segments : list (Point * Point)) :
  let lines := text_lines None segments [] in
  Forall (λ l, 2 ≤ length l) lines
  ∧ Forall2 same_segment (lines ≫= line_segments) segments
  ∧ (segments ≠ [] → lines ≠ []).
Proof.
  intros lines.
  destruct (text_lines_spec segments None []) as (Hall & stored & Heq & HR);
    [done | done |].
  split; [exact Hall |]. split.
  - unfold lines. rewrite Heq. exact HR.
  - intros Hne Hnil. unfold lines in Hnil. rewrite Hnil in Heq. simpl in Heq.
    subst stored. inversion HR. done.
Qed.


Lemma merged_box_snoc (boxes : list EDA_RECT) box :
  merged_box (boxes ++ [box])
  = Some match merged_box boxes with
         | None => box
         | Some bbox => rect_Merge bbox box
         end.
Proof.
  destruct boxes as [| b boxes]; [reflexivity |].
  simpl. by rewrite foldl_app.
Qed.

Lemma parse_edges_bbox host self pcb σ :
  returns (parse_edges host self pcb) σ (λ r σ',
    same_store σ σ'
    ∧ r.1 = omap (drawing_record host (store σ))
              (outline_drawings host self pcb (store σ))
    ∧ length r.1 = length (outline_drawings host self pcb (store σ))
    ∧ r.2 = rect_Normalize
            <$> merged_box (GetBoundingBox
                              <$> outline_drawings host self pcb (store σ))).
Proof.
  unfold parse_edges. apply returns_bind.
  eapply returns_mono.
  { apply (returns_for_each (λ done drawings σ',
      same_store σ σ'
      ∧ drawings = GetDrawings pcb
                   ++ (done ≫= λ f, fp_GraphicalItems (store σ !!! f)))).
    - split; [apply same_store_refl | by rewrite app_nil_r].
    - intros done f rest drawings σ1 _ [Hs ->].
      apply returns_bind, returns_call, returns_ret. split; [done |].
      rewrite foldl_snoc, (same_store_store _ _ Hs), bind_app, <- app_assoc.
      simpl. by rewrite app_nil_r. }
  intros drawings σ1 [Hs1 ->]. fold (edge_candidates self pcb (store σ)).
  unfold outline_drawings.
  set (kept := λ l : list BOARD_ITEM,
         filter (λ d, is_Some (drawing_record host (store σ) d))
           (filter (λ d, GetLayer d = Edge_Cuts) l)).
  apply returns_bind. eapply returns_mono.
  { apply (returns_for_each (λ done (acc : list drawing_dict * option
      EDA_RECT) σ',
      same_store σ σ'
      ∧ acc.1 = omap (drawing_record host (store σ)) (kept done)
      ∧ length acc.1 = length (kept done)
      ∧ acc.2 = merged_box (GetBoundingBox <$> kept done))).
    - split; [exact Hs1 | done].
    - intros done d rest [edges bbox] σ2 _ (Hs2 & Hedges & Hlen & Hbbox).
      simpl in Hedges, Hlen, Hbbox. unfold kept.
      rewrite !filter_app, omap_app, fmap_app, length_app.
      fold (kept done). rewrite <- Hedges, <- Hlen.
      rewrite (filter_cons _ d []).
      destruct (decide (GetLayer d = Edge_Cuts)) as [Hl | Hl].
      + apply returns_bind. eapply returns_mono; [apply parse_drawing_spec |].
        intros r σ3 [-> Hs3]. rewrite (same_store_store _ _ Hs2).
        rewrite (filter_cons _ d []).
        destruct (drawing_record host (store σ) d) as [parsed |] eqn:Hrec.
        * rewrite decide_True by done. apply returns_ret. simpl.
          rewrite Hrec. simpl.
          split; [exact (same_store_trans _ _ _ Hs2 Hs3) |].
          split; [done |]. split; [by rewrite length_app |].
          rewrite merged_box_snoc, <- Hbbox. by destruct bbox.
        * rewrite decide_False by (by intros [? ?]). apply returns_ret.
          simpl. rewrite !app_nil_r, Nat.add_0_r.
          split; [exact (same_store_trans _ _ _ Hs2 Hs3) | done].
      + apply returns_ret. simpl. rewrite !app_nil_r, Nat.add_0_r. done. }
  intros [edges bbox] σ2 (Hs2 & Hedges & Hlen & Hbbox). apply returns_ret.
  simpl in *. by subst.
Qed.

(** X5. [parse_edges] always returns, writing to no host object. It
    returns one record per outline drawing, that is per drawing of the
    board or of a footprint that is on the edge-cuts layer and that
    [parse_drawing] does not skip; the box it returns is the normalized
    merge of the bounding boxes of exactly these drawings, in their order,
    and is [None] exactly when there is no record. *)
Theorem parse_edges_box_of_outline (host : Host) (self : PcbnewParser)
    (pcb : BOARD) (σ : state) :
  ∃ found bbox σ',
    parse_edges host self pcb σ = (Return (found, bbox), σ')
    ∧ store σ' = store σ
    ∧ length found = length (outline_drawings host self pcb (store σ))
    ∧ bbox = rect_Normalize
             <$> merged_box (GetBoundingBox
                               <$> outline_drawings host self pcb (store σ))
    ∧ (bbox = None ↔ found = []).
Proof.
  destruct (parse_edges_bbox host self pcb σ)
    as ([found bbox] & σ' & Hrun & Hs & Hfound & Hlen & Hbox).
  simpl in *. exists found, bbox, σ'.
  split; [done |]. split; [apply Hs |]. split; [done |]. split; [done |].
  rewrite Hbox.
  destruct (outline_drawings host self pcb (store σ)) as [| d ds];
    destruct found; simpl in *; try done.
Qed.


Lemma parse_drawings_on_layers_spec host drawings f_layer b_layer σ :
  returns (parse_drawings_on_layers host drawings f_layer b_layer) σ
    (λ r σ',
       same_store σ σ'
       ∧ F r = omap (layer_entry host (store σ))
                 (filter (λ d, GetLayer d.2 = f_layer) drawings)
       ∧ B r = omap (layer_entry host (store σ))
                 (filter (λ d, GetLayer d.2 = b_layer
                               ∧ GetLayer d.2 ≠ f_layer) drawings)).
Proof.
  unfold parse_drawings_on_layers. apply returns_bind.
  eapply returns_mono.
  { apply (returns_for_each
             (λ done (acc : list layer_drawing * list layer_drawing) σ',
      same_store σ σ'
      ∧ acc.1 = omap (layer_entry host (store σ))
                  (filter (λ d, GetLayer d.2 = f_layer) done)
      ∧ acc.2 = omap (layer_entry host (store σ))
                  (filter (λ d, GetLayer d.2 = b_layer
                                ∧ GetLayer d.2 ≠ f_layer) done))).
    - split; [apply same_store_refl | done].
    - intros done d rest [front back] σ1 _ (Hs1 & Hfront & Hback).
      simpl in Hfront, Hback. rewrite !filter_app, !omap_app.
      rewrite <- Hfront, <- Hback. rewrite !(filter_cons _ d []).
      destruct (bool_decide (GetLayer d.2 ∈ [f_layer; b_layer])) eqn:Hin;
        simpl.
      + apply bool_decide_eq_true in Hin.
        apply returns_bind. eapply returns_mono; [apply parse_drawing_spec |].
        intros r σ2 [-> Hs2]. rewrite (same_store_store _ _ Hs1).
        pose proof (same_store_trans _ _ _ Hs1 Hs2) as Hs.
        assert (GetLayer d.2 ≠ f_layer → GetLayer d.2 = b_layer) as Hb.
        { intros Hf. list_cases Hin; done. }
        destruct (drawing_record host (store σ) d.2) as [drawing |] eqn:Hrec;
          simpl.
        * assert (layer_entry host (store σ) d
                  = Some {| ld_drawing := drawing;
                            ld_ref := if decide (d.1 = "ref")
                                      then Some 1%Z else None;
                            ld_val := if decide (d.1 = "val")
                                      then Some 1%Z else None |}) as Hentry.
          { unfold layer_entry. by rewrite Hrec. }
          destruct (decide (GetLayer d.2 = f_layer)) as [Hf | Hf];
            apply returns_ret; simpl.
          -- repeat case_decide; try tauto; simpl;
               rewrite ?Hentry, ?app_nil_r; done.
          -- repeat case_decide; try tauto; simpl;
               rewrite ?Hentry, ?app_nil_r; done.
        * assert (layer_entry host (store σ) d = None) as Hentry.
          { unfold layer_entry. by rewrite Hrec. }
          apply returns_ret. simpl.
          split; [done |].
          repeat case_decide; simpl; rewrite ?Hentry, ?app_nil_r; done.
      + apply bool_decide_eq_false in Hin. apply returns_ret. simpl.
        assert (GetLayer d.2 ≠ f_layer) as Hf.
        { intros Hf. apply Hin. rewrite Hf. by left. }
        assert (GetLayer d.2 ≠ b_layer) as Hb.
        { intros Hb. apply Hin. rewrite Hb. right. by left. }
        repeat case_decide; try tauto. simpl. by rewrite !app_nil_r. }
  intros [front back] σ1 (Hs1 & Hfront & Hback). apply returns_ret. done.
Qed.

Lemma foldl_tagged (items : list BOARD_ITEM)
    (acc : list (string * BOARD_ITEM)) :
  foldl (λ drawings d, drawings ++ [(GetClass d, d)]) acc items
  = acc ++ ((λ d, (GetClass d, d)) <$> items).
Proof.
  revert acc. induction items as [| d items IH]; intros acc; simpl.
  - by rewrite app_nil_r.
  - by rewrite IH, <- app_assoc.
Qed.

Lemma get_all_drawings_spec self σ :
  returns (get_all_drawings self) σ (λ r σ',
    σ' = σ
    ∧ r = ((λ d, (GetClass d, d)) <$> GetDrawings (board self))
          ++ (footprints self ≫= λ f, footprint_tagged (store σ !!! f))).
Proof.
  unfold get_all_drawings.
  apply (returns_for_each (λ done drawings σ',
    σ' = σ
    ∧ drawings = ((λ d, (GetClass d, d)) <$> GetDrawings (board self))
                 ++ (done ≫= λ f, footprint_tagged (store σ !!! f)))).
  - split; [done | by rewrite app_nil_r].
  - intros done f rest drawings σ1 _ [-> ->].
    apply returns_bind, returns_call.
    apply returns_bind, returns_call.
    apply returns_bind, returns_call, returns_ret. split; [done |].
    rewrite foldl_tagged, bind_app. simpl. rewrite app_nil_r.
    unfold footprint_tagged. by rewrite <- !app_assoc.
Qed.

(** X6. [parse_drawings_on_layers] always returns, writing to no host
    object. The front list holds, in the order of the input, the entries
    of the drawings on [f_layer]; the back list those of the drawings on
    [b_layer], unless both layers are the same, in which case every
    drawing goes to the front list only. Drawings on other layers and
    drawings that [parse_drawing] skips leave no entry. *)
Theorem parse_drawings_on_layers_routing (host : Host)
    (drawings : list (string * BOARD_ITEM)) (f_layer b_layer : layer)
    (σ : state) :
  ∃ r σ',
    parse_drawings_on_layers host drawings f_layer b_layer σ = (Return r, σ')
    ∧ store σ' = store σ
    ∧ F r = omap (layer_entry host (store σ))
              (filter (λ d, GetLayer d.2 = f_layer) drawings)
    ∧ B r = (if decide (b_layer = f_layer) then []
             else omap (layer_entry host (store σ))
                    (filter (λ d, GetLayer d.2 = b_layer) drawings)).
Proof.
  destruct (parse_drawings_on_layers_spec host drawings f_layer b_layer σ)
    as (r & σ' & Hrun & Hs & HF & HB).
  exists r, σ'. split; [done |]. split; [apply Hs |]. split; [done |].
  rewrite HB. clear.
  destruct (decide (b_layer = f_layer)) as [-> | Hne].
  - f_equal. induction drawings as [| d drawings IH]; [done |].
    rewrite filter_cons. case_decide; [tauto | done].
  - f_equal. induction drawings as [| d drawings IH]; [done |].
    rewrite !filter_cons, IH. repeat case_decide; try done.
    + tauto.
    + exfalso. naive_solver.
Qed.

(** X7. [get_all_drawings] always returns and changes nothing. Its list
    is the drawings of the board, each tagged with its class, followed for
    every footprint in turn by its reference text tagged ["ref"], its value
    text tagged ["val"] and its graphical items tagged with their class. *)
Theorem get_all_drawings_order (self : PcbnewParser) (σ : state) :
  ∃ r,
    get_all_drawings self σ = (Return r, σ)
    ∧ r = ((λ d, (GetClass d, d)) <$> GetDrawings (board self))
          ++ (footprints self ≫= λ f, footprint_tagged (store σ !!! f))
    ∧ length r
      = length (GetDrawings (board self))
        + sum_list ((λ f, 2 + length (fp_GraphicalItems (store σ !!! f)))
                      <$> footprints self).
Proof.
  destruct (get_all_drawings_spec self σ) as (r & σ' & Hrun & -> & Hr).
  exists r. split; [done |]. split; [done |].
  rewrite Hr, length_app, length_fmap. f_equal. clear.
  induction (footprints self) as [| f fs IH]; [done |].
  rewrite bind_cons, length_app, IH. simpl. by rewrite length_fmap.
Qed.


Lemma shape_lookup_name host (s : pad_shape_t) :
  dict_get
    (let shape_lookup :=
       [(PAD_SHAPE_RECT, "rect"); (PAD_SHAPE_OVAL, "oval");
        (PAD_SHAPE_CIRCLE, "circle")] in
     let shape_lookup :=
       if has_PAD_SHAPE_ROUNDRECT host
       then shape_lookup ++ [(PAD_SHAPE_ROUNDRECT, "roundrect")]
       else shape_lookup in
     let shape_lookup :=
       if has_PAD_SHAPE_CUSTOM host
       then shape_lookup ++ [(PAD_SHAPE_CUSTOM, "custom")]
       else shape_lookup in
     if has_PAD_SHAPE_CHAMFERED_RECT host
     then shape_lookup ++ [(PAD_SHAPE_CHAMFERED_RECT, "chamfrect")]
     else shape_lookup) s ""
  = pad_shape_name host s.
Proof.
  unfold pad_shape_name.
  destruct (has_PAD_SHAPE_ROUNDRECT host), (has_PAD_SHAPE_CUSTOM host),
    (has_PAD_SHAPE_CHAMFERED_RECT host), s; reflexivity.
Qed.

Ltac opt_iff :=
  lazymatch goal with
  | |- is_Some (Some _) ↔ _ =>
      split; [intros _; first [done | by left | by right]
             | intros _; by eexists]
  | |- is_Some None ↔ _ =>
      split; [by intros [? [=]]
             | first [by intros [=] | by intros [[=] | [=]]]]
  end.

Lemma parse_pad_keys host self (p : PAD) :
  pure_result (parse_pad host self p) (λ r,
    (r = None ↔ pad_shape_name host (pad_GetShape p) = "")
    ∧ ∀ pd, r = Some pd →
        pd_shape pd = pad_shape_name host (pad_GetShape p)
        ∧ pd_type pd
          = (if bool_decide (pad_GetAttribute p
                               ∈ [PAD_ATTRIB_PTH; PAD_ATTRIB_NPTH])
             then "th" else "smd")
        ∧ (is_Some (pd_drillshape pd) ↔ pd_type pd = "th")
        ∧ (is_Some (pd_drillsize pd) ↔ pd_type pd = "th")
        ∧ (is_Some (pd_polygons pd) ↔ pd_shape pd = "custom")
        ∧ (is_Some (pd_radius pd)
           ↔ pd_shape pd = "roundrect" ∨ pd_shape pd = "chamfrect")
        ∧ (is_Some (pd_chamfpos pd) ↔ pd_shape pd = "chamfrect")
        ∧ (is_Some (pd_chamfratio pd) ↔ pd_shape pd = "chamfrect")
        ∧ (is_Some (pd_offset pd) ↔ is_Some (pad_GetOffset p))
        ∧ pd_layers pd
          = (if bool_decide (F_Cu ∈ pad_GetLayerSet p) then ["F"] else [])
            ++ (if bool_decide (B_Cu ∈ pad_GetLayerSet p) then ["B"] else [])).
Proof.
  unfold parse_pad.
  cbv zeta. rewrite (shape_lookup_name host).
  assert (pad_shape_name host (pad_GetShape p)
            ∈ [""; "rect"; "oval"; "circle"; "roundrect"; "custom";
               "chamfrect"]) as Hnames.
  { unfold pad_shape_name. repeat case_match; set_solver. }
  remember (pad_shape_name host (pad_GetShape p)) as shape eqn:Hshape.
  clear Hshape.
  destruct (decide (shape = "")) as [Hs | Hs].
  - eapply pure_bind with (P := λ _, True); [by apply pure_logger |].
    intros _ _. by apply pure_ret.
  - eapply pure_bind
      with (P := λ polygons, is_Some polygons ↔ shape = "custom").
    + destruct (decide (shape = "custom")) as [Hc | Hc].
      * eapply pure_bind with (P := λ _, True).
        { destruct (HasHoles _); by (apply pure_logger || apply pure_ret). }
        intros _ _.
        eapply pure_bind with (P := λ _, True).
        { destruct (IsSelfIntersecting _);
            by (apply pure_logger || apply pure_ret). }
        intros _ _.
        eapply pure_bind; [apply pure_parse_poly_set |].
        intros ? _. apply pure_ret. split; [done | by eexists].
      * apply pure_ret. split; [by intros [? ?] | done].
    + intros polygons Hpoly. apply pure_ret.
      split; [split; [done | by intros ?] |].
      intros pd [= <-]. simpl.
      split; [done |].
      assert (bool_decide
                (pad_GetAttribute p
                   ∈ (if has_PAD_ATTRIB_PTH host
                      then [PAD_ATTRIB_PTH; PAD_ATTRIB_NPTH]
                      else [PAD_ATTRIB_STANDARD; PAD_ATTRIB_HOLE_NOT_PLATED]))
              = bool_decide (pad_GetAttribute p
                               ∈ [PAD_ATTRIB_PTH; PAD_ATTRIB_NPTH])) as ->.
      { by destruct (has_PAD_ATTRIB_PTH host). }
      split; [done |].
      assert (shape = "rect" ∨ shape = "oval" ∨ shape = "circle"
              ∨ shape = "roundrect" ∨ shape = "custom"
              ∨ shape = "chamfrect") as Hcases
        by (clear -Hnames Hs; list_cases Hnames; tauto).
      clear Hnames.
      split; [| split].
      1, 2: destruct (bool_decide (pad_GetAttribute p
                                     ∈ [PAD_ATTRIB_PTH; PAD_ATTRIB_NPTH]));
              opt_iff.
      split; [exact Hpoly |]. clear Hpoly polygons.
      split; [| split; [| split; [| split]]].
      * destruct Hcases as [-> | [-> | [-> | [-> | [-> | ->]]]]]; simpl;
          opt_iff.
      * destruct Hcases as [-> | [-> | [-> | [-> | [-> | ->]]]]]; simpl;
          opt_iff.
      * destruct Hcases as [-> | [-> | [-> | [-> | [-> | ->]]]]]; simpl;
          opt_iff.
      * by rewrite fmap_is_Some.
      * by destruct (bool_decide (F_Cu ∈ _)), (bool_decide (B_Cu ∈ _)).
Qed.

Lemma parse_pad_unsupported host self (p : PAD) σ :
  pad_shape_name host (pad_GetShape p) = "" →
  parse_pad host self p σ
  = (Return None,
     {| store := store σ;
        logged := logged σ
                  ++ [{| lvl := INFO;
                         fmt := "Unsupported pad shape %s, skipping.";
                         args := [arg_pad_shape (pad_GetShape p)] |}];
        font_strings := font_strings σ |}).
Proof.
  intros Hname. unfold parse_pad. cbv zeta.
  rewrite (shape_lookup_name host), Hname. reflexivity.
Qed.

Lemma pad_record_keys host self (p : PAD) :
  (pad_record host self p = None ↔ pad_shape_name host (pad_GetShape p) = "")
  ∧ ∀ pd, pad_record host self p = Some pd →
      pd_shape pd = pad_shape_name host (pad_GetShape p)
      ∧ pd_type pd
        = (if bool_decide (pad_GetAttribute p
                             ∈ [PAD_ATTRIB_PTH; PAD_ATTRIB_NPTH])
           then "th" else "smd")
      ∧ (is_Some (pd_drillshape pd) ↔ pd_type pd = "th")
      ∧ (is_Some (pd_drillsize pd) ↔ pd_type pd = "th")
      ∧ (is_Some (pd_polygons pd) ↔ pd_shape pd = "custom")
      ∧ (is_Some (pd_radius pd)
         ↔ pd_shape pd = "roundrect" ∨ pd_shape pd = "chamfrect")
      ∧ (is_Some (pd_chamfpos pd) ↔ pd_shape pd = "chamfrect")
      ∧ (is_Some (pd_chamfratio pd) ↔ pd_shape pd = "chamfrect")
      ∧ (is_Some (pd_offset pd) ↔ is_Some (pad_GetOffset p))
      ∧ pd_layers pd
        = (if bool_decide (F_Cu ∈ pad_GetLayerSet p) then ["F"] else [])
          ++ (if bool_decide (B_Cu ∈ pad_GetLayerSet p) then ["B"] else []).
Proof.
  apply (proj1 (pure_value _ _ empty_state (parse_pad_keys host self p))).
Qed.

Lemma pad_record_None host self (p : PAD) :
  pad_record host self p = None ↔ pad_shape_name host (pad_GetShape p) = "".
Proof. apply pad_record_keys. Qed.

(** X8. [parse_pad] always returns, writing to no host object. It skips a
    pad, returning [None], exactly when the shape of the pad is none of
    rectangle, oval and circle and none of the rounded rectangle, custom and
    chamfered rectangle shapes that the host defines; it then logs one
    record, at level info, that names the shape. *)
Theorem parse_pad_skips_unsupported (host : Host) (self : PcbnewParser)
    (p : PAD) (σ : state) :
  ∃ r σ',
    parse_pad host self p σ = (Return r, σ')
    ∧ store σ' = store σ
    ∧ (r = None ↔ pad_shape_name host (pad_GetShape p) = "")
    ∧ (r = None →
       logged σ'
       = logged σ
         ++ [{| lvl := INFO; fmt := "Unsupported pad shape %s, skipping.";
                args := [arg_pad_shape (pad_GetShape p)] |}]).
Proof.
  destruct (parse_pad_spec host self p σ) as (r & σ' & Hrun & -> & Hs).
  exists (pad_record host self p), σ'.
  split; [done |]. split; [apply Hs |].
  split; [apply pad_record_None |].
  intros Hnone. apply pad_record_None in Hnone.
  rewrite (parse_pad_unsupported host self p σ Hnone) in Hrun.
  by injection Hrun as _ <-.
Qed.

(** X9. In the dictionary that [parse_pad] returns for a pad, the optional
    keys go with the shape and the type: the type is ["th"] for plated and
    non-plated through-hole pads and ["smd"] for all others; the drill keys
    are present exactly for type ["th"], the polygons exactly for shape
    ["custom"], the radius exactly for ["roundrect"] and ["chamfrect"], the
    chamfer keys exactly for ["chamfrect"], the offset exactly when the host
    pad has one; and the layers are ["F"], ["B"], both in this order, or
    none. *)
Theorem parse_pad_optional_keys (host : Host) (self : PcbnewParser)
    (p : PAD) (σ : state) :
  ∃ r σ',
    parse_pad host self p σ = (Return r, σ')
    ∧ ∀ pd, r = Some pd →
        pd_shape pd = pad_shape_name host (pad_GetShape p)
        ∧ pd_type pd
          = (if bool_decide (pad_GetAttribute p
                               ∈ [PAD_ATTRIB_PTH; PAD_ATTRIB_NPTH])
             then "th" else "smd")
        ∧ (is_Some (pd_drillshape pd) ↔ pd_type pd = "th")
        ∧ (is_Some (pd_drillsize pd) ↔ pd_type pd = "th")
        ∧ (is_Some (pd_polygons pd) ↔ pd_shape pd = "custom")
        ∧ (is_Some (pd_radius pd)
           ↔ pd_shape pd = "roundrect" ∨ pd_shape pd = "chamfrect")
        ∧ (is_Some (pd_chamfpos pd) ↔ pd_shape pd = "chamfrect")
        ∧ (is_Some (pd_chamfratio pd) ↔ pd_shape pd = "chamfrect")
        ∧ (is_Some (pd_offset pd) ↔ is_Some (pad_GetOffset p))
        ∧ pd_layers pd
          = (if bool_decide (F_Cu ∈ pad_GetLayerSet p) then ["F"] else [])
            ++ (if bool_decide (B_Cu ∈ pad_GetLayerSet p) then ["B"] else []).
Proof.
  destruct (parse_pad_spec host self p σ) as (r & σ' & Hrun & -> & Hs).
  exists (pad_record host self p), σ'.
  split; [done |]. apply pad_record_keys.
Qed.


(** * More on pads *)

Lemma length_guess_pin1 (pads : list (string * pad_dict)) :
  length (guess_pin1 pads) = length pads.
Proof.
  destruct pads as [| p pads]; [done |].
  rewrite guess_pin1_unfold by done.
  by rewrite length_fmap, (sorted_Permutation _ (p :: pads)).
Qed.

Lemma length_parsed_pads host self (f_pads : list PAD) :
  length (parsed_pads host self f_pads)
  = length (filter (λ p, pad_shape_name host (pad_GetShape p) ≠ "") f_pads).
Proof.
  unfold parsed_pads. induction f_pads as [| p f_pads IH]; [done |].
  rewrite filter_cons. csimpl.
  destruct (pad_record host self p) as [pd |] eqn:Hrec; csimpl.
  - rewrite decide_True, IH; [done |].
    intros Hname. apply (pad_record_None host self) in Hname. congruence.
  - rewrite decide_False, IH; [done |].
    intros Hname. apply Hname. by apply (pad_record_None host self).
Qed.

Lemma parsed_pads_records host self (f_pads : list PAD) :
  (parsed_pads host self f_pads).*2 = omap (pad_record host self) f_pads.
Proof.
  unfold parsed_pads. induction f_pads as [| p f_pads IH]; [done |].
  csimpl. destruct (pad_record host self p); csimpl; by rewrite ?IH.
Qed.

(** X10. [parse_footprints] records every supported pad of a footprint
    once and no other: without their ['pin1'] key, the dictionaries of the
    ['pads'] list are, up to order, the dictionaries [parse_pad] returns
    for the pads of the footprint, so the list is as long as the footprint
    has pads of a supported shape. *)
Theorem footprint_pads_complete (host : Host) (self : PcbnewParser)
    (f : ref) (σ : state) :
  f ∈ dom (store σ) →
  ∃ fd σ',
    parse_footprint host self f σ = (Return fd, σ')
    ∧ unset_pin1 <$> fpd_pads fd
      ≡ₚ omap (pad_record host self) (fp_Pads (store σ !!! f))
    ∧ length (fpd_pads fd)
      = length (filter (λ p, pad_shape_name host (pad_GetShape p) ≠ "")
                  (fp_Pads (store σ !!! f))).
Proof.
  intros Hf.
  destruct (parse_footprint_record host self f σ Hf)
    as (fd & σ' & st & Hrun & _ & _ & _ & ->).
  eexists _, σ'. split; [exact Hrun |]. simpl. split.
  - rewrite unset_pin1_assembled, <- parsed_pads_records.
    apply fmap_Permutation, sorted_Permutation.
  - unfold assembled_pads.
    by rewrite length_fmap, length_guess_pin1, length_parsed_pads.
Qed.

Lemma footprint_pads_complete_witness :
  1%positive ∈ dom (store demo_state)
  ∧ ∃ fd σ',
      parse_footprint demo_host demo_parser 1%positive demo_state
      = (Return fd, σ')
      ∧ unset_pin1 <$> fpd_pads fd
        ≡ₚ omap (pad_record demo_host demo_parser)
             (fp_Pads (store demo_state !!! 1%positive))
      ∧ length (fpd_pads fd)
        = length (filter (λ p, pad_shape_name demo_host (pad_GetShape p) ≠ "")
                    (fp_Pads (store demo_state !!! 1%positive))).
Proof.
  assert (1%positive ∈ dom (store demo_state)) as Hf
    by (apply (bool_decide_unpack _); vm_compute; reflexivity).
  split; [exact Hf |].
  exact (footprint_pads_complete demo_host demo_parser 1%positive demo_state
      Hf).
Defined.

(** The order of the pads of a footprint *)

Lemma same_keys_eq {A} (key : A → string) (l1 l2 : list A) :
  l1 ≡ₚ l2 → key <$> l1 = key <$> l2 → NoDup (key <$> l1) → l1 = l2.
Proof.
  revert l2. induction l1 as [| x l1 IH]; intros l2 Hperm Hkeys Hnd.
  { by apply Permutation_nil_l in Hperm. }
  destruct l2 as [| y l2]; [done |].
  rewrite !fmap_cons in Hkeys. injection Hkeys as Hxy Hkeys.
  rewrite fmap_cons in Hnd. apply NoDup_cons in Hnd as [Hx Hnd].
  assert (x = y) as <-.
  { assert (x ∈ y :: l2) as Hin by (rewrite <- Hperm; left).
    apply elem_of_cons in Hin as [-> | Hin]; [done |].
    exfalso. apply Hx. rewrite Hkeys. apply list_elem_of_fmap. eauto. }
  f_equal. apply IH; [| done | done].
  by apply (Permutation_cons_inv (a := x)).
Qed.

Lemma sorted_unique {A} (key : A → string) (l1 l2 : list A) :
  l1 ≡ₚ l2 → NoDup (key <$> l1) → sorted l1 key = sorted l2 key.
Proof.
  intros Hperm Hnd.
  assert (sorted l1 key ≡ₚ sorted l2 key) as Hsorted.
  { by rewrite !sorted_Permutation. }
  apply (same_keys_eq key); [done | |].
  - apply (StronglySorted_unique String.le).
    + eapply StronglySorted_fmap; [| apply sorted_StronglySorted].
      by intros x y Hxy.
    + eapply StronglySorted_fmap; [| apply sorted_StronglySorted].
      by intros x y Hxy.
    + by apply fmap_Permutation.
  - by rewrite sorted_Permutation.
Qed.

Lemma assembled_pads_order host self (pads1 pads2 : list PAD) :
  pads1 ≡ₚ pads2 →
  NoDup (parsed_pads host self pads1).*1 →
  assembled_pads host self pads1 = assembled_pads host self pads2.
Proof.
  intros Hperm Hnd. unfold assembled_pads. f_equal.
  assert (parsed_pads host self pads1 ≡ₚ parsed_pads host self pads2)
    as Hparsed by (unfold parsed_pads; by rewrite Hperm).
  destruct (parsed_pads host self pads1) as [| p ps] eqn:H1.
  { apply Permutation_nil_l in Hparsed. by rewrite <- Hparsed. }
  destruct (parsed_pads host self pads2) as [| q qs] eqn:H2.
  { by apply Permutation_nil_r in Hparsed. }
  rewrite !guess_pin1_unfold by done.
  by rewrite (sorted_unique (λ el, el.1) _ _ Hparsed Hnd).
Qed.

(** X11. When the supported pads of a footprint have distinct designators,
    the ['pads'] list that [parse_footprints] records does not depend on
    the order in which the host lists the pads: two footprints whose pads
    are the same up to order get the same list, with the pin-1 key on the
    same pad. *)
Theorem footprint_pads_order_independent (host : Host) (self : PcbnewParser)
    (f1 f2 : ref) (σ1 σ2 : state) :
  f1 ∈ dom (store σ1) →
  f2 ∈ dom (store σ2) →
  fp_Pads (store σ1 !!! f1) ≡ₚ fp_Pads (store σ2 !!! f2) →
  NoDup (parsed_pads host self (fp_Pads (store σ1 !!! f1))).*1 →
  ∃ fd1 σ1' fd2 σ2',
    parse_footprint host self f1 σ1 = (Return fd1, σ1')
    ∧ parse_footprint host self f2 σ2 = (Return fd2, σ2')
    ∧ fpd_pads fd1 = fpd_pads fd2.
Proof.
  intros Hf1 Hf2 Hperm Hnd.
  destruct (parse_footprint_record host self f1 σ1 Hf1)
    as (fd1 & σ1' & st1 & Hrun1 & _ & _ & _ & ->).
  destruct (parse_footprint_record host self f2 σ2 Hf2)
    as (fd2 & σ2' & st2 & Hrun2 & _ & _ & _ & ->).
  eexists _, σ1', _, σ2'. split; [exact Hrun1 |]. split; [exact Hrun2 |].
  simpl. by apply assembled_pads_order.
Qed.

Lemma footprint_pads_order_independent_witness :
  1%positive ∈ dom (store demo_state)
  ∧ 1%positive ∈ dom (store ordered_state)
  ∧ fp_Pads (store demo_state !!! 1%positive)
    ≡ₚ fp_Pads (store ordered_state !!! 1%positive)
  ∧ NoDup (parsed_pads demo_host demo_parser
             (fp_Pads (store demo_state !!! 1%positive))).*1
  ∧ ∃ fd1 σ1' fd2 σ2',
      parse_footprint demo_host demo_parser 1%positive demo_state
      = (Return fd1, σ1')
      ∧ parse_footprint demo_host demo_parser 1%positive ordered_state
        = (Return fd2, σ2')
      ∧ fpd_pads fd1 = fpd_pads fd2.
Proof.
  assert (1%positive ∈ dom (store demo_state)) as Hf1
    by (apply (bool_decide_unpack _); vm_compute; reflexivity).
  assert (1%positive ∈ dom (store ordered_state)) as Hf2
    by (apply (bool_decide_unpack _); vm_compute; reflexivity).
  assert (fp_Pads (store demo_state !!! 1%positive)
          ≡ₚ fp_Pads (store ordered_state !!! 1%positive)) as Hperm
    by (vm_compute; apply perm_swap).
  assert (NoDup (parsed_pads demo_host demo_parser
                   (fp_Pads (store demo_state !!! 1%positive))).*1) as Hnd
    by (apply (bool_decide_unpack _); vm_compute; reflexivity).
  split; [exact Hf1 |]. split; [exact Hf2 |]. split; [exact Hperm |].
  split; [exact Hnd |].
  exact (footprint_pads_order_independent demo_host demo_parser
           1%positive 1%positive demo_state ordered_state Hf1 Hf2 Hperm Hnd).
Defined.


(** ** Tracks and zones *)

Lemma parse_tracks_single self (t : TRACK) :
  F (parse_tracks self [t])
  = (if track_on F_Cu t then [track_record self t] else [])
  ∧ B (parse_tracks self [t])
    = (if track_on B_Cu t then [track_record self t] else []).
Proof.
  unfold parse_tracks, track_on, track_record, via_record, arc_record,
    spec_arc_angles, configured_net. simpl.
  destruct (decide (trk_GetClass t = "VIA")) as [Hvia | Hvia]; simpl.
  { by destruct (trk_IsOnLayer t F_Cu), (trk_IsOnLayer t B_Cu). }
  destruct (trk_GetLayer t) eqn:Hl; simpl; try done.
  all: destruct (decide (trk_GetClass t = "ARC")); simpl; try done.
  all: by destruct (Qltb (trk_GetAngle t) 0).
Qed.

Lemma bind_if_singleton {A B} (P : A → bool) (f : A → B) (l : list A) :
  l ≫= (λ x, if P x then [f x] else []) = f <$> filter (λ x, P x = true) l.
Proof.
  induction l as [| x l IH]; [done |].
  rewrite bind_cons, filter_cons, IH.
  destruct (P x); [rewrite decide_True by done | rewrite decide_False by done];
    done.
Qed.

(** X12. Each list of [parse_tracks] holds, in the order of the board, the
    records of the tracks of its side: a via is listed under every outer
    copper layer it is on, with the same record, and under none if it is on
    neither; any other track is listed once, under its own layer, and is
    dropped when that is an inner layer. *)
Theorem parse_tracks_by_side (self : PcbnewParser) (tracks : list TRACK) :
  F (parse_tracks self tracks)
  = track_record self <$> filter (λ t, track_on F_Cu t = true) tracks
  ∧ B (parse_tracks self tracks)
    = track_record self <$> filter (λ t, track_on B_Cu t = true) tracks.
Proof.
  destruct (parse_tracks_bind self tracks) as [-> ->].
  rewrite <- !bind_if_singleton. split.
  - induction tracks as [| t ts IH]; [done |].
    rewrite !bind_cons, IH. f_equal. apply parse_tracks_single.
  - induction tracks as [| t ts IH]; [done |].
    rewrite !bind_cons, IH. f_equal. apply parse_tracks_single.
Qed.

Lemma parse_zones_spec self (zones : list ZONE) σ :
  returns (parse_zones self zones) σ (λ r σ',
    same_store σ σ'
    ∧ font_strings σ' = font_strings σ
    ∧ F r = zones ≫= zone_records self F_Cu
    ∧ B r = zones ≫= zone_records self B_Cu).
Proof.
  unfold parse_zones. apply returns_bind. eapply returns_mono.
  { apply (returns_for_each
             (λ done (acc : list zone_dict * list zone_dict) σ',
                same_store σ σ'
                ∧ font_strings σ' = font_strings σ
                ∧ acc.1 = done ≫= zone_records self F_Cu
                ∧ acc.2 = done ≫= zone_records self B_Cu)).
    - split; [apply same_store_refl | done].
    - intros done z rest [front back] σ1 _ (Hs1 & Hf1 & Hfront & Hback).
      simpl in Hfront, Hback. rewrite !bind_app, !bind_cons. csimpl. rewrite
          !app_nil_r.
      unfold zone_records at 2 4. unfold zone_listed.
      destruct (zone_IsFilled z); simpl;
        [| apply returns_ret; simpl; by rewrite !app_nil_r].
      destruct (default false (zone_GetIsKeepout z)); simpl;
        [apply returns_ret; simpl; by rewrite !app_nil_r |].
      destruct (default false (zone_GetIsRuleArea z)); simpl;
        [apply returns_ret; simpl; by rewrite !app_nil_r |].
      rewrite <- Hfront, <- Hback. clear Hfront Hback.
      eapply returns_mono.
      { apply (returns_for_each
                 (λ seen (acc : list zone_dict * list zone_dict) σ',
                    same_store σ σ'
                    ∧ font_strings σ' = font_strings σ
                    ∧ acc.1 = front
                              ++ (zone_record self z
                                    <$> filter (λ layer, layer = F_Cu) seen)
                    ∧ acc.2 = back
                              ++ (zone_record self z
                                    <$> filter (λ layer, layer = B_Cu) seen))).
        - simpl. by rewrite !app_nil_r.
        - intros seen l rest' [f b] σ2 Hl (Hs2 & Hf2 & Hf & Hb).
          simpl in Hf, Hb. subst f b.
          apply returns_bind. eapply returns_mono;
            [apply parse_poly_set_spec |].
          intros polys σ3 (-> & Hst3 & Hfont3 & Hlog3).
          assert (same_store σ σ3) as Hs3.
          { eapply same_store_trans; [exact Hs2 |].
            split; [done |]. rewrite Hlog3. by apply prefix_app_r. }
          assert (l ∈ [F_Cu; B_Cu]) as Hin.
          { assert (l ∈ filter (λ layer, layer ∈ [F_Cu; B_Cu])
                          (zone_GetLayerSet z)) as Hmem
              by (rewrite Hl; apply elem_of_app; right; left).
            by apply list_elem_of_filter in Hmem as [? _]. }
          rewrite !filter_app, !fmap_app, !(filter_cons _ l []).
          assert ((match zone_GetFilledPolysList0 z with
                   | Some poly_set => poly_set
                   | None => zone_GetFilledPolysList z l
                   end)
                  = default (zone_GetFilledPolysList z l)
                      (zone_GetFilledPolysList0 z)) as ->
            by (by destruct (zone_GetFilledPolysList0 z)).
          assert ((match zone_GetFilledPolysUseThickness z with
                   | Some false => 0%Q
                   | _ => (inject_Z (zone_GetMinThickness z) * 1e-6)%Q
                   end)
                  = (if bool_decide (zone_GetFilledPolysUseThickness z
                                     = Some false)
                     then 0%Q
                     else (inject_Z (zone_GetMinThickness z) * 1e-6)%Q)) as ->
            by (by destruct (zone_GetFilledPolysUseThickness z) as [[|] |]).
          destruct (decide (l = F_Cu)) as [-> | Hne]; apply returns_ret; simpl.
          + split; [done |]. split; [congruence |].
            rewrite app_nil_r. by rewrite !app_assoc.
          + list_cases Hin; [done | subst l].
            split; [done |]. split; [congruence |].
            rewrite app_nil_r. by rewrite !app_assoc. }
      intros [f b] σ2 (Hs2 & Hf2 & Hf & Hb). simpl in *.
      split; [done |]. split; [done |]. subst f b. split; f_equal.
      + f_equal. clear. induction (zone_GetLayerSet z) as [| l ls IH]; [done |].
        rewrite !filter_cons. repeat case_decide; subst; simpl;
          rewrite ?filter_cons; repeat case_decide; try done;
          try (by rewrite IH); try (by f_equal).
        all: exfalso; set_solver.
      + f_equal. clear. induction (zone_GetLayerSet z) as [| l ls IH]; [done |].
        rewrite !filter_cons. repeat case_decide; subst; simpl;
          rewrite ?filter_cons; repeat case_decide; try done;
          try (by rewrite IH); try (by f_equal).
        all: exfalso; set_solver. }
  intros [f b] σ' (Hs & Hfont & Hf & Hb). apply returns_ret. done.
Qed.

(** X13. [parse_zones] always returns, writing to no host object. A zone
    that is not filled, or is a keepout or a rule area, gives no record;
    every other zone gives one record under each outer copper layer of its
    layer set, in the order of the board, with the polygons of its filled
    area on that layer, the width 0 when the host says that the fill does
    not use the thickness and the minimum thickness otherwise. Zones on
    inner layers only give nothing. *)
Theorem parse_zones_by_side (self : PcbnewParser) (zones : list ZONE)
    (σ : state) :
  ∃ r σ',
    parse_zones self zones σ = (Return r, σ')
    ∧ store σ' = store σ
    ∧ F r = zones ≫= zone_records self F_Cu
    ∧ B r = zones ≫= zone_records self B_Cu.
Proof.
  destruct (parse_zones_spec self zones σ) as (r & σ' & Hrun & Hs & _ & HF &
      HB).
  exists r, σ'. split; [done |]. split; [apply Hs | done].
Qed.

(** ** The board record *)

Lemma footprint_to_component_spec host (f : ref) fields σ :
  footprint_to_component host f fields σ
  = (Return (component_record host (store σ !!! f) fields), σ).
Proof. reflexivity. Qed.

Lemma components_spec host (pairs : list (ref * gmap string string)) σ :
  returns
    (for_each pairs [] (λ components '(f, ee),
       component ← footprint_to_component host f ee;
       mret (components ++ [component]))) σ
    (λ comps σ',
       σ' = σ
       ∧ comps = (λ p, component_record host (store σ !!! p.1) p.2) <$> pairs).
Proof.
  apply (returns_for_each (λ done comps σ',
    σ' = σ
    ∧ comps = (λ p, component_record host (store σ !!! p.1) p.2) <$> done)).
  - done.
  - intros done [f ee] rest comps σ1 _ [-> ->].
    eexists _, _. split; [reflexivity |]. split; [done |].
    by rewrite fmap_app.
Qed.

Lemma missing_loop_spec (extra_field_data : gmap string (gmap string string))
    (fs : list ref) σ :
  returns
    (for_each fs ([] : list (gmap string string), false)
       (λ '(e, warning_shown) f,
          reference ← call f fp_GetReference;
          let e := e ++ [default (∅ : gmap string string)
                            (extra_field_data !! reference)] in
          if negb (bool_decide (is_Some (extra_field_data !! reference)))
          then
            _ ← logger_warn "Component %s is missing from schematic data."
                  [arg_str reference];
            mret (e, true)
          else mret (e, warning_shown))) σ
    (λ r σ',
       let references := (λ f, fp_GetReference (store σ !!! f)) <$> fs in
       let warnings := missing_warnings (Some extra_field_data) references in
       σ' = {| store := store σ; logged := logged σ ++ warnings;
               font_strings := font_strings σ |}
       ∧ r.1 = extra_fields_of (Some extra_field_data) <$> references
       ∧ r.2 = list_true warnings).
Proof.
  apply (returns_for_each (λ done (r : list (gmap string string) * bool) σ',
    let references := (λ f, fp_GetReference (store σ !!! f)) <$> done in
    let warnings := missing_warnings (Some extra_field_data) references in
    σ' = {| store := store σ; logged := logged σ ++ warnings;
            font_strings := font_strings σ |}
    ∧ r.1 = extra_fields_of (Some extra_field_data) <$> references
    ∧ r.2 = list_true warnings)).
  - simpl. rewrite app_nil_r. by destruct σ.
  - intros done f rest [e warning_shown] σ1 _ (-> & He & Hw).
    simpl in He, Hw. subst e.
    apply returns_bind, returns_call.
    unfold missing_warnings.
    rewrite !fmap_app, filter_app, fmap_app, !fmap_cons, !fmap_nil.
    rewrite filter_cons, filter_nil. cbv zeta. cbn [store].
    destruct (extra_field_data !! fp_GetReference (store σ !!! f))
      as [fields |] eqn:Hlook.
    + rewrite decide_False by done.
      replace (bool_decide (is_Some (Some fields))) with true
        by (symmetry; apply bool_decide_eq_true; by eexists).
      apply returns_ret.
      cbn [fst snd]. unfold missing_warnings in Hw.
      rewrite fmap_nil, !app_nil_r.
      split; [done |]. split; [| done].
      f_equal. unfold extra_fields_of. by rewrite Hlook.
    + rewrite decide_True by done.
      replace (bool_decide (is_Some (@None (gmap string string)))) with false
        by (symmetry; apply bool_decide_eq_false; by intros [? ?]).
      apply returns_bind, returns_logger, returns_ret.
      cbn [fst snd store logged font_strings].
      rewrite app_assoc. split; [done |]. split.
      * f_equal. unfold extra_fields_of. by rewrite Hlook.
      * by destruct (_ <$> filter _ _).
Qed.

Lemma filter_other_layer {A} (get : A → layer) (f_layer b_layer : layer)
    (l : list A) :
  b_layer ≠ f_layer →
  filter (λ d, get d = b_layer ∧ get d ≠ f_layer) l
  = filter (λ d, get d = b_layer) l.
Proof.
  intros Hne. induction l as [| d l IH]; [done |].
  rewrite !filter_cons, IH. repeat case_decide; try done.
  - tauto.
  - exfalso. naive_solver.
Qed.

Lemma zip_fmap_self {A B} (g : A → B) (l : list A) :
  zip l (g <$> l) = (λ x, (x, g x)) <$> l.
Proof. induction l as [| x l IH]; [done |]. csimpl. by f_equal. Qed.

Lemma replicate_fmap_const {A B} (b : B) (l : list A) :
  replicate (length l) b = (λ _, b) <$> l.
Proof. induction l as [| x l IH]; [done |]. csimpl. by f_equal. Qed.

Lemma extra_data_step (need : bool)
    (extra : option (gmap string (gmap string string))) (fs : list ref) σ :
  returns
    (match extra with
     | Some extra_field_data =>
         if negb (bool_decide (extra_field_data = ∅)) && need then
           for_each fs ([] : list (gmap string string), false)
             (λ '(e, warning_shown) f,
                reference ← call f fp_GetReference;
                let e := e ++ [default (∅ : gmap string string)
                                  (extra_field_data !! reference)] in
                if negb (bool_decide (is_Some (extra_field_data !! reference)))
                then
                  _ ← logger_warn "Component %s is missing from schematic data."
                        [arg_str reference];
                  mret (e, true)
                else mret (e, warning_shown))
         else mret (replicate (length fs) (∅ : gmap string string), false)
     | None => mret (replicate (length fs) (∅ : gmap string string), false)
     end) σ
    (λ r σ',
       σ' = {| store := store σ;
               logged :=
                 logged σ
                 ++ missing_warnings (data_used need extra)
                      ((λ f, fp_GetReference (store σ !!! f)) <$> fs);
               font_strings := font_strings σ |}
       ∧ r.1 = extra_fields_of (data_used need extra)
               <$> ((λ f, fp_GetReference (store σ !!! f)) <$> fs)
       ∧ r.2 = list_true
                 (missing_warnings (data_used need extra)
                    ((λ f, fp_GetReference (store σ !!! f)) <$> fs))).
Proof.
  unfold data_used. destruct extra as [extra_field_data |].
  - destruct (negb (bool_decide (extra_field_data = ∅)) && need).
    + apply missing_loop_spec.
    + apply returns_ret. cbn [fst snd missing_warnings]. rewrite app_nil_r.
      split; [by destruct σ |]. split; [| done].
      by rewrite replicate_fmap_const, <- list_fmap_compose.
  - apply returns_ret. cbn [fst snd missing_warnings]. rewrite app_nil_r.
    split; [by destruct σ |]. split; [| done].
    by rewrite replicate_fmap_const, <- list_fmap_compose.
Qed.

Lemma assemble_full host self need extra title revision company file_date
    found_edges bbox σ :
  Forall (λ f, f ∈ dom (store σ)) (footprints self) →
  returns (assemble host self need extra title revision company file_date
             found_edges bbox) σ (λ r σ',
    preserves σ σ'
    ∧ ∃ doc comps,
        r = (Some doc, Some comps)
        ∧ edges doc = found_edges
        ∧ assembled host self (store σ) (data_used need extra)
            {| md_title := title; md_revision := revision;
               md_company := company; md_date := file_date |}
            bbox doc comps σ').
Proof.
  intros Hdom. unfold assemble.
  apply returns_bind. eapply returns_mono; [apply get_all_drawings_spec |].
  intros drawings ? [-> ->]. fold (all_drawings self (store σ)).
  apply returns_bind. eapply returns_mono;
    [apply parse_drawings_on_layers_spec |].
  intros silk σ2 (Hs2 & HsilkF & HsilkB).
  rewrite filter_other_layer in HsilkB by done.
  apply returns_bind. eapply returns_mono;
    [apply parse_drawings_on_layers_spec |].
  intros fab σ3 (Hs3 & HfabF & HfabB).
  rewrite filter_other_layer in HfabB by done.
  rewrite (same_store_store _ _ Hs2) in HfabF, HfabB.
  assert (preserves σ σ3) as Hp3.
  { eapply preserves_same_store; [| exact Hs3].
    eapply preserves_same_store; [| exact Hs2]. apply preserves_refl. }
  apply returns_bind. eapply returns_mono;
    [by apply (parse_footprints_spec host self σ) |].
  intros fps σ4 [Hp4 _].
  apply returns_bind. unfold get_parsed_font_now at 1.
  eexists _, _. split; [reflexivity |].
  apply returns_bind.
  apply (returns_mono _ _ (λ tz σ',
    same_store σ4 σ'
    ∧ font_strings σ' = font_strings σ4
    ∧ tz.2 = if include_tracks (config self)
             then Some (zones_record self) else None)).
  { unfold zones_record. destruct (include_tracks (config self));
      [| apply returns_ret; split; [apply same_store_refl | done]].
    destruct (Zones (board self)) as [board_zones |].
    - apply returns_bind. eapply returns_mono; [apply parse_zones_spec |].
      intros [zf zb] σ5 (Hs5 & Hf5 & HzF & HzB). simpl in HzF, HzB.
      apply returns_ret. split; [done |]. split; [done |]. simpl.
      by rewrite HzF, HzB.
    - apply returns_bind, returns_logger, returns_ret.
      split; [apply same_store_logged | done]. }
  intros [tracks_ zones_] σ5 (Hs5 & Hf5 & Hzones). simpl in Hzones.
  assert (preserves σ σ5) as Hp5 by (by eapply preserves_same_store).
  assert (∀ f, f ∈ footprints self → store σ5 !!! f = store σ !!! f) as Hobj.
  { intros f Hf. apply extends_lookup_total; [apply Hp5 |].
    by eapply Forall_forall in Hdom. }
  apply returns_bind. eapply returns_mono; [apply extra_data_step |].
  intros [e warning_shown] σ6 (-> & He & Hw). simpl in He, Hw.
  assert ((λ f, fp_GetReference (store σ5 !!! f)) <$> footprints self
          = (λ f, fp_GetReference (store σ !!! f)) <$> footprints self)
    as Hrefs.
  { apply Forall_fmap_ext, Forall_forall. intros f Hf. by rewrite Hobj. }
  rewrite Hrefs in He, Hw |- *. clear Hrefs.
  set (warnings :=
         missing_warnings (data_used need extra)
           ((λ f, fp_GetReference (store σ !!! f)) <$> footprints self))
    in *.
  apply returns_bind.
  apply (returns_mono _ _ (λ _ σ',
    σ' = {| store := store σ5;
            logged := logged σ5 ++ warnings
                      ++ (if list_true warnings
                          then [out_of_date_warning] else []);
            font_strings := font_strings σ5 |})).
  { subst warning_shown. destruct (list_true warnings).
    - apply returns_logger. simpl. by rewrite <- app_assoc.
    - apply returns_ret. by rewrite app_nil_r. }
  intros _ σ7 ->.
  apply returns_bind. eapply returns_mono; [apply components_spec |].
  intros comps ? [-> ->]. apply returns_ret.
  split.
  { eapply preserves_same_store; [exact Hp5 |].
    split; [done |]. simpl. by apply prefix_app_r. }
  eexists _, _. split; [reflexivity |]. split; [done |].
  unfold assembled. simpl.
  split; [done |]. split; [done |].
  split; [done |]. split; [done |]. split; [done |]. split; [done |].
  split; [done |]. split; [by rewrite Hf5 |].
  split; [| by eexists].
  subst e. rewrite <- list_fmap_compose, zip_fmap_self, <- list_fmap_compose.
  apply Forall_fmap_ext, Forall_forall. intros f Hf. simpl.
  by rewrite (Hobj f Hf).
Qed.

Lemma parse_tail_full host self need extra title revision company file_date σ :
  Forall (λ f, f ∈ dom (store σ)) (footprints self) →
  outline_drawings host self (board self) (store σ) ≠ [] →
  returns
    ('(found_edges, bbox) ← parse_edges host self (board self);
     match bbox with
     | None =>
         _ ← logger_error
               ("Please draw pcb outline on the edges " ++
                "layer on sheet or any footprint before " ++
                "generating BOM.") [];
         mret (None, None)
     | Some bbox =>
         assemble host self need extra title revision company file_date
           found_edges bbox
     end) σ
    (λ r σ',
       preserves σ σ'
       ∧ ∃ doc comps box,
           r = (Some doc, Some comps)
           ∧ merged_box (GetBoundingBox
                           <$> outline_drawings host self (board self)
                                 (store σ))
             = Some box
           ∧ assembled host self (store σ) (data_used need extra)
               {| md_title := title; md_revision := revision;
                  md_company := company; md_date := file_date |}
               (rect_Normalize box) doc comps σ').
Proof.
  intros Hdom Hne. apply returns_bind.
  eapply returns_mono; [apply parse_edges_bbox |].
  intros [found_edges bbox] σ1 (Hs1 & _ & _ & Hbox). simpl in Hbox.
  destruct (outline_drawings host self (board self) (store σ))
    as [| d ds] eqn:Hout; [done |].
  simpl in Hbox. subst bbox.
  eapply returns_mono.
  { apply assemble_full. by rewrite (same_store_store _ _ Hs1). }
  intros r σ' (Hp & doc & comps & -> & _ & Hdoc).
  split.
  { destruct Hp as [Hext Hlog], Hs1 as [Hst1 Hlog1].
    split; [by rewrite <- Hst1 | by etrans]. }
  exists doc, comps, (foldl rect_Merge (GetBoundingBox d) (GetBoundingBox <$>
      ds)).
  split; [done |]. split; [done |].
  by rewrite (same_store_store _ _ Hs1) in Hdoc.
Qed.

Lemma parse_reduces host self σ :
  (fields_needed (config self) = true →
   is_Some (extra_data_read host (config self))) →
  ∃ σ1,
    store σ1 = store σ
    ∧ logged σ `prefix_of` logged σ1
    ∧ parse host self σ
      = ('(found_edges, bbox) ← parse_edges host self (board self);
         match bbox with
         | None =>
             _ ← logger_error
                   ("Please draw pcb outline on the edges " ++
                    "layer on sheet or any footprint before " ++
                    "generating BOM.") [];
             mret (None, None)
         | Some bbox =>
             assemble host self (fields_needed (config self))
               (schematic_data host (config self))
               (md_title (document_metadata host self))
               (md_revision (document_metadata host self))
               (md_company (document_metadata host self))
               (md_date (document_metadata host self))
               found_edges bbox
         end) σ1.
Proof.
  intros Hdata.
  unfold fields_needed, schematic_data, document_metadata, expanded in *.
  unfold parse. fold (fields_requested (config self)).
  fold (extra_data_read host (config self)).
  cbn [md_title md_revision md_company md_date].
  destruct (fields_requested (config self)) eqn:Hreq;
    destruct (str_true (netlist_file (config self))) eqn:Hfile;
    destruct (bool_decide (is_Some (extra_data_read host (config self))))
      eqn:Hread;
    simpl negb; simpl andb; cbv iota.
  2: { apply bool_decide_eq_false in Hread. destruct Hread. by apply Hdata. }
  all: destruct (ExpandTextVars (board self)); cbv zeta iota beta.
  all: destruct (str_true (GetDate (GetTitleBlock (board self))));
    simpl negb; cbv iota.
  all: match goal with
       | |- context [str_true ?s] => destruct (str_true s)
       end; simpl negb; cbv iota.
  all: eexists; split; [| split]; [| | reflexivity].
  all: try done.
  all: simpl; by apply prefix_app_r.
Qed.

Lemma parse_full host self σ :
  Forall (λ f, f ∈ dom (store σ)) (footprints self) →
  outline_drawings host self (board self) (store σ) ≠ [] →
  (fields_needed (config self) = true →
   is_Some (extra_data_read host (config self))) →
  ∃ doc comps σ' box,
    parse host self σ = (Return (Some doc, Some comps), σ')
    ∧ preserves σ σ'
    ∧ merged_box (GetBoundingBox
                    <$> outline_drawings host self (board self) (store σ))
      = Some box
    ∧ assembled host self (store σ)
        (data_used (fields_needed (config self))
           (schematic_data host (config self)))
        (document_metadata host self) (rect_Normalize box) doc comps σ'.
Proof.
  intros Hdom Hne Hdata.
  destruct (parse_reduces host self σ Hdata) as (σ1 & Hst & Hlog & ->).
  edestruct (parse_tail_full host self) as (r & σ' & Hrun & Hp & Hpost);
    [| | rewrite Hrun]; [by rewrite Hst | by rewrite Hst |].
  destruct Hpost as (doc & comps & box & -> & Hbox & Hdoc).
  exists doc, comps, σ', box. split; [done |].
  split.
  { destruct Hp as [Hext Hlog']. split; [by rewrite <- Hst | by etrans]. }
  rewrite Hst in Hbox, Hdoc. split; [exact Hbox |].
  by destruct (document_metadata host self).
Qed.

(** ** The board record of [parse] *)

(** X14. The metadata of the board record: the title, revision and
    company of the title block, with text variables expanded where the host
    can expand them, and the date of the title block as it is. An empty
    title is replaced by the name of the board file without directory and
    extension, an empty date by the modification time of the board file;
    revision and company have no replacement. *)
Theorem parse_metadata (host : Host) (self : PcbnewParser) (σ : state) :
  Forall (λ f, f ∈ dom (store σ)) (footprints self) →
  outline_drawings host self (board self) (store σ) ≠ [] →
  (fields_needed (config self) = true →
   is_Some (extra_data_read host (config self))) →
  ∃ doc comps σ',
    parse host self σ = (Return (Some doc, Some comps), σ')
    ∧ metadata doc = document_metadata host self.
Proof.
  intros Hdom Hne Hdata.
  destruct (parse_full host self σ Hdom Hne Hdata)
    as (doc & comps & σ' & box & Hrun & Hp & Hbox & Hdoc).
  destruct Hdoc as (Hbb & Hmeta & HsF & HsB & HfF & HfB & Hz & Hfont & Hcomps
                    & Hlog).
  exists doc, comps, σ'. by split.
Qed.

Lemma parse_metadata_witness :
  Forall (λ f, f ∈ dom (store demo_state)) (footprints demo_parser)
  ∧ outline_drawings demo_host demo_parser (board demo_parser) (store
      demo_state) ≠ []
  ∧ (fields_needed (config demo_parser) = true →
     is_Some (extra_data_read demo_host (config demo_parser)))
  ∧ ∃ doc comps σ',
      parse demo_host demo_parser demo_state
      = (Return (Some doc, Some comps), σ')
      ∧ metadata doc = document_metadata demo_host demo_parser.
Proof.
  assert (Forall (λ f, f ∈ dom (store demo_state)) (footprints demo_parser))
      as Hfps.
  { constructor; [vm_compute; done | constructor]. }
  assert (outline_drawings demo_host demo_parser (board demo_parser) (store
      demo_state) ≠ [])
    as Houtline.
  { vm_compute. discriminate. }
  assert (fields_needed (config demo_parser) = true →
          is_Some (extra_data_read demo_host (config demo_parser))) as Hdata.
  { intros Hreq. vm_compute in Hreq. discriminate. }
  split; [exact Hfps |]. split; [exact Houtline |]. split; [exact Hdata |].
  exact (parse_metadata demo_host demo_parser demo_state Hfps Houtline Hdata).
Defined.

(** X15. The ["edges_bbox"] of the board record is read from the
    normalized merge of the bounding boxes of the outline drawings: its
    minimum is the position of that box, its maximum the right and bottom
    of that box, in millimetres. *)
Theorem parse_edges_bbox_of_outline (host : Host) (self : PcbnewParser) (σ :
    state) :
  Forall (λ f, f ∈ dom (store σ)) (footprints self) →
  outline_drawings host self (board self) (store σ) ≠ [] →
  (fields_needed (config self) = true →
   is_Some (extra_data_read host (config self))) →
  ∃ doc comps σ' box,
    parse host self σ = (Return (Some doc, Some comps), σ')
    ∧ merged_box (GetBoundingBox
                    <$> outline_drawings host self (board self)
                          (store σ))
      = Some box
    ∧ edges_bbox doc = bbox_record (rect_Normalize box).
Proof.
  intros Hdom Hne Hdata.
  destruct (parse_full host self σ Hdom Hne Hdata)
    as (doc & comps & σ' & box & Hrun & Hp & Hbox & Hdoc).
  destruct Hdoc as (Hbb & Hmeta & HsF & HsB & HfF & HfB & Hz & Hfont & Hcomps
                    & Hlog).
  exists doc, comps, σ', box. by split.
Qed.

Lemma parse_edges_bbox_of_outline_witness :
  Forall (λ f, f ∈ dom (store demo_state)) (footprints demo_parser)
  ∧ outline_drawings demo_host demo_parser (board demo_parser) (store
      demo_state) ≠ []
  ∧ (fields_needed (config demo_parser) = true →
     is_Some (extra_data_read demo_host (config demo_parser)))
  ∧ ∃ doc comps σ' box,
      parse demo_host demo_parser demo_state
      = (Return (Some doc, Some comps), σ')
      ∧ merged_box (GetBoundingBox
                      <$> outline_drawings demo_host demo_parser (board
                          demo_parser)
                            (store demo_state))
        = Some box
      ∧ edges_bbox doc = bbox_record (rect_Normalize box).
Proof.
  assert (Forall (λ f, f ∈ dom (store demo_state)) (footprints demo_parser))
      as Hfps.
  { constructor; [vm_compute; done | constructor]. }
  assert (outline_drawings demo_host demo_parser (board demo_parser) (store
      demo_state) ≠ [])
    as Houtline.
  { vm_compute. discriminate. }
  assert (fields_needed (config demo_parser) = true →
          is_Some (extra_data_read demo_host (config demo_parser))) as Hdata.
  { intros Hreq. vm_compute in Hreq. discriminate. }
  split; [exact Hfps |]. split; [exact Houtline |]. split; [exact Hdata |].
  exact (parse_edges_bbox_of_outline demo_host demo_parser demo_state Hfps
      Houtline Hdata).
Defined.

(** X16. The board record has the keys ["tracks"] and ["zones"] together,
    exactly when tracks are included by the configuration. On a host whose
    board has no [Zones], the zones are then present and empty on both
    sides; otherwise they are the zones [parse_zones] lists per side. *)
Theorem parse_tracks_and_zones (host : Host) (self : PcbnewParser) (σ : state) :
  Forall (λ f, f ∈ dom (store σ)) (footprints self) →
  outline_drawings host self (board self) (store σ) ≠ [] →
  (fields_needed (config self) = true →
   is_Some (extra_data_read host (config self))) →
  ∃ doc comps σ',
    parse host self σ = (Return (Some doc, Some comps), σ')
    ∧ tracks doc
      = (if include_tracks (config self)
         then Some (parse_tracks self (GetTracks (board self))) else None)
    ∧ zones doc
      = (if include_tracks (config self)
         then Some (zones_record self) else None).
Proof.
  intros Hdom Hne Hdata.
  destruct (parse_full host self σ Hdom Hne Hdata)
    as (doc & comps & σ' & box & Hrun & Hp & Hbox & Hdoc).
  destruct Hdoc as (Hbb & Hmeta & HsF & HsB & HfF & HfB & Hz & Hfont & Hcomps
                    & Hlog).
  exists doc, comps, σ'. split; [done |]. split; [| done].
  apply (parse_document host self σ doc comps σ' Hrun).
Qed.

Lemma parse_tracks_and_zones_witness :
  Forall (λ f, f ∈ dom (store demo_state)) (footprints demo_parser)
  ∧ outline_drawings demo_host demo_parser (board demo_parser) (store
      demo_state) ≠ []
  ∧ (fields_needed (config demo_parser) = true →
     is_Some (extra_data_read demo_host (config demo_parser)))
  ∧ ∃ doc comps σ',
      parse demo_host demo_parser demo_state
      = (Return (Some doc, Some comps), σ')
      ∧ tracks doc
        = (if include_tracks (config demo_parser)
           then Some (parse_tracks demo_parser (GetTracks (board
               demo_parser))) else None)
      ∧ zones doc
        = (if include_tracks (config demo_parser)
           then Some (zones_record demo_parser) else None).
Proof.
  assert (Forall (λ f, f ∈ dom (store demo_state)) (footprints demo_parser))
      as Hfps.
  { constructor; [vm_compute; done | constructor]. }
  assert (outline_drawings demo_host demo_parser (board demo_parser) (store
      demo_state) ≠ [])
    as Houtline.
  { vm_compute. discriminate. }
  assert (fields_needed (config demo_parser) = true →
          is_Some (extra_data_read demo_host (config demo_parser))) as Hdata.
  { intros Hreq. vm_compute in Hreq. discriminate. }
  split; [exact Hfps |]. split; [exact Houtline |]. split; [exact Hdata |].
  exact (parse_tracks_and_zones demo_host demo_parser demo_state Hfps Houtline
      Hdata).
Defined.

(** X17. The silkscreen and fabrication drawings of the board record are
    taken from one list, the drawings of the board followed by the
    reference, value and graphical items of every footprint: each of the
    four lists holds, in that order, the entries of the drawings on its
    layer that [parse_drawing] does not skip, the reference and value texts
    marked as such. *)
Theorem parse_layer_drawings (host : Host) (self : PcbnewParser) (σ : state) :
  Forall (λ f, f ∈ dom (store σ)) (footprints self) →
  outline_drawings host self (board self) (store σ) ≠ [] →
  (fields_needed (config self) = true →
   is_Some (extra_data_read host (config self))) →
  ∃ doc comps σ',
    parse host self σ = (Return (Some doc, Some comps), σ')
    ∧ F (drawings_silkscreen doc)
      = layer_entries host (store σ) (all_drawings self (store σ))
          F_SilkS
    ∧ B (drawings_silkscreen doc)
      = layer_entries host (store σ) (all_drawings self (store σ))
          B_SilkS
    ∧ F (drawings_fabrication doc)
      = layer_entries host (store σ) (all_drawings self (store σ))
          F_Fab
    ∧ B (drawings_fabrication doc)
      = layer_entries host (store σ) (all_drawings self (store σ))
          B_Fab.
Proof.
  intros Hdom Hne Hdata.
  destruct (parse_full host self σ Hdom Hne Hdata)
    as (doc & comps & σ' & box & Hrun & Hp & Hbox & Hdoc).
  destruct Hdoc as (Hbb & Hmeta & HsF & HsB & HfF & HfB & Hz & Hfont & Hcomps
                    & Hlog).
  exists doc, comps, σ'. by repeat split.
Qed.

Lemma parse_layer_drawings_witness :
  Forall (λ f, f ∈ dom (store demo_state)) (footprints demo_parser)
  ∧ outline_drawings demo_host demo_parser (board demo_parser) (store
      demo_state) ≠ []
  ∧ (fields_needed (config demo_parser) = true →
     is_Some (extra_data_read demo_host (config demo_parser)))
  ∧ ∃ doc comps σ',
      parse demo_host demo_parser demo_state
      = (Return (Some doc, Some comps), σ')
      ∧ F (drawings_silkscreen doc)
        = layer_entries demo_host (store demo_state) (all_drawings demo_parser
            (store demo_state))
            F_SilkS
      ∧ B (drawings_silkscreen doc)
        = layer_entries demo_host (store demo_state) (all_drawings demo_parser
            (store demo_state))
            B_SilkS
      ∧ F (drawings_fabrication doc)
        = layer_entries demo_host (store demo_state) (all_drawings demo_parser
            (store demo_state))
            F_Fab
      ∧ B (drawings_fabrication doc)
        = layer_entries demo_host (store demo_state) (all_drawings demo_parser
            (store demo_state))
            B_Fab.
Proof.
  assert (Forall (λ f, f ∈ dom (store demo_state)) (footprints demo_parser))
      as Hfps.
  { constructor; [vm_compute; done | constructor]. }
  assert (outline_drawings demo_host demo_parser (board demo_parser) (store
      demo_state) ≠ [])
    as Houtline.
  { vm_compute. discriminate. }
  assert (fields_needed (config demo_parser) = true →
          is_Some (extra_data_read demo_host (config demo_parser))) as Hdata.
  { intros Hreq. vm_compute in Hreq. discriminate. }
  split; [exact Hfps |]. split; [exact Houtline |]. split; [exact Hdata |].
  exact (parse_layer_drawings demo_host demo_parser demo_state Hfps Houtline
      Hdata).
Defined.

(** X18. [parse] returns one component per footprint of the board, in
    the order of the footprints, built from the footprint as it was before
    the run. Its extra fields are those the schematic data has for the
    reference of the footprint; they are empty when the data has no entry
    for the reference, when the data is empty, and when no extra field is
    needed, even if a netlist file was read. *)
Theorem parse_components (host : Host) (self : PcbnewParser) (σ : state) :
  Forall (λ f, f ∈ dom (store σ)) (footprints self) →
  outline_drawings host self (board self) (store σ) ≠ [] →
  (fields_needed (config self) = true →
   is_Some (extra_data_read host (config self))) →
  ∃ doc comps σ',
    parse host self σ = (Return (Some doc, Some comps), σ')
    ∧ comps
      = (λ f, component_record host (store σ !!! f)
                (extra_fields_of
                   (data_used (fields_needed (config self))
                      (schematic_data host (config self)))
                   (fp_GetReference (store σ !!! f))))
        <$> footprints self.
Proof.
  intros Hdom Hne Hdata.
  destruct (parse_full host self σ Hdom Hne Hdata)
    as (doc & comps & σ' & box & Hrun & Hp & Hbox & Hdoc).
  destruct Hdoc as (Hbb & Hmeta & HsF & HsB & HfF & HfB & Hz & Hfont & Hcomps
                    & Hlog).
  exists doc, comps, σ'. by split.
Qed.

Lemma parse_components_witness :
  Forall (λ f, f ∈ dom (store demo_state)) (footprints schematic_parser)
  ∧ outline_drawings (schematic_host "R1") schematic_parser (board
      schematic_parser) (store demo_state) ≠ []
  ∧ (fields_needed (config schematic_parser) = true →
     is_Some (extra_data_read (schematic_host "R1") (config schematic_parser)))
  ∧ ∃ doc comps σ',
      parse (schematic_host "R1") schematic_parser demo_state
      = (Return (Some doc, Some comps), σ')
      ∧ comps
        = (λ f, component_record (schematic_host "R1") (store demo_state !!! f)
                  (extra_fields_of
                     (data_used (fields_needed (config schematic_parser))
                        (schematic_data (schematic_host "R1") (config
                            schematic_parser)))
                     (fp_GetReference (store demo_state !!! f))))
          <$> footprints schematic_parser.
Proof.
  assert (Forall (λ f, f ∈ dom (store demo_state)) (footprints
      schematic_parser)) as Hfps.
  { constructor; [vm_compute; done | constructor]. }
  assert (outline_drawings (schematic_host "R1") schematic_parser (board
      schematic_parser) (store demo_state) ≠ [])
    as Houtline.
  { vm_compute. discriminate. }
  assert (fields_needed (config schematic_parser) = true →
          is_Some (extra_data_read (schematic_host "R1") (config
              schematic_parser))) as Hdata.
  { intros _. vm_compute. by eexists. }
  split; [exact Hfps |]. split; [exact Houtline |]. split; [exact Hdata |].
  exact (parse_components (schematic_host "R1") schematic_parser demo_state
      Hfps Houtline Hdata).
Defined.

(** ** What [parse_drawing] logs *)

Lemma parse_shape_log (d : BOARD_ITEM) σ :
  returns (parse_shape d) σ (λ r σ',
    (r = None →
     logged σ'
     = logged σ
       ++ match GetShape d with
          | S_OTHER _ =>
              [{| lvl := INFO; fmt := "Unsupported shape %s, skipping";
                  args := [arg_shape (GetShape d)] |}]
          | S_POLYGON =>
              [{| lvl := INFO;
                  fmt := "Polygons not supported for KiCad 4, skipping";
                  args := [] |}]
          | _ => []
          end)
    ∧ (r ≠ None →
       logged σ'
       = logged σ
         ++ match GetShape d, GetPolyShape d with
            | S_POLYGON, Some poly_shape =>
                if forallb has_PointCount (Outlines poly_shape) then []
                else [no_PointCount_warning]
            | _, _ => []
            end)).
Proof.
  unfold parse_shape.
  destruct (GetShape d) eqn:Hshape; simpl.
  - apply returns_ret. split; [done | by rewrite app_nil_r].
  - apply returns_ret. split; [done | by rewrite app_nil_r].
  - destruct (Qltb (GetAngle d) 0); apply returns_ret;
      (split; [done | by rewrite app_nil_r]).
  - apply returns_ret. split; [done | by rewrite app_nil_r].
  - destruct (GetPolyShape d) as [ps |].
    + apply returns_bind. eapply returns_mono; [apply parse_poly_set_spec |].
      intros polys σ1 (-> & Hst & Hfont & Hlog).
      destruct (GetParentFootprint d);
        repeat (apply returns_bind || apply returns_call || apply returns_ret);
        (split; [done |]; intros _; exact Hlog).
    + apply returns_bind, returns_logger, returns_ret. split; [done | done].
  - apply returns_ret. split; [done | by rewrite app_nil_r].
  - apply returns_bind, returns_logger, returns_ret. split; [done | done].
Qed.

(** X21. When [parse_drawing] skips a drawing it logs one record at level
    info that says why, except for a text that is not visible, which it
    drops without a record. When it returns a record it logs nothing,
    except one warning of [parse_poly_set] for a polygon with an outline
    that cannot be enumerated. *)
Theorem parse_drawing_log (host : Host) (d : BOARD_ITEM) (σ : state) :
  ∃ r σ',
    parse_drawing host d σ = (Return r, σ')
    ∧ (r = None → logged σ' = logged σ ++ skip_records d)
    ∧ (r ≠ None → logged σ' = logged σ ++ record_warnings d).
Proof.
  unfold parse_drawing, skip_records, record_warnings.
  destruct (bool_decide (GetClass d ∈ ["DRAWSEGMENT"; "MGRAPHIC"; "PCB_SHAPE"])).
  - destruct (parse_shape_log d σ) as (r & σ' & Hrun & Hnone & Hsome).
    by exists r, σ'.
  - destruct (bool_decide (GetClass d ∈ ["PTEXT"; "MTEXT"])).
    + destruct (parse_text_spec host d σ) as (r & σ' & Hrun & _ & Hlog & _).
      exists r, σ'. split; [done |]. rewrite Hlog, app_nil_r.
      split; [done | done].
    + eexists _, _. split; [reflexivity |]. split; [done | done].
Qed.

(** ** The plugin *)

(** X22. [Run] never lets a [ParsingException] escape: whatever
    [run_with_dialog] does, [Run] returns. For a board without a file name
    it logs one error and does not call [run_with_dialog]; otherwise it
    calls [run_with_dialog] once on a parser for the board and, if that
    raises a [ParsingException], logs its message as one error after
    whatever the call logged. *)
Theorem Run_catches_ParsingException
    (run_with_dialog : PcbnewParser → Config → M unit)
    (config : Config) (board : BOARD) (pcb_file_name : string) (σ : state) :
  ∃ σ',
    Run run_with_dialog config board pcb_file_name σ = (Return (), σ')
    ∧ (pcb_file_name = "" →
       σ' = {| store := store σ;
               logged :=
                 logged σ
                 ++ [{| lvl := ERROR;
                        fmt := "Please save the board file before generating BOM.";
                        args := [] |}];
               font_strings := font_strings σ |})
    ∧ (pcb_file_name ≠ "" →
       match run_with_dialog
               (PcbnewParser_init pcb_file_name config board) config σ with
       | (Return _, σ1) => σ' = σ1
       | (Raise (ParsingException e), σ1) =>
           σ' = {| store := store σ1;
                   logged := logged σ1
                             ++ [{| lvl := ERROR; fmt := e; args := [] |}];
                   font_strings := font_strings σ1 |}
       end).
Proof.
  unfold Run, str_true.
  destruct (decide (pcb_file_name = "")) as [-> | Hname].
  - eexists. split; [reflexivity |]. split; [done | by intros []].
  - rewrite bool_decide_eq_false_2 by done. simpl.
    destruct (run_with_dialog _ config σ) as [[[] | [e]] σ1].
    + eexists. split; [reflexivity |]. split; [done | done].
    + eexists. split; [reflexivity |]. split; [done | done].
Qed.

(** ** The latest schematic data *)

Lemma searched_directories (os_path : OsPath) (self : PcbnewParser)
    (dirs acc : list string) :
  foldl (λ directories dir,
           let dir :=
             if negb (os_path_isabs os_path dir)
             then os_path_join os_path
                    (os_path_dirname os_path (file_name self)) dir
             else dir in
           if os_path_exists os_path dir
           then directories ++ [dir] else directories)
        acc dirs
  = acc ++ filter (λ dir, os_path_exists os_path dir = true)
             (resolved os_path self <$> dirs).
Proof.
  revert acc. induction dirs as [| dir dirs IH]; intros acc.
  { by rewrite app_nil_r. }
  cbn [foldl]. rewrite IH, fmap_cons, filter_cons. cbv zeta.
  assert ((if negb (os_path_isabs os_path dir)
           then os_path_join os_path
                  (os_path_dirname os_path (file_name self)) dir
           else dir) = resolved os_path self dir) as ->.
  { unfold resolved. by destruct (os_path_isabs os_path dir). }
  generalize (resolved os_path self dir). intros r.
  destruct (os_path_exists os_path r) eqn:Hexists.
  - rewrite decide_True by done. by rewrite <- app_assoc.
  - rewrite decide_False by done. done.
Qed.

(** X23. Called without [extra_dirs], [latest_extra_data] fails with an
    [AttributeError] before it searches anything. Called with a list, it
    appends the plot output directory of the board to the list of its
    caller, and searches the directory of the board file first, then those
    entries of the extended list that exist, relative ones taken from the
    directory of the board file, in the order of the list; a directory that
    does not exist is never searched. *)
Theorem latest_extra_data_directories (host : Host) (os_path : OsPath)
    (find_latest_schematic_data : string → list string → option string)
    (self : PcbnewParser) (output_directory : string) :
  (∃ message,
     latest_extra_data host os_path find_latest_schematic_data self
       output_directory None
     = AttributeError message)
  ∧ ∀ extra_dirs,
      latest_extra_data host os_path find_latest_schematic_data self
        output_directory (Some extra_dirs)
      = Returned
          (find_latest_schematic_data
             (os_path_splitext0 host (os_path_basename host (file_name self)))
             (os_path_dirname os_path (file_name self)
              :: filter (λ dir, os_path_exists os_path dir = true)
                   (resolved os_path self
                      <$> extra_dirs ++ [output_directory])),
           extra_dirs ++ [output_directory]).
Proof.
  split; [by eexists |]. intros extra_dirs.
  unfold latest_extra_data. by rewrite searched_directories.
Qed.

(** ** What [parse_pad] logs *)

(** X24. For a pad of a supported shape, [parse_pad] logs nothing unless
    the shape is custom. For a custom pad it warns about holes in the
    polygons, then about self intersections, then about an outline that
    cannot be enumerated, each once and only when it applies, and still
    returns the pad, with the polygons that can be enumerated. *)
Theorem parse_pad_custom_warnings (host : Host) (self : PcbnewParser)
    (p : PAD) (σ : state) :
  pad_shape_name host (pad_GetShape p) ≠ "" →
  ∃ pd σ',
    parse_pad host self p σ = (Return (Some pd), σ')
    ∧ logged σ'
      = logged σ
        ++ (if decide (pad_shape_name host (pad_GetShape p) = "custom")
            then custom_pad_warnings (pad_GetCustomShapeAsPolygon p)
            else [])
    ∧ pd_polygons pd
      = (if decide (pad_shape_name host (pad_GetShape p) = "custom")
         then Some (outline_points
                      <$> enumerable_prefix
                            (Outlines (pad_GetCustomShapeAsPolygon p)))
         else None).
Proof.
  intros Hshape.
  cut (returns (parse_pad host self p) σ (λ r σ',
         ∃ pd, r = Some pd
           ∧ logged σ'
             = logged σ
               ++ (if decide (pad_shape_name host (pad_GetShape p) = "custom")
                   then custom_pad_warnings (pad_GetCustomShapeAsPolygon p)
                   else [])
           ∧ pd_polygons pd
             = (if decide (pad_shape_name host (pad_GetShape p) = "custom")
                then Some (outline_points
                             <$> enumerable_prefix
                                   (Outlines (pad_GetCustomShapeAsPolygon p)))
                else None))).
  { intros (r & σ' & Hrun & pd & -> & Hlog & Hpoly). by exists pd, σ'. }
  unfold parse_pad. cbv zeta. rewrite (shape_lookup_name host).
  destruct (decide (pad_shape_name host (pad_GetShape p) = ""))
    as [| _]; [done |].
  apply returns_bind.
  destruct (decide (pad_shape_name host (pad_GetShape p) = "custom"))
    as [Hcustom | Hcustom].
  - unfold custom_pad_warnings.
    destruct (HasHoles (pad_GetCustomShapeAsPolygon p));
      destruct (IsSelfIntersecting (pad_GetCustomShapeAsPolygon p));
      repeat first [ apply returns_bind | apply returns_logger
                   | apply returns_ret ];
      (eapply returns_mono; [apply parse_poly_set_spec |]);
      intros polys σ1 (-> & _ & _ & Hlog); simpl in Hlog;
      repeat apply returns_ret;
      (eexists; split; [reflexivity |]); simpl;
      (split; [| reflexivity]); rewrite Hlog;
      by rewrite <- ?app_assoc, ?app_nil_r.
  - repeat apply returns_ret. eexists. split; [reflexivity |]. simpl.
    by rewrite app_nil_r.
Qed.

Lemma parse_pad_custom_warnings_witness :
  pad_shape_name demo_host (pad_GetShape custom_pad) ≠ ""
  ∧ ∃ pd σ',
      parse_pad demo_host demo_parser custom_pad demo_state
      = (Return (Some pd), σ')
      ∧ logged σ'
        = logged demo_state
          ++ (if decide (pad_shape_name demo_host
                           (pad_GetShape custom_pad) = "custom")
              then custom_pad_warnings
                     (pad_GetCustomShapeAsPolygon custom_pad)
              else [])
      ∧ pd_polygons pd
        = (if decide (pad_shape_name demo_host
                        (pad_GetShape custom_pad) = "custom")
           then Some (outline_points
                        <$> enumerable_prefix
                              (Outlines (pad_GetCustomShapeAsPolygon
                                           custom_pad)))
           else None).
Proof.
  assert (pad_shape_name demo_host (pad_GetShape custom_pad) ≠ "")
    as Hshape by (vm_compute; discriminate).
  split; [exact Hshape |].
  exact (parse_pad_custom_warnings demo_host demo_parser custom_pad
           demo_state Hshape).
Defined.

(** ** What a run logs and hands to the font parser *)

Lemma returns_conj {A} (m : M A) σ (Q1 Q2 : A → state → Prop) :
  returns m σ Q1 → returns m σ Q2 →
  returns m σ (λ a σ', Q1 a σ' ∧ Q2 a σ').
Proof.
  intros (a & σ' & Hrun & H1) (a2 & σ2 & Hrun2 & H2).
  rewrite Hrun in Hrun2. injection Hrun2 as <- <-. by exists a, σ'.
Qed.

#[global] Instance no_schematic_warning_po : PreOrder no_schematic_warning.
Proof.
  split.
  - intros σ. exists []. by rewrite app_nil_r.
  - intros σ1 σ2 σ3 (l1 & H1 & Hq1) (l2 & H2 & Hq2). exists (l1 ++ l2).
    split; [by rewrite H2, H1, app_assoc | by apply Forall_app].
Qed.

#[global] Instance same_font_po : PreOrder same_font.
Proof.
  split; [done |]. intros σ1 σ2 σ3 H1 H2. unfold same_font in *. congruence.
Qed.

Section Keeps.

Context (R : state → state → Prop) `{!PreOrder R}.

Lemma keeps_ret {A} (a : A) : keeps R (mret a).
Proof. intros σ. apply returns_ret. reflexivity. Qed.

Lemma keeps_bind {A B} (m : M A) (f : A → M B) :
  keeps R m → (∀ a, keeps R (f a)) → keeps R (m ≫= f).
Proof.
  intros Hm Hf σ. apply returns_bind.
  eapply returns_mono; [apply Hm |]. intros a σ1 H1.
  eapply returns_mono; [apply Hf |]. intros b σ2 H2.
  simpl in *. by trans σ1.
Qed.

Lemma keeps_for_each {A B} (l : list A) (acc : B) (body : B → A → M B) :
  (∀ acc x, keeps R (body acc x)) → keeps R (for_each l acc body).
Proof.
  intros Hbody. revert acc. induction l as [| x l IH]; intros acc; simpl.
  - apply keeps_ret.
  - apply keeps_bind; [apply Hbody | intros acc'; apply IH].
Qed.

Lemma keeps_state {A} (m : M A) :
  (∀ σ, ∃ a, m σ = (Return a, σ)) → keeps R m.
Proof.
  intros Hm σ. destruct (Hm σ) as [a Ha]. exists a, σ.
  split; [done | reflexivity].
Qed.

Lemma keeps_call {A} r (method : FOOTPRINT → A) : keeps R (call r method).
Proof. apply keeps_state. intros σ. by eexists. Qed.

Lemma keeps_parse_poly_set_loop outlines result :
  keeps R (logger_warn
             "No PointCount method on outline object. Unpatched kicad version?"
             []) →
  keeps R (parse_poly_set_loop outlines result).
Proof.
  intros Hwarn. revert result.
  induction outlines as [| o outlines IH]; intros result; simpl.
  - apply keeps_ret.
  - destruct (has_PointCount o); simpl; [apply IH |].
    apply keeps_bind; [exact Hwarn | intros ?; apply keeps_ret].
Qed.

End Keeps.

Lemma quiet_logger lv f a :
  ¬ schematic_warning {| lvl := lv; fmt := f; args := a |} →
  keeps no_schematic_warning (logger lv f a).
Proof.
  intros Hf σ. apply returns_logger. eexists. split; [reflexivity |].
  by repeat constructor.
Qed.

Lemma quiet_store {A} (m : M A) :
  (∀ σ, ∃ a st, m σ = (Return a, {| store := st; logged := logged σ;
                                    font_strings := font_strings σ |})) →
  keeps no_schematic_warning m.
Proof.
  intros Hm σ. destruct (Hm σ) as (a & st & Ha). eexists _, _.
  split; [exact Ha |]. exists []. by rewrite app_nil_r.
Qed.

Lemma quiet_font text : keeps no_schematic_warning (parse_font_for_string text).
Proof.
  intros σ. apply returns_parse_font_for_string. exists [].
  by rewrite app_nil_r.
Qed.

Lemma same_font_logger lv f a : keeps same_font (logger lv f a).
Proof. intros σ. by apply returns_logger. Qed.

Ltac keeps_step :=
  match goal with
  | |- keeps _ (mret _) => apply keeps_ret; apply _
  | |- keeps _ (_ ≫= _) => apply keeps_bind; [apply _ | | intros ?]
  | |- keeps _ (for_each _ _ _) =>
      apply keeps_for_each; [apply _ | intros ? ?]
  | |- keeps _ (call _ _) => apply keeps_call; apply _
  | |- keeps _ (parse_poly_set _) =>
      apply keeps_parse_poly_set_loop; [apply _ |]
  | |- keeps no_schematic_warning (logger _ _ _) =>
      apply quiet_logger; intros [Hfmt | Hfmt]; discriminate Hfmt
  | |- keeps no_schematic_warning (logger_info _ _) =>
      apply quiet_logger; intros [Hfmt | Hfmt]; discriminate Hfmt
  | |- keeps no_schematic_warning (logger_warn _ _) =>
      apply quiet_logger; intros [Hfmt | Hfmt]; discriminate Hfmt
  | |- keeps no_schematic_warning (logger_error _ _) =>
      apply quiet_logger; intros [Hfmt | Hfmt]; discriminate Hfmt
  | |- keeps no_schematic_warning (parse_font_for_string _) =>
      apply quiet_font
  | |- keeps no_schematic_warning (new_FOOTPRINT _) =>
      apply quiet_store; intros ?; by eexists _, _
  | |- keeps no_schematic_warning (mutate _ _) =>
      apply quiet_store; intros ?; by eexists _, _
  | |- keeps same_font (logger _ _ _) => apply same_font_logger
  | |- keeps same_font (logger_info _ _) => apply same_font_logger
  | |- keeps same_font (logger_warn _ _) => apply same_font_logger
  | |- keeps same_font (logger_error _ _) => apply same_font_logger
  | |- keeps _ (if ?b then _ else _) => destruct b
  | |- keeps _ (match ?x with _ => _ end) => destruct x
  | |- keeps _ ((match ?x with _ => _ end) _) => destruct x
  end.

Lemma quiet_parse_drawing host d :
  keeps no_schematic_warning (parse_drawing host d).
Proof.
  unfold parse_drawing, parse_shape, parse_text. repeat keeps_step.
Qed.

Lemma quiet_parse_pad host self p :
  keeps no_schematic_warning (parse_pad host self p).
Proof. unfold parse_pad. cbv zeta. repeat keeps_step. Qed.

Lemma same_font_parse_pad host self p : keeps same_font (parse_pad host self p).
Proof. unfold parse_pad. cbv zeta. repeat keeps_step. Qed.

Ltac keeps_tac host :=
  repeat first [ keeps_step | apply (quiet_parse_drawing host) ].

Lemma quiet_parse_edges host self pcb :
  keeps no_schematic_warning (parse_edges host self pcb).
Proof. unfold parse_edges. keeps_tac host. Qed.

Lemma quiet_parse_drawings_on_layers host drawings f_layer b_layer :
  keeps no_schematic_warning
    (parse_drawings_on_layers host drawings f_layer b_layer).
Proof. unfold parse_drawings_on_layers. keeps_tac host. Qed.

Lemma quiet_parse_pads host self f_pads :
  keeps no_schematic_warning (parse_pads host self f_pads).
Proof.
  unfold parse_pads.
  repeat first [ keeps_step | apply (quiet_parse_pad host self) ].
Qed.

Lemma same_font_parse_pads host self f_pads :
  keeps same_font (parse_pads host self f_pads).
Proof.
  unfold parse_pads.
  repeat first [ keeps_step | apply (same_font_parse_pad host self) ].
Qed.

Lemma quiet_parse_footprint host self f :
  keeps no_schematic_warning (parse_footprint host self f).
Proof.
  unfold parse_footprint.
  repeat first [ keeps_step | apply (quiet_parse_drawing host)
               | apply (quiet_parse_pads host self) ].
Qed.

Lemma quiet_parse_footprints host self :
  keeps no_schematic_warning (parse_footprints host self).
Proof.
  unfold parse_footprints.
  repeat first [ keeps_step | apply (quiet_parse_footprint host self) ].
Qed.

Lemma quiet_parse_zones self zones :
  keeps no_schematic_warning (parse_zones self zones).
Proof. unfold parse_zones. repeat keeps_step. Qed.

(** The strings of a drawing *)

Lemma parse_drawing_font host (d : BOARD_ITEM) σ :
  returns (parse_drawing host d) σ (λ _ σ',
    font_strings σ' = font_strings σ ++ font_text d).
Proof.
  unfold parse_drawing, font_text.
  destruct (bool_decide (GetClass d ∈ ["DRAWSEGMENT"; "MGRAPHIC"; "PCB_SHAPE"]))
    eqn:Hshape.
  - assert (bool_decide (GetClass d ∈ ["PTEXT"; "MTEXT"]) = false) as ->.
    { apply bool_decide_eq_true in Hshape. apply bool_decide_eq_false.
      intros Htext. list_cases Hshape; rewrite Hshape in Htext;
        list_cases Htext; discriminate. }
    eapply returns_mono; [apply parse_shape_skips |].
    intros r σ' (_ & Hfont & _). simpl. by rewrite app_nil_r.
  - destruct (bool_decide (GetClass d ∈ ["PTEXT"; "MTEXT"])); simpl.
    + eapply returns_mono; [apply parse_text_spec |].
      intros r σ' (_ & _ & Hf & _). exact Hf.
    + apply returns_bind, returns_logger, returns_ret. simpl.
      by rewrite app_nil_r.
Qed.

Lemma parse_edges_font host self pcb σ :
  returns (parse_edges host self pcb) σ (λ _ σ',
    font_strings σ'
    = font_strings σ
      ++ (filter (λ d, GetLayer d = Edge_Cuts)
            (edge_candidates self pcb (store σ)) ≫= font_text)).
Proof.
  unfold parse_edges. apply returns_bind.
  eapply returns_mono.
  { apply (returns_for_each (λ done drawings σ',
      σ' = σ
      ∧ drawings = GetDrawings pcb
                   ++ (done ≫= λ f, fp_GraphicalItems (store σ !!! f)))).
    - split; [done | by rewrite app_nil_r].
    - intros done f rest drawings σ1 _ [-> ->].
      apply returns_bind, returns_call, returns_ret. split; [done |].
      rewrite foldl_snoc, bind_app, <- app_assoc. simpl.
      by rewrite app_nil_r. }
  intros drawings σ1 [-> ->]. fold (edge_candidates self pcb (store σ)).
  apply returns_bind. eapply returns_mono.
  { apply (returns_for_each
             (λ done (acc : list drawing_dict * option EDA_RECT) σ',
                font_strings σ'
                = font_strings σ
                  ++ (filter (λ d, GetLayer d = Edge_Cuts) done
                      ≫= font_text))).
    - simpl. by rewrite app_nil_r.
    - intros done d rest [edges bbox] σ2 _ Hfont.
      rewrite filter_app, bind_app, filter_cons.
      destruct (decide (GetLayer d = Edge_Cuts)) as [Hl | Hl].
      + apply returns_bind. eapply returns_mono; [apply parse_drawing_font |].
        intros r σ3 Hf3. simpl in Hf3.
        assert (font_strings σ3
                = font_strings σ
                  ++ (filter (λ d, GetLayer d = Edge_Cuts) done ≫= font_text)
                  ++ ([d] ≫= font_text)) as Hgoal.
        { rewrite Hf3, Hfont, <- app_assoc. f_equal. f_equal. simpl.
          by rewrite app_nil_r. }
        destruct r; apply returns_ret; exact Hgoal.
      + apply returns_ret. simpl. by rewrite app_nil_r. }
  intros [edges bbox] σ2 Hfont. apply returns_ret. exact Hfont.
Qed.

Lemma parse_drawings_on_layers_font host drawings f_layer b_layer σ :
  returns (parse_drawings_on_layers host drawings f_layer b_layer) σ
    (λ _ σ',
       font_strings σ'
       = font_strings σ ++ layer_texts drawings f_layer b_layer).
Proof.
  unfold parse_drawings_on_layers, layer_texts. apply returns_bind.
  eapply returns_mono.
  { apply (returns_for_each
             (λ done (acc : list layer_drawing * list layer_drawing) σ',
                font_strings σ'
                = font_strings σ
                  ++ (filter (λ d, GetLayer d.2 ∈ [f_layer; b_layer]) done
                      ≫= λ d, font_text d.2))).
    - simpl. by rewrite app_nil_r.
    - intros done d rest [front back] σ1 _ Hfont.
      rewrite filter_app, bind_app, filter_cons.
      destruct (decide (GetLayer d.2 ∈ [f_layer; b_layer])) as [Hl | Hl].
      + rewrite bool_decide_eq_true_2 by done. simpl.
        apply returns_bind. eapply returns_mono; [apply parse_drawing_font |].
        intros r σ2 Hf2. simpl in Hf2.
        assert (font_strings σ2
                = font_strings σ
                  ++ (filter (λ d, GetLayer d.2 ∈ [f_layer; b_layer]) done
                      ≫= λ d, font_text d.2)
                  ++ font_text d.2 ++ []) as Hgoal.
        { by rewrite Hf2, Hfont, <- app_assoc, app_nil_r. }
        destruct r; [destruct (decide (GetLayer d.2 = f_layer)) |];
          apply returns_ret; exact Hgoal.
      + rewrite bool_decide_eq_false_2 by done. simpl.
        apply returns_ret. simpl. by rewrite app_nil_r. }
  intros [front back] σ1 Hfont. apply returns_ret. exact Hfont.
Qed.

Lemma footprint_drawings_font host (items : list BOARD_ITEM) σ :
  returns
    (for_each items [] (λ drawings d,
       if negb (bool_decide (GetLayer d ∈ [F_Cu; B_Cu])) then mret drawings
       else
         drawing ← parse_drawing host d;
         match drawing with
         | None => mret drawings
         | Some drawing =>
             mret (drawings ++
                   [{| fd_layer :=
                         if decide (GetLayer d = F_Cu) then "F" else "B";
                       fd_drawing := drawing |}])
         end)) σ
    (λ _ σ',
       font_strings σ'
       = font_strings σ
         ++ (filter (λ d, GetLayer d ∈ [F_Cu; B_Cu]) items ≫= font_text)).
Proof.
  apply (returns_for_each
           (λ done (acc : list footprint_drawing) σ',
              font_strings σ'
              = font_strings σ
                ++ (filter (λ d, GetLayer d ∈ [F_Cu; B_Cu]) done
                    ≫= font_text))).
  - simpl. by rewrite app_nil_r.
  - intros done d rest drawings σ1 _ Hfont.
    rewrite filter_app, bind_app, filter_cons.
    destruct (decide (GetLayer d ∈ [F_Cu; B_Cu])) as [Hl | Hl].
    + rewrite bool_decide_eq_true_2 by done. simpl.
      apply returns_bind. eapply returns_mono; [apply parse_drawing_font |].
      intros r σ2 Hf2. simpl in Hf2.
      assert (font_strings σ2
              = font_strings σ
                ++ (filter (λ d, GetLayer d ∈ [F_Cu; B_Cu]) done ≫= font_text)
                ++ font_text d ++ []) as Hgoal.
      { by rewrite Hf2, Hfont, <- app_assoc, app_nil_r. }
      destruct r; apply returns_ret; exact Hgoal.
    + rewrite bool_decide_eq_false_2 by done. simpl.
      apply returns_ret. simpl. by rewrite app_nil_r.
Qed.

Lemma parse_footprint_font host self (f : ref) σ0 σ :
  preserves σ0 σ → f ∈ dom (store σ0) →
  returns (parse_footprint host self f) σ (λ _ σ',
    font_strings σ'
    = font_strings σ ++ footprint_texts (store σ0 !!! f)).
Proof.
  intros Hpres Hf. unfold parse_footprint, footprint_texts.
  apply returns_bind, returns_call.
  apply returns_bind, returns_new_FOOTPRINT.
  apply returns_bind, returns_mutate.
  apply returns_bind, returns_mutate. simpl.
  set (r := fresh (dom (store σ))).
  assert (r ∉ dom (store σ)) as Hr by apply is_fresh.
  assert (r ∉ dom (store σ0)) as Hr0.
  { intros Hin. apply Hr. eapply extends_dom; [| exact Hin].
    by apply preserves_extends. }
  rewrite !lookup_total_insert_eq.
  set (st3 := <[r := _]> (<[r := _]> (<[r := _]> (store σ)))).
  assert (extends (store σ0) st3) as Hext3.
  { unfold st3. repeat apply extends_insert_fresh; try done.
    by apply preserves_extends. }
  apply returns_bind.
  apply (returns_mono _ _ (λ rect σ', σ' = {| store := st3; logged := logged σ;
                                             font_strings := font_strings σ |})).
  { destruct (GetFootprintRect host); apply returns_call; done. }
  intros footprint_rect σ3 ->.
  apply returns_bind, returns_call. apply returns_bind, returns_call.
  apply returns_bind, returns_call. simpl.
  rewrite (extends_lookup_total _ _ f Hext3 Hf).
  apply returns_bind. eapply returns_mono; [apply footprint_drawings_font |].
  simpl. intros drawings σ4 Hf4.
  apply returns_bind, returns_call.
  apply returns_bind. eapply returns_mono; [apply same_font_parse_pads |].
  intros pads σ5 Hf5. unfold same_font in Hf5.
  apply returns_bind, returns_call, returns_ret. by rewrite Hf5.
Qed.

Lemma parse_footprints_font host self σ :
  Forall (λ f, f ∈ dom (store σ)) (footprints self) →
  returns (parse_footprints host self) σ (λ _ σ',
    font_strings σ'
    = font_strings σ
      ++ (footprints self ≫= λ f, footprint_texts (store σ !!! f))).
Proof.
  intros Hdom. unfold parse_footprints.
  eapply returns_mono.
  { apply (returns_for_each (λ done (fps : list footprint_dict) σ',
      preserves σ σ'
      ∧ font_strings σ'
        = font_strings σ
          ++ (done ≫= λ f, footprint_texts (store σ !!! f)))).
    - split; [apply preserves_refl |]. simpl. by rewrite app_nil_r.
    - intros done f rest fps σ1 Heq [Hp1 Hfont].
      assert (f ∈ dom (store σ)) as Hf.
      { eapply Forall_forall in Hdom; [exact Hdom |]. rewrite Heq.
        apply elem_of_app. right. by left. }
      apply returns_bind. eapply returns_mono.
      { apply returns_conj;
          [by apply (parse_footprint_spec host self f σ)
          | by apply (parse_footprint_font host self f σ)]. }
      intros fd σ2 [(Hp2 & _) Hf2]. apply returns_ret.
      split; [done |]. rewrite Hf2, Hfont, bind_app, <- app_assoc.
      simpl. by rewrite app_nil_r. }
  intros fps σ' [_ Hfont]. exact Hfont.
Qed.

(** ** What a run of [parse] logs and hands to the font parser *)

Lemma assemble_outputs host self need extra title revision company file_date
    found_edges bbox σ :
  Forall (λ f, f ∈ dom (store σ)) (footprints self) →
  returns (assemble host self need extra title revision company file_date
             found_edges bbox) σ (λ _ σ',
    let warnings :=
      missing_warnings (data_used need extra)
        ((λ f, fp_GetReference (store σ !!! f)) <$> footprints self) in
    font_strings σ'
    = font_strings σ
      ++ layer_texts (all_drawings self (store σ)) F_SilkS B_SilkS
      ++ layer_texts (all_drawings self (store σ)) F_Fab B_Fab
      ++ (footprints self ≫= λ f, footprint_texts (store σ !!! f))
    ∧ ∃ l,
        logged σ'
        = logged σ ++ l ++ warnings
          ++ (if list_true warnings then [out_of_date_warning] else [])
        ∧ Forall (λ r, ¬ schematic_warning r) l).
Proof.
  intros Hdom. unfold assemble.
  apply returns_bind. eapply returns_mono; [apply get_all_drawings_spec |].
  intros drawings ? [-> ->]. fold (all_drawings self (store σ)).
  apply returns_bind. eapply returns_mono.
  { apply returns_conj; [apply parse_drawings_on_layers_spec |].
    apply returns_conj; [apply parse_drawings_on_layers_font
                        | apply quiet_parse_drawings_on_layers]. }
  intros silk σ2 [(Hs2 & _) [Hf2 (l2 & Hl2 & Hq2)]].
  apply returns_bind. eapply returns_mono.
  { apply returns_conj; [apply parse_drawings_on_layers_spec |].
    apply returns_conj; [apply parse_drawings_on_layers_font
                        | apply quiet_parse_drawings_on_layers]. }
  intros fab σ3 [(Hs3 & _) [Hf3 (l3 & Hl3 & Hq3)]].
  assert (preserves σ σ3) as Hp3.
  { eapply preserves_same_store; [| exact Hs3].
    eapply preserves_same_store; [| exact Hs2]. apply preserves_refl. }
  assert (store σ3 = store σ) as Hst3.
  { by rewrite (same_store_store _ _ Hs3), (same_store_store _ _ Hs2). }
  apply returns_bind. eapply returns_mono.
  { apply returns_conj; [by apply (parse_footprints_spec host self σ) |].
    apply returns_conj; [apply parse_footprints_font; by rewrite Hst3
                        | apply quiet_parse_footprints]. }
  intros fps σ4 [[Hp4 _] [Hf4 (l4 & Hl4 & Hq4)]]. rewrite Hst3 in Hf4.
  apply returns_bind. unfold get_parsed_font_now at 1.
  eexists _, _. split; [reflexivity |].
  apply returns_bind.
  apply (returns_mono _ _ (λ tz σ',
    same_store σ4 σ'
    ∧ font_strings σ' = font_strings σ4
    ∧ no_schematic_warning σ4 σ')).
  { destruct (include_tracks (config self));
      [| apply returns_ret; split; [apply same_store_refl |];
         split; [done | reflexivity]].
    destruct (Zones (board self)) as [board_zones |].
    - apply returns_bind. eapply returns_mono.
      { apply returns_conj; [apply parse_zones_spec
                            | apply quiet_parse_zones]. }
      intros z σ5 [(Hs5 & Hf5 & _) Hq5]. by apply returns_ret.
    - apply returns_bind, returns_logger, returns_ret.
      split; [apply same_store_logged |]. split; [done |].
      eexists. split; [reflexivity |]. repeat constructor.
      intros [Hfmt | Hfmt]; discriminate Hfmt. }
  intros tz σ5 (Hs5 & Hf5 & l5 & Hl5 & Hq5).
  assert (preserves σ σ5) as Hp5 by (by eapply preserves_same_store).
  assert (∀ f, f ∈ footprints self → store σ5 !!! f = store σ !!! f) as Hobj.
  { intros f Hf. apply extends_lookup_total; [apply Hp5 |].
    by eapply Forall_forall in Hdom. }
  destruct tz as [tracks_ zones_].
  apply returns_bind. eapply returns_mono; [apply extra_data_step |].
  intros [e warning_shown] σ6 (-> & He & Hw). simpl in He, Hw.
  assert ((λ f, fp_GetReference (store σ5 !!! f)) <$> footprints self
          = (λ f, fp_GetReference (store σ !!! f)) <$> footprints self)
    as Hrefs.
  { apply Forall_fmap_ext, Forall_forall. intros f Hf. by rewrite Hobj. }
  rewrite Hrefs in He, Hw |- *. clear Hrefs.
  set (warnings :=
         missing_warnings (data_used need extra)
           ((λ f, fp_GetReference (store σ !!! f)) <$> footprints self))
    in *.
  apply returns_bind.
  apply (returns_mono _ _ (λ _ σ',
    σ' = {| store := store σ5;
            logged := logged σ5 ++ warnings
                      ++ (if list_true warnings
                          then [out_of_date_warning] else []);
            font_strings := font_strings σ5 |})).
  { subst warning_shown. destruct (list_true warnings).
    - apply returns_logger. simpl. by rewrite <- app_assoc.
    - apply returns_ret. by rewrite app_nil_r. }
  intros _ σ7 ->.
  apply returns_bind. eapply returns_mono; [apply components_spec |].
  intros comps ? [-> ->]. apply returns_ret. simpl.
  split.
  - rewrite Hf5, Hf4, Hf3, Hf2. by rewrite <- !app_assoc.
  - exists (l2 ++ l3 ++ l4 ++ l5). split.
    + rewrite Hl5, Hl4, Hl3, Hl2. by rewrite <- !app_assoc.
    + by repeat apply Forall_app_2.
Qed.

Lemma parse_tail_outputs host self need extra title revision company
    file_date σ :
  Forall (λ f, f ∈ dom (store σ)) (footprints self) →
  outline_drawings host self (board self) (store σ) ≠ [] →
  returns
    ('(found_edges, bbox) ← parse_edges host self (board self);
     match bbox with
     | None =>
         _ ← logger_error
               ("Please draw pcb outline on the edges " ++
                "layer on sheet or any footprint before " ++
                "generating BOM.") [];
         mret (None, None)
     | Some bbox =>
         assemble host self need extra title revision company file_date
           found_edges bbox
     end) σ
    (λ _ σ',
       let warnings :=
         missing_warnings (data_used need extra)
           ((λ f, fp_GetReference (store σ !!! f)) <$> footprints self) in
       font_strings σ' = font_strings σ ++ parsed_texts self (store σ)
       ∧ ∃ l,
           logged σ'
           = logged σ ++ l ++ warnings
             ++ (if list_true warnings then [out_of_date_warning] else [])
           ∧ Forall (λ r, ¬ schematic_warning r) l).
Proof.
  intros Hdom Hne. apply returns_bind.
  eapply returns_mono.
  { apply returns_conj; [apply parse_edges_bbox |].
    apply returns_conj; [apply parse_edges_font | apply quiet_parse_edges]. }
  intros [found_edges bbox] σ1 [(Hs1 & _ & _ & Hbox) [Hf1 (l1 & Hl1 & Hq1)]].
  simpl in Hbox.
  destruct (outline_drawings host self (board self) (store σ))
    as [| d ds] eqn:Hout; [done |].
  simpl in Hbox. subst bbox.
  pose proof (same_store_store _ _ Hs1) as Hst1.
  eapply returns_mono.
  { apply assemble_outputs. by rewrite Hst1. }
  intros r σ' [Hfont (l & Hlog & Hq)]. rewrite Hst1 in Hfont, Hlog.
  split.
  - rewrite Hfont, Hf1. unfold parsed_texts. by rewrite <- !app_assoc.
  - exists (l1 ++ l). split.
    + rewrite Hlog, Hl1. by rewrite <- !app_assoc.
    + by apply Forall_app_2.
Qed.

Lemma parse_reduces_quiet host self σ :
  (fields_needed (config self) = true →
   is_Some (extra_data_read host (config self))) →
  ∃ σ1,
    store σ1 = store σ
    ∧ font_strings σ1 = font_strings σ
    ∧ no_schematic_warning σ σ1
    ∧ parse host self σ
      = ('(found_edges, bbox) ← parse_edges host self (board self);
         match bbox with
         | None =>
             _ ← logger_error
                   ("Please draw pcb outline on the edges " ++
                    "layer on sheet or any footprint before " ++
                    "generating BOM.") [];
             mret (None, None)
         | Some bbox =>
             assemble host self (fields_needed (config self))
               (schematic_data host (config self))
               (md_title (document_metadata host self))
               (md_revision (document_metadata host self))
               (md_company (document_metadata host self))
               (md_date (document_metadata host self))
               found_edges bbox
         end) σ1.
Proof.
  intros Hdata.
  unfold fields_needed, schematic_data, document_metadata, expanded in *.
  unfold parse. fold (fields_requested (config self)).
  fold (extra_data_read host (config self)).
  cbn [md_title md_revision md_company md_date].
  destruct (fields_requested (config self)) eqn:Hreq;
    destruct (str_true (netlist_file (config self))) eqn:Hfile;
    destruct (bool_decide (is_Some (extra_data_read host (config self))))
      eqn:Hread;
    simpl negb; simpl andb; cbv iota.
  2: { apply bool_decide_eq_false in Hread. destruct Hread. by apply Hdata. }
  all: destruct (ExpandTextVars (board self)); cbv zeta iota beta.
  all: destruct (str_true (GetDate (GetTitleBlock (board self))));
    simpl negb; cbv iota.
  all: match goal with
       | |- context [str_true ?s] => destruct (str_true s)
       end; simpl negb; cbv iota.
  all: eexists; split; [| split; [| split]]; [| | | reflexivity].
  all: try done.
  all: first [ reflexivity
             | eexists; split; [reflexivity |]; repeat constructor;
               intros [Hfmt | Hfmt]; discriminate Hfmt ].
Qed.

Lemma parse_outputs host self σ :
  Forall (λ f, f ∈ dom (store σ)) (footprints self) →
  outline_drawings host self (board self) (store σ) ≠ [] →
  (fields_needed (config self) = true →
   is_Some (extra_data_read host (config self))) →
  returns (parse host self) σ (λ _ σ',
    let warnings :=
      missing_warnings
        (data_used (fields_needed (config self))
           (schematic_data host (config self)))
        ((λ f, fp_GetReference (store σ !!! f)) <$> footprints self) in
    font_strings σ' = font_strings σ ++ parsed_texts self (store σ)
    ∧ ∃ l,
        logged σ'
        = logged σ ++ l ++ warnings
          ++ (if list_true warnings then [out_of_date_warning] else [])
        ∧ Forall (λ r, ¬ schematic_warning r) l).
Proof.
  intros Hdom Hne Hdata.
  destruct (parse_reduces_quiet host self σ Hdata)
    as (σ1 & Hst & Hfont1 & (l1 & Hl1 & Hq1) & Hrun).
  unfold returns. rewrite Hrun.
  edestruct (parse_tail_outputs host self) as (r & σ' & Htail & Hf & Hlog);
    [| | rewrite Htail]; [by rewrite Hst | by rewrite Hst |].
  destruct Hlog as (l & Hlog & Hq). rewrite Hst in Hf, Hlog.
  exists r, σ'. split; [done |]. split; [by rewrite Hf, Hfont1 |].
  exists (l1 ++ l). split.
  - rewrite Hlog, Hl1. by rewrite <- !app_assoc.
  - by apply Forall_app_2.
Qed.

(** X19. Among the records that a run of [parse] adds to the log, the
    warnings about schematic data are exactly these, and they come last:
    when [parse] looks references up in the schematic data, one warning for
    every footprint whose reference the data lacks, in the order of the
    footprints, followed by one warning that the netlist file is likely out
    of date if there was at least one. When the data is not used, the run
    logs no such warning. *)
Theorem parse_missing_component_warnings (host : Host) (self : PcbnewParser)
    (σ : state) :
  Forall (λ f, f ∈ dom (store σ)) (footprints self) →
  outline_drawings host self (board self) (store σ) ≠ [] →
  (fields_needed (config self) = true →
   is_Some (extra_data_read host (config self))) →
  ∃ doc comps σ' l,
    parse host self σ = (Return (Some doc, Some comps), σ')
    ∧ logged σ'
      = logged σ ++ l
        ++ missing_warnings
             (data_used (fields_needed (config self))
                (schematic_data host (config self)))
             ((λ f, fp_GetReference (store σ !!! f)) <$> footprints self)
        ++ (if list_true
                 (missing_warnings
                    (data_used (fields_needed (config self))
                       (schematic_data host (config self)))
                    ((λ f, fp_GetReference (store σ !!! f))
                       <$> footprints self))
            then [out_of_date_warning] else [])
    ∧ Forall (λ r, ¬ schematic_warning r) l
    ∧ (data_used (fields_needed (config self))
         (schematic_data host (config self)) = None →
       logged σ' = logged σ ++ l).
Proof.
  intros Hdom Hne Hdata.
  destruct (parse_full host self σ Hdom Hne Hdata)
    as (doc & comps & σ' & box & Hrun & _).
  destruct (parse_outputs host self σ Hdom Hne Hdata)
    as (r & σ2 & Hrun2 & _ & l & Hlog & Hquiet).
  rewrite Hrun in Hrun2. injection Hrun2 as <- <-.
  exists doc, comps, σ', l. split; [done |]. split; [exact Hlog |].
  split; [exact Hquiet |].
  intros Hused. rewrite Hused in Hlog. simpl in Hlog.
  by rewrite !app_nil_r in Hlog.
Qed.

Lemma parse_missing_component_warnings_witness :
  Forall (λ f, f ∈ dom (store demo_state)) (footprints schematic_parser)
  ∧ outline_drawings (schematic_host "R2") schematic_parser
      (board schematic_parser) (store demo_state) ≠ []
  ∧ (fields_needed (config schematic_parser) = true →
     is_Some (extra_data_read (schematic_host "R2")
                (config schematic_parser)))
  ∧ ∃ doc comps σ' l,
      parse (schematic_host "R2") schematic_parser demo_state
      = (Return (Some doc, Some comps), σ')
      ∧ logged σ'
        = logged demo_state ++ l
          ++ missing_warnings
               (data_used (fields_needed (config schematic_parser))
                  (schematic_data (schematic_host "R2")
                     (config schematic_parser)))
               ((λ f, fp_GetReference (store demo_state !!! f))
                  <$> footprints schematic_parser)
          ++ (if list_true
                   (missing_warnings
                      (data_used (fields_needed (config schematic_parser))
                         (schematic_data (schematic_host "R2")
                            (config schematic_parser)))
                      ((λ f, fp_GetReference (store demo_state !!! f))
                         <$> footprints schematic_parser))
              then [out_of_date_warning] else [])
      ∧ Forall (λ r, ¬ schematic_warning r) l
      ∧ (data_used (fields_needed (config schematic_parser))
           (schematic_data (schematic_host "R2")
              (config schematic_parser)) = None →
         logged σ' = logged demo_state ++ l).
Proof.
  assert (Forall (λ f, f ∈ dom (store demo_state))
            (footprints schematic_parser)) as Hfps.
  { constructor; [vm_compute; done | constructor]. }
  assert (outline_drawings (schematic_host "R2") schematic_parser
            (board schematic_parser) (store demo_state) ≠ [])
    as Houtline.
  { vm_compute. discriminate. }
  assert (fields_needed (config schematic_parser) = true →
          is_Some (extra_data_read (schematic_host "R2")
                     (config schematic_parser))) as Hdata.
  { intros _. vm_compute. by eexists. }
  split; [exact Hfps |]. split; [exact Houtline |]. split; [exact Hdata |].
  exact (parse_missing_component_warnings (schematic_host "R2")
           schematic_parser demo_state Hfps Houtline Hdata).
Defined.

(** On the demo board, with schematic data for R2 only: one warning for
    R1, then the warning about the netlist file. *)
Example parse_missing_component_warnings_demo :
  ∃ doc comps σ',
    parse (schematic_host "R2") schematic_parser demo_state
    = (Return (Some doc, Some comps), σ')
    ∧ logged σ'
      = [{| lvl := WARN;
            fmt := "Component %s is missing from schematic data.";
            args := [arg_str "R1"] |};
         out_of_date_warning].
Proof. eexists _, _, _. split; vm_compute; reflexivity. Qed.

(** X20. The font data of the board record is computed from all the
    strings that the run hands to the font parser, and these are the shown
    texts of the visible texts it parses, in this order: those among the
    outline candidates, those on the silkscreen layers and those on the
    fabrication layers, of the board and then of each footprint with its
    reference and value, and those on the copper layers of the footprints.
    No string is handed over after the font data is read. *)
Theorem parse_font_data (host : Host) (self : PcbnewParser) (σ : state) :
  Forall (λ f, f ∈ dom (store σ)) (footprints self) →
  outline_drawings host self (board self) (store σ) ≠ [] →
  (fields_needed (config self) = true →
   is_Some (extra_data_read host (config self))) →
  ∃ doc comps σ',
    parse host self σ = (Return (Some doc, Some comps), σ')
    ∧ font_strings σ' = font_strings σ ++ parsed_texts self (store σ)
    ∧ font_data doc
      = get_parsed_font host
          (font_strings σ ++ parsed_texts self (store σ)).
Proof.
  intros Hdom Hne Hdata.
  destruct (parse_full host self σ Hdom Hne Hdata)
    as (doc & comps & σ' & box & Hrun & Hp & Hbox & Hdoc).
  destruct Hdoc as (_ & _ & _ & _ & _ & _ & _ & Hfont & _).
  destruct (parse_outputs host self σ Hdom Hne Hdata)
    as (r & σ2 & Hrun2 & Hstrings & _).
  rewrite Hrun in Hrun2. injection Hrun2 as <- <-.
  exists doc, comps, σ'. split; [done |]. split; [exact Hstrings |].
  by rewrite Hfont, Hstrings.
Qed.

Lemma parse_font_data_witness :
  Forall (λ f, f ∈ dom (store lettered_state)) (footprints lettered_parser)
  ∧ outline_drawings lettering_host lettered_parser (board lettered_parser)
      (store lettered_state) ≠ []
  ∧ (fields_needed (config lettered_parser) = true →
     is_Some (extra_data_read lettering_host (config lettered_parser)))
  ∧ ∃ doc comps σ',
      parse lettering_host lettered_parser lettered_state
      = (Return (Some doc, Some comps), σ')
      ∧ font_strings σ'
        = font_strings lettered_state
          ++ parsed_texts lettered_parser (store lettered_state)
      ∧ font_data doc
        = get_parsed_font lettering_host
            (font_strings lettered_state
             ++ parsed_texts lettered_parser (store lettered_state)).
Proof.
  assert (Forall (λ f, f ∈ dom (store lettered_state))
            (footprints lettered_parser)) as Hfps.
  { constructor; [vm_compute; done | constructor]. }
  assert (outline_drawings lettering_host lettered_parser
            (board lettered_parser) (store lettered_state) ≠ [])
    as Houtline.
  { vm_compute. discriminate. }
  assert (fields_needed (config lettered_parser) = true →
          is_Some (extra_data_read lettering_host (config lettered_parser)))
    as Hdata.
  { intros Hreq. vm_compute in Hreq. discriminate. }
  split; [exact Hfps |]. split; [exact Houtline |]. split; [exact Hdata |].
  exact (parse_font_data lettering_host lettered_parser lettered_state
           Hfps Houtline Hdata).
Defined.

(** The strings of the lettered board, and its font data. *)
Example parse_font_data_lettered :
  parsed_texts lettered_parser (store lettered_state)
  = ["REV A"; "R1"; "10k"; "TP1"]
  ∧ ∃ doc comps σ',
      parse lettering_host lettered_parser lettered_state
      = (Return (Some doc, Some comps), σ')
      ∧ font_strings σ' = ["REV A"; "R1"; "10k"; "TP1"]
      ∧ font_data doc = "REV A|R1|10k|TP1".
Proof.
  split; [vm_compute; reflexivity |].
  eexists _, _, _. split; [vm_compute; reflexivity |].
  split; vm_compute; reflexivity.
Qed.
